(** * Suno-Lyrics: the line aligner and the LRC / SRT serializers

    A shallow embedding of [src/utils/alignment.ts] and of the two
    interfaces of [types.ts] it uses.

    Modelling choices.
    - A JavaScript string is the list of its code points.  Every string
      primitive the aligner calls ([split], [trim], [startsWith],
      [endsWith], [toLowerCase], the [u]-flagged regular expression) acts
      on whole code points, so nothing is lost against UTF-16 code units.
    - [String.prototype.toLowerCase] and the Unicode general categories
      [\p{L}] and [\p{N}] belong to the JavaScript runtime, not to the
      repository: they are variables of the section below.  The tables
      of Unicode 14.0, which constrain them for the normalizer, are
      written out as ranges of code points.
    - A JavaScript [number] is the rational ([Q]) that a finite binary64
      number denotes.  The operations that round, [/], [*] and [-], round
      the exact result to the nearest binary64 number, ties to even
      ([round64]); [%] and [Math.floor] are exact, as in IEEE 754.  A
      decimal literal enters as the binary64 number nearest to it
      ([num]).  NaN and the infinities are outside this model: no time
      read from JSON is one of them.  Where a function only adds a
      constant to a time that it copies ([+ 5] in the aligner), the sum
      is the exact one.
    - [Number.prototype.toString] writes a whole number with the
      shortest digits that read back as the same number, which below
      2^53 are all its digits, and in exponent notation from 1e21 on.
    - Reading a property of [undefined] raises a [TypeError]: array reads
      return an option and the aligner lives in an error monad. *)

From Stdlib Require Import String Ascii.
From Stdlib Require Import List Bool Arith ZArith NArith QArith Qround Qpower Lia Sorted.
Import ListNotations.

Set Implicit Arguments.
Local Open Scope nat_scope.

(* ================================================================== *)
(** ** JavaScript strings *)
(* ================================================================== *)

Definition codepoint := N.
Definition jsstring := list codepoint.

(** A string literal of the source, read as code points. *)
Definition js (s : string) : jsstring :=
  map N_of_ascii (list_ascii_of_string s).

Definition cp_eqb (a b : codepoint) : bool := N.eqb a b.

(** [a === b] on two strings. *)
Fixpoint str_eqb (a b : jsstring) : bool :=
  match a, b with
  | [], [] => true
  | x :: a', y :: b' => cp_eqb x y && str_eqb a' b'
  | _, _ => false
  end.

(** [a === b] where [b] was read from an array and may be [undefined]. *)
Definition str_eqb_opt (a : jsstring) (b : option jsstring) : bool :=
  match b with
  | Some b' => str_eqb a b'
  | None => false
  end.

(** WhiteSpace and LineTerminator of ECMAScript: the characters removed by
    [trim] and matched by the class [\s]. *)
Definition isWhiteSpace (c : codepoint) : bool :=
  ((9 <=? c) && (c <=? 13) ||
   (c =? 32) || (c =? 160) || (c =? 5760) ||
   (8192 <=? c) && (c <=? 8202) ||
   (c =? 8232) || (c =? 8233) || (c =? 8239) || (c =? 8287) ||
   (c =? 12288) || (c =? 65279))%N.

Fixpoint dropWhile (p : codepoint -> bool) (s : jsstring) : jsstring :=
  match s with
  | [] => []
  | c :: r => if p c then dropWhile p r else s
  end.

(** [s.trim()] *)
Definition trim (s : jsstring) : jsstring :=
  rev (dropWhile isWhiteSpace (rev (dropWhile isWhiteSpace s))).

(** [s.split(sep)] for a one-character separator. *)
Fixpoint split_on (sep : codepoint) (s : jsstring) : list jsstring :=
  match s with
  | [] => [[]]
  | c :: r =>
      if cp_eqb c sep then [] :: split_on sep r
      else match split_on sep r with
           | h :: t => (c :: h) :: t
           | [] => [[c]]
           end
  end.

(** [s.split(/\s+/)]: a maximal run of white space is one separator; a
    leading or trailing run leaves an empty first or last piece. *)
Fixpoint split_ws (s : jsstring) : list jsstring :=
  match s with
  | [] => [[]]
  | c :: r =>
      if isWhiteSpace c then
        match r with
        | c' :: _ => if isWhiteSpace c' then split_ws r else [] :: split_ws r
        | [] => [] :: split_ws r
        end
      else match split_ws r with
           | h :: t => (c :: h) :: t
           | [] => [[c]]
           end
  end.

(** [s.startsWith(c)] and [s.endsWith(c)] for a one-character [c]. *)
Definition startsWith (s : jsstring) (c : codepoint) : bool :=
  match s with
  | x :: _ => cp_eqb x c
  | [] => false
  end.

Definition endsWith (s : jsstring) (c : codepoint) : bool :=
  startsWith (rev s) c.

(** [s.padStart(n, '0')] *)
Definition padStart0 (n : nat) (s : jsstring) : jsstring :=
  repeat 48%N (n - length s) ++ s.

(** [parts.join(sep)] *)
Fixpoint join (sep : jsstring) (parts : list jsstring) : jsstring :=
  match parts with
  | [] => []
  | [p] => p
  | p :: rest => p ++ sep ++ join sep rest
  end.

(** The ASCII restriction of the runtime's case mapping and categories. *)
Definition isAscii (c : codepoint) : bool := (c <? 128)%N.

Definition ascii_lower (c : codepoint) : codepoint :=
  if ((65 <=? c) && (c <=? 90))%N then (c + 32)%N else c.

Definition ascii_isLetter (c : codepoint) : bool :=
  ((65 <=? c) && (c <=? 90) || (97 <=? c) && (c <=? 122))%N.

Definition ascii_isNumber (c : codepoint) : bool :=
  ((48 <=? c) && (c <=? 57))%N.

(* ================================================================== *)
(** ** The Unicode tables of the runtime *)
(* ================================================================== *)

(** The code points of the general categories L, N and Nd, and the
    lowercase mapping, of Unicode 14.0: what [\p{L}], [\p{N}] and
    [toLowerCase] consult.  A later version only adds code points. *)
Definition unicode_L : list (N * N) :=
  [(65, 90); (97, 122); (170, 170); (181, 181); (186, 186); (192, 214);
   (216, 246); (248, 705); (710, 721); (736, 740); (748, 748); (750, 750);
   (880, 884); (886, 887); (890, 893); (895, 895); (902, 902); (904, 906);
   (908, 908); (910, 929); (931, 1013); (1015, 1153); (1162, 1327);
   (1329, 1366); (1369, 1369); (1376, 1416); (1488, 1514); (1519, 1522);
   (1568, 1610); (1646, 1647); (1649, 1747); (1749, 1749); (1765, 1766);
   (1774, 1775); (1786, 1788); (1791, 1791); (1808, 1808); (1810, 1839);
   (1869, 1957); (1969, 1969); (1994, 2026); (2036, 2037); (2042, 2042);
   (2048, 2069); (2074, 2074); (2084, 2084); (2088, 2088); (2112, 2136);
   (2144, 2154); (2160, 2183); (2185, 2190); (2208, 2249); (2308, 2361);
   (2365, 2365); (2384, 2384); (2392, 2401); (2417, 2432); (2437, 2444);
   (2447, 2448); (2451, 2472); (2474, 2480); (2482, 2482); (2486, 2489);
   (2493, 2493); (2510, 2510); (2524, 2525); (2527, 2529); (2544, 2545);
   (2556, 2556); (2565, 2570); (2575, 2576); (2579, 2600); (2602, 2608);
   (2610, 2611); (2613, 2614); (2616, 2617); (2649, 2652); (2654, 2654);
   (2674, 2676); (2693, 2701); (2703, 2705); (2707, 2728); (2730, 2736);
   (2738, 2739); (2741, 2745); (2749, 2749); (2768, 2768); (2784, 2785);
   (2809, 2809); (2821, 2828); (2831, 2832); (2835, 2856); (2858, 2864);
   (2866, 2867); (2869, 2873); (2877, 2877); (2908, 2909); (2911, 2913);
   (2929, 2929); (2947, 2947); (2949, 2954); (2958, 2960); (2962, 2965);
   (2969, 2970); (2972, 2972); (2974, 2975); (2979, 2980); (2984, 2986);
   (2990, 3001); (3024, 3024); (3077, 3084); (3086, 3088); (3090, 3112);
   (3114, 3129); (3133, 3133); (3160, 3162); (3165, 3165); (3168, 3169);
   (3200, 3200); (3205, 3212); (3214, 3216); (3218, 3240); (3242, 3251);
   (3253, 3257); (3261, 3261); (3293, 3294); (3296, 3297); (3313, 3314);
   (3332, 3340); (3342, 3344); (3346, 3386); (3389, 3389); (3406, 3406);
   (3412, 3414); (3423, 3425); (3450, 3455); (3461, 3478); (3482, 3505);
   (3507, 3515); (3517, 3517); (3520, 3526); (3585, 3632); (3634, 3635);
   (3648, 3654); (3713, 3714); (3716, 3716); (3718, 3722); (3724, 3747);
   (3749, 3749); (3751, 3760); (3762, 3763); (3773, 3773); (3776, 3780);
   (3782, 3782); (3804, 3807); (3840, 3840); (3904, 3911); (3913, 3948);
   (3976, 3980); (4096, 4138); (4159, 4159); (4176, 4181); (4186, 4189);
   (4193, 4193); (4197, 4198); (4206, 4208); (4213, 4225); (4238, 4238);
   (4256, 4293); (4295, 4295); (4301, 4301); (4304, 4346); (4348, 4680);
   (4682, 4685); (4688, 4694); (4696, 4696); (4698, 4701); (4704, 4744);
   (4746, 4749); (4752, 4784); (4786, 4789); (4792, 4798); (4800, 4800);
   (4802, 4805); (4808, 4822); (4824, 4880); (4882, 4885); (4888, 4954);
   (4992, 5007); (5024, 5109); (5112, 5117); (5121, 5740); (5743, 5759);
   (5761, 5786); (5792, 5866); (5873, 5880); (5888, 5905); (5919, 5937);
   (5952, 5969); (5984, 5996); (5998, 6000); (6016, 6067); (6103, 6103);
   (6108, 6108); (6176, 6264); (6272, 6276); (6279, 6312); (6314, 6314);
   (6320, 6389); (6400, 6430); (6480, 6509); (6512, 6516); (6528, 6571);
   (6576, 6601); (6656, 6678); (6688, 6740); (6823, 6823); (6917, 6963);
   (6981, 6988); (7043, 7072); (7086, 7087); (7098, 7141); (7168, 7203);
   (7245, 7247); (7258, 7293); (7296, 7304); (7312, 7354); (7357, 7359);
   (7401, 7404); (7406, 7411); (7413, 7414); (7418, 7418); (7424, 7615);
   (7680, 7957); (7960, 7965); (7968, 8005); (8008, 8013); (8016, 8023);
   (8025, 8025); (8027, 8027); (8029, 8029); (8031, 8061); (8064, 8116);
   (8118, 8124); (8126, 8126); (8130, 8132); (8134, 8140); (8144, 8147);
   (8150, 8155); (8160, 8172); (8178, 8180); (8182, 8188); (8305, 8305);
   (8319, 8319); (8336, 8348); (8450, 8450); (8455, 8455); (8458, 8467);
   (8469, 8469); (8473, 8477); (8484, 8484); (8486, 8486); (8488, 8488);
   (8490, 8493); (8495, 8505); (8508, 8511); (8517, 8521); (8526, 8526);
   (8579, 8580); (11264, 11492); (11499, 11502); (11506, 11507);
   (11520, 11557); (11559, 11559); (11565, 11565); (11568, 11623);
   (11631, 11631); (11648, 11670); (11680, 11686); (11688, 11694);
   (11696, 11702); (11704, 11710); (11712, 11718); (11720, 11726);
   (11728, 11734); (11736, 11742); (11823, 11823); (12293, 12294);
   (12337, 12341); (12347, 12348); (12353, 12438); (12445, 12447);
   (12449, 12538); (12540, 12543); (12549, 12591); (12593, 12686);
   (12704, 12735); (12784, 12799); (13312, 19903); (19968, 42124);
   (42192, 42237); (42240, 42508); (42512, 42527); (42538, 42539);
   (42560, 42606); (42623, 42653); (42656, 42725); (42775, 42783);
   (42786, 42888); (42891, 42954); (42960, 42961); (42963, 42963);
   (42965, 42969); (42994, 43009); (43011, 43013); (43015, 43018);
   (43020, 43042); (43072, 43123); (43138, 43187); (43250, 43255);
   (43259, 43259); (43261, 43262); (43274, 43301); (43312, 43334);
   (43360, 43388); (43396, 43442); (43471, 43471); (43488, 43492);
   (43494, 43503); (43514, 43518); (43520, 43560); (43584, 43586);
   (43588, 43595); (43616, 43638); (43642, 43642); (43646, 43695);
   (43697, 43697); (43701, 43702); (43705, 43709); (43712, 43712);
   (43714, 43714); (43739, 43741); (43744, 43754); (43762, 43764);
   (43777, 43782); (43785, 43790); (43793, 43798); (43808, 43814);
   (43816, 43822); (43824, 43866); (43868, 43881); (43888, 44002);
   (44032, 55203); (55216, 55238); (55243, 55291); (63744, 64109);
   (64112, 64217); (64256, 64262); (64275, 64279); (64285, 64285);
   (64287, 64296); (64298, 64310); (64312, 64316); (64318, 64318);
   (64320, 64321); (64323, 64324); (64326, 64433); (64467, 64829);
   (64848, 64911); (64914, 64967); (65008, 65019); (65136, 65140);
   (65142, 65276); (65313, 65338); (65345, 65370); (65382, 65470);
   (65474, 65479); (65482, 65487); (65490, 65495); (65498, 65500);
   (65536, 65547); (65549, 65574); (65576, 65594); (65596, 65597);
   (65599, 65613); (65616, 65629); (65664, 65786); (66176, 66204);
   (66208, 66256); (66304, 66335); (66349, 66368); (66370, 66377);
   (66384, 66421); (66432, 66461); (66464, 66499); (66504, 66511);
   (66560, 66717); (66736, 66771); (66776, 66811); (66816, 66855);
   (66864, 66915); (66928, 66938); (66940, 66954); (66956, 66962);
   (66964, 66965); (66967, 66977); (66979, 66993); (66995, 67001);
   (67003, 67004); (67072, 67382); (67392, 67413); (67424, 67431);
   (67456, 67461); (67463, 67504); (67506, 67514); (67584, 67589);
   (67592, 67592); (67594, 67637); (67639, 67640); (67644, 67644);
   (67647, 67669); (67680, 67702); (67712, 67742); (67808, 67826);
   (67828, 67829); (67840, 67861); (67872, 67897); (67968, 68023);
   (68030, 68031); (68096, 68096); (68112, 68115); (68117, 68119);
   (68121, 68149); (68192, 68220); (68224, 68252); (68288, 68295);
   (68297, 68324); (68352, 68405); (68416, 68437); (68448, 68466);
   (68480, 68497); (68608, 68680); (68736, 68786); (68800, 68850);
   (68864, 68899); (69248, 69289); (69296, 69297); (69376, 69404);
   (69415, 69415); (69424, 69445); (69488, 69505); (69552, 69572);
   (69600, 69622); (69635, 69687); (69745, 69746); (69749, 69749);
   (69763, 69807); (69840, 69864); (69891, 69926); (69956, 69956);
   (69959, 69959); (69968, 70002); (70006, 70006); (70019, 70066);
   (70081, 70084); (70106, 70106); (70108, 70108); (70144, 70161);
   (70163, 70187); (70272, 70278); (70280, 70280); (70282, 70285);
   (70287, 70301); (70303, 70312); (70320, 70366); (70405, 70412);
   (70415, 70416); (70419, 70440); (70442, 70448); (70450, 70451);
   (70453, 70457); (70461, 70461); (70480, 70480); (70493, 70497);
   (70656, 70708); (70727, 70730); (70751, 70753); (70784, 70831);
   (70852, 70853); (70855, 70855); (71040, 71086); (71128, 71131);
   (71168, 71215); (71236, 71236); (71296, 71338); (71352, 71352);
   (71424, 71450); (71488, 71494); (71680, 71723); (71840, 71903);
   (71935, 71942); (71945, 71945); (71948, 71955); (71957, 71958);
   (71960, 71983); (71999, 71999); (72001, 72001); (72096, 72103);
   (72106, 72144); (72161, 72161); (72163, 72163); (72192, 72192);
   (72203, 72242); (72250, 72250); (72272, 72272); (72284, 72329);
   (72349, 72349); (72368, 72440); (72704, 72712); (72714, 72750);
   (72768, 72768); (72818, 72847); (72960, 72966); (72968, 72969);
   (72971, 73008); (73030, 73030); (73056, 73061); (73063, 73064);
   (73066, 73097); (73112, 73112); (73440, 73458); (73648, 73648);
   (73728, 74649); (74880, 75075); (77712, 77808); (77824, 78894);
   (82944, 83526); (92160, 92728); (92736, 92766); (92784, 92862);
   (92880, 92909); (92928, 92975); (92992, 92995); (93027, 93047);
   (93053, 93071); (93760, 93823); (93952, 94026); (94032, 94032);
   (94099, 94111); (94176, 94177); (94179, 94179); (94208, 100343);
   (100352, 101589); (101632, 101640); (110576, 110579); (110581, 110587);
   (110589, 110590); (110592, 110882); (110928, 110930); (110948, 110951);
   (110960, 111355); (113664, 113770); (113776, 113788); (113792, 113800);
   (113808, 113817); (119808, 119892); (119894, 119964); (119966, 119967);
   (119970, 119970); (119973, 119974); (119977, 119980); (119982, 119993);
   (119995, 119995); (119997, 120003); (120005, 120069); (120071, 120074);
   (120077, 120084); (120086, 120092); (120094, 120121); (120123, 120126);
   (120128, 120132); (120134, 120134); (120138, 120144); (120146, 120485);
   (120488, 120512); (120514, 120538); (120540, 120570); (120572, 120596);
   (120598, 120628); (120630, 120654); (120656, 120686); (120688, 120712);
   (120714, 120744); (120746, 120770); (120772, 120779); (122624, 122654);
   (123136, 123180); (123191, 123197); (123214, 123214); (123536, 123565);
   (123584, 123627); (124896, 124902); (124904, 124907); (124909, 124910);
   (124912, 124926); (124928, 125124); (125184, 125251); (125259, 125259);
   (126464, 126467); (126469, 126495); (126497, 126498); (126500, 126500);
   (126503, 126503); (126505, 126514); (126516, 126519); (126521, 126521);
   (126523, 126523); (126530, 126530); (126535, 126535); (126537, 126537);
   (126539, 126539); (126541, 126543); (126545, 126546); (126548, 126548);
   (126551, 126551); (126553, 126553); (126555, 126555); (126557, 126557);
   (126559, 126559); (126561, 126562); (126564, 126564); (126567, 126570);
   (126572, 126578); (126580, 126583); (126585, 126588); (126590, 126590);
   (126592, 126601); (126603, 126619); (126625, 126627); (126629, 126633);
   (126635, 126651); (131072, 173791); (173824, 177976); (177984, 178205);
   (178208, 183969); (183984, 191456); (194560, 195101); (196608, 201546)]%N.

Definition unicode_N : list (N * N) :=
  [(48, 57); (178, 179); (185, 185); (188, 190); (1632, 1641);
   (1776, 1785); (1984, 1993); (2406, 2415); (2534, 2543); (2548, 2553);
   (2662, 2671); (2790, 2799); (2918, 2927); (2930, 2935); (3046, 3058);
   (3174, 3183); (3192, 3198); (3302, 3311); (3416, 3422); (3430, 3448);
   (3558, 3567); (3664, 3673); (3792, 3801); (3872, 3891); (4160, 4169);
   (4240, 4249); (4969, 4988); (5870, 5872); (6112, 6121); (6128, 6137);
   (6160, 6169); (6470, 6479); (6608, 6618); (6784, 6793); (6800, 6809);
   (6992, 7001); (7088, 7097); (7232, 7241); (7248, 7257); (8304, 8304);
   (8308, 8313); (8320, 8329); (8528, 8578); (8581, 8585); (9312, 9371);
   (9450, 9471); (10102, 10131); (11517, 11517); (12295, 12295);
   (12321, 12329); (12344, 12346); (12690, 12693); (12832, 12841);
   (12872, 12879); (12881, 12895); (12928, 12937); (12977, 12991);
   (42528, 42537); (42726, 42735); (43056, 43061); (43216, 43225);
   (43264, 43273); (43472, 43481); (43504, 43513); (43600, 43609);
   (44016, 44025); (65296, 65305); (65799, 65843); (65856, 65912);
   (65930, 65931); (66273, 66299); (66336, 66339); (66369, 66369);
   (66378, 66378); (66513, 66517); (66720, 66729); (67672, 67679);
   (67705, 67711); (67751, 67759); (67835, 67839); (67862, 67867);
   (68028, 68029); (68032, 68047); (68050, 68095); (68160, 68168);
   (68221, 68222); (68253, 68255); (68331, 68335); (68440, 68447);
   (68472, 68479); (68521, 68527); (68858, 68863); (68912, 68921);
   (69216, 69246); (69405, 69414); (69457, 69460); (69573, 69579);
   (69714, 69743); (69872, 69881); (69942, 69951); (70096, 70105);
   (70113, 70132); (70384, 70393); (70736, 70745); (70864, 70873);
   (71248, 71257); (71360, 71369); (71472, 71483); (71904, 71922);
   (72016, 72025); (72784, 72812); (73040, 73049); (73120, 73129);
   (73664, 73684); (74752, 74862); (92768, 92777); (92864, 92873);
   (93008, 93017); (93019, 93025); (93824, 93846); (119520, 119539);
   (119648, 119672); (120782, 120831); (123200, 123209); (123632, 123641);
   (125127, 125135); (125264, 125273); (126065, 126123); (126125, 126127);
   (126129, 126132); (126209, 126253); (126255, 126269); (127232, 127244);
   (130032, 130041)]%N.

Definition unicode_Nd : list (N * N) :=
  [(48, 57); (1632, 1641); (1776, 1785); (1984, 1993); (2406, 2415);
   (2534, 2543); (2662, 2671); (2790, 2799); (2918, 2927); (3046, 3055);
   (3174, 3183); (3302, 3311); (3430, 3439); (3558, 3567); (3664, 3673);
   (3792, 3801); (3872, 3881); (4160, 4169); (4240, 4249); (6112, 6121);
   (6160, 6169); (6470, 6479); (6608, 6617); (6784, 6793); (6800, 6809);
   (6992, 7001); (7088, 7097); (7232, 7241); (7248, 7257); (42528, 42537);
   (43216, 43225); (43264, 43273); (43472, 43481); (43504, 43513);
   (43600, 43609); (44016, 44025); (65296, 65305); (66720, 66729);
   (68912, 68921); (69734, 69743); (69872, 69881); (69942, 69951);
   (70096, 70105); (70384, 70393); (70736, 70745); (70864, 70873);
   (71248, 71257); (71360, 71369); (71472, 71481); (71904, 71913);
   (72016, 72025); (72784, 72793); (73040, 73049); (73120, 73129);
   (92768, 92777); (92864, 92873); (93008, 93017); (120782, 120831);
   (123200, 123209); (123632, 123641); (125264, 125273); (130032, 130041)]%N.

Definition unicode_lowerRuns : list (N * N * N * Z) :=
  [(65, 90, 1, 32%Z); (192, 214, 1, 32%Z); (216, 222, 1, 32%Z);
   (256, 302, 2, 1%Z); (306, 310, 2, 1%Z); (313, 327, 2, 1%Z);
   (330, 374, 2, 1%Z); (376, 376, 1, (-121)%Z); (377, 381, 2, 1%Z);
   (385, 385, 1, 210%Z); (386, 388, 2, 1%Z); (390, 390, 1, 206%Z);
   (391, 391, 1, 1%Z); (393, 394, 1, 205%Z); (395, 395, 1, 1%Z);
   (398, 398, 1, 79%Z); (399, 399, 1, 202%Z); (400, 400, 1, 203%Z);
   (401, 401, 1, 1%Z); (403, 403, 1, 205%Z); (404, 404, 1, 207%Z);
   (406, 406, 1, 211%Z); (407, 407, 1, 209%Z); (408, 408, 1, 1%Z);
   (412, 412, 1, 211%Z); (413, 413, 1, 213%Z); (415, 415, 1, 214%Z);
   (416, 420, 2, 1%Z); (422, 422, 1, 218%Z); (423, 423, 1, 1%Z);
   (425, 425, 1, 218%Z); (428, 428, 1, 1%Z); (430, 430, 1, 218%Z);
   (431, 431, 1, 1%Z); (433, 434, 1, 217%Z); (435, 437, 2, 1%Z);
   (439, 439, 1, 219%Z); (440, 440, 1, 1%Z); (444, 444, 1, 1%Z);
   (452, 452, 1, 2%Z); (453, 453, 1, 1%Z); (455, 455, 1, 2%Z);
   (456, 456, 1, 1%Z); (458, 458, 1, 2%Z); (459, 475, 2, 1%Z);
   (478, 494, 2, 1%Z); (497, 497, 1, 2%Z); (498, 500, 2, 1%Z);
   (502, 502, 1, (-97)%Z); (503, 503, 1, (-56)%Z); (504, 542, 2, 1%Z);
   (544, 544, 1, (-130)%Z); (546, 562, 2, 1%Z); (570, 570, 1, 10795%Z);
   (571, 571, 1, 1%Z); (573, 573, 1, (-163)%Z); (574, 574, 1, 10792%Z);
   (577, 577, 1, 1%Z); (579, 579, 1, (-195)%Z); (580, 580, 1, 69%Z);
   (581, 581, 1, 71%Z); (582, 590, 2, 1%Z); (880, 882, 2, 1%Z);
   (886, 886, 1, 1%Z); (895, 895, 1, 116%Z); (902, 902, 1, 38%Z);
   (904, 906, 1, 37%Z); (908, 908, 1, 64%Z); (910, 911, 1, 63%Z);
   (913, 929, 1, 32%Z); (931, 939, 1, 32%Z); (975, 975, 1, 8%Z);
   (984, 1006, 2, 1%Z); (1012, 1012, 1, (-60)%Z); (1015, 1015, 1, 1%Z);
   (1017, 1017, 1, (-7)%Z); (1018, 1018, 1, 1%Z); (1021, 1023, 1, (-130)%Z);
   (1024, 1039, 1, 80%Z); (1040, 1071, 1, 32%Z); (1120, 1152, 2, 1%Z);
   (1162, 1214, 2, 1%Z); (1216, 1216, 1, 15%Z); (1217, 1229, 2, 1%Z);
   (1232, 1326, 2, 1%Z); (1329, 1366, 1, 48%Z); (4256, 4293, 1, 7264%Z);
   (4295, 4295, 1, 7264%Z); (4301, 4301, 1, 7264%Z);
   (5024, 5103, 1, 38864%Z); (5104, 5109, 1, 8%Z);
   (7312, 7354, 1, (-3008)%Z); (7357, 7359, 1, (-3008)%Z);
   (7680, 7828, 2, 1%Z); (7838, 7838, 1, (-7615)%Z); (7840, 7934, 2, 1%Z);
   (7944, 7951, 1, (-8)%Z); (7960, 7965, 1, (-8)%Z); (7976, 7983, 1, (-8)%Z);
   (7992, 7999, 1, (-8)%Z); (8008, 8013, 1, (-8)%Z); (8025, 8031, 2, (-8)%Z);
   (8040, 8047, 1, (-8)%Z); (8072, 8079, 1, (-8)%Z); (8088, 8095, 1, (-8)%Z);
   (8104, 8111, 1, (-8)%Z); (8120, 8121, 1, (-8)%Z); (8122, 8123, 1, (-74)%Z);
   (8124, 8124, 1, (-9)%Z); (8136, 8139, 1, (-86)%Z); (8140, 8140, 1, (-9)%Z);
   (8152, 8153, 1, (-8)%Z); (8154, 8155, 1, (-100)%Z); (8168, 8169, 1, (-8)%Z);
   (8170, 8171, 1, (-112)%Z); (8172, 8172, 1, (-7)%Z); (8184, 8185, 1, (-128)%Z);
   (8186, 8187, 1, (-126)%Z); (8188, 8188, 1, (-9)%Z);
   (8486, 8486, 1, (-7517)%Z); (8490, 8490, 1, (-8383)%Z);
   (8491, 8491, 1, (-8262)%Z); (8498, 8498, 1, 28%Z); (8544, 8559, 1, 16%Z);
   (8579, 8579, 1, 1%Z); (9398, 9423, 1, 26%Z); (11264, 11311, 1, 48%Z);
   (11360, 11360, 1, 1%Z); (11362, 11362, 1, (-10743)%Z);
   (11363, 11363, 1, (-3814)%Z); (11364, 11364, 1, (-10727)%Z);
   (11367, 11371, 2, 1%Z); (11373, 11373, 1, (-10780)%Z);
   (11374, 11374, 1, (-10749)%Z); (11375, 11375, 1, (-10783)%Z);
   (11376, 11376, 1, (-10782)%Z); (11378, 11378, 1, 1%Z);
   (11381, 11381, 1, 1%Z); (11390, 11391, 1, (-10815)%Z);
   (11392, 11490, 2, 1%Z); (11499, 11501, 2, 1%Z); (11506, 11506, 1, 1%Z);
   (42560, 42604, 2, 1%Z); (42624, 42650, 2, 1%Z); (42786, 42798, 2, 1%Z);
   (42802, 42862, 2, 1%Z); (42873, 42875, 2, 1%Z);
   (42877, 42877, 1, (-35332)%Z); (42878, 42886, 2, 1%Z);
   (42891, 42891, 1, 1%Z); (42893, 42893, 1, (-42280)%Z);
   (42896, 42898, 2, 1%Z); (42902, 42920, 2, 1%Z);
   (42922, 42922, 1, (-42308)%Z); (42923, 42923, 1, (-42319)%Z);
   (42924, 42924, 1, (-42315)%Z); (42925, 42925, 1, (-42305)%Z);
   (42926, 42926, 1, (-42308)%Z); (42928, 42928, 1, (-42258)%Z);
   (42929, 42929, 1, (-42282)%Z); (42930, 42930, 1, (-42261)%Z);
   (42931, 42931, 1, 928%Z); (42932, 42946, 2, 1%Z);
   (42948, 42948, 1, (-48)%Z); (42949, 42949, 1, (-42307)%Z);
   (42950, 42950, 1, (-35384)%Z); (42951, 42953, 2, 1%Z);
   (42960, 42960, 1, 1%Z); (42966, 42968, 2, 1%Z); (42997, 42997, 1, 1%Z);
   (65313, 65338, 1, 32%Z); (66560, 66599, 1, 40%Z);
   (66736, 66771, 1, 40%Z); (66928, 66938, 1, 39%Z);
   (66940, 66954, 1, 39%Z); (66956, 66962, 1, 39%Z);
   (66964, 66965, 1, 39%Z); (68736, 68786, 1, 64%Z);
   (71840, 71871, 1, 32%Z); (93760, 93791, 1, 32%Z);
   (125184, 125217, 1, 34%Z)]%N.

(** A table of ranges of code points, both ends included. *)
Definition inRanges (table : list (N * N)) (c : codepoint) : bool :=
  existsb (fun r => (fst r <=? c) && (c <=? snd r))%N table.

(** The general categories L (letters), N (numbers) and Nd (decimal
    digits). *)
Definition unicode_isLetter (c : codepoint) : bool := inRanges unicode_L c.
Definition unicode_isNumber (c : codepoint) : bool := inRanges unicode_N c.
Definition unicode_isDecimalDigit (c : codepoint) : bool :=
  inRanges unicode_Nd c.

(** A run [(lo, hi, stride, delta)] of the lowercase mapping: every
    [stride]-th code point from [lo] to [hi] maps to itself plus
    [delta]. *)
Definition inRun (c : codepoint) (run : N * N * N * Z) : bool :=
  let '(lo, hi, stride, _) := run in
  ((lo <=? c) && (c <=? hi) && ((c - lo) mod stride =? 0))%N.

(** The lowercase mapping of one character: one code point, but for the
    capital I with a dot above (U+0130), which becomes an i and a
    combining dot. *)
Definition unicode_lower (c : codepoint) : jsstring :=
  if (c =? 304)%N then [105; 775]%N
  else match find (inRun c) unicode_lowerRuns with
       | Some (_, _, _, delta) => [Z.to_N (Z.of_N c + delta)]
       | None => [c]
       end.

(** What [toLowerCase] may do to one character: the mapping of the
    tables, but a capital sigma (U+03A3) at the end of a word becomes a
    final sigma (U+03C2) and not a sigma (U+03C3). *)
Definition lowersTo (c : codepoint) (image : jsstring) : Prop :=
  image = unicode_lower c \/ (c = 931%N /\ image = [962%N]).

(** [toLowerCase] maps a string character by character. *)
Definition unicodeLowering (toLowerCase : jsstring -> jsstring) : Prop :=
  forall s, exists images,
    Forall2 lowersTo s images /\ toLowerCase s = concat images.

(** A runtime with the tables of Unicode. *)
Definition unicodeRuntime (toLowerCase : jsstring -> jsstring)
    (isLetter isNumber : codepoint -> bool) : Prop :=
  unicodeLowering toLowerCase /\
  (forall c, isLetter c = unicode_isLetter c) /\
  (forall c, isNumber c = unicode_isNumber c).

(** The lowering by the tables alone: every capital sigma becomes a
    sigma. *)
Definition tableLowerCase (s : jsstring) : jsstring :=
  flat_map unicode_lower s.

(* ================================================================== *)
(** ** JavaScript numbers *)
(* ================================================================== *)

(** *** Binary64 rounding *)

Definition pow2 (e : Z) : Q := 2 ^ e.

(** The binary exponent of a positive number: [2^e <= x < 2^(e+1)]. *)
Definition Qlog2 (x : Q) : Z :=
  let a := (Z.log2 (Qnum x) - Z.log2 (Zpos (Qden x)))%Z in
  if Qle_bool (pow2 a) x then a else (a - 1)%Z.

(** The nearest integer, a tie going to the even one. *)
Definition roundHalfEven (y : Q) : Z :=
  let f := Qfloor y in
  match Qcompare (y - inject_Z f) (1 # 2) with
  | Lt => f
  | Gt => (f + 1)%Z
  | Eq => if Z.even f then f else (f + 1)%Z
  end.

(** The exponent of the last of the 53 bits of the numbers around [x];
    the subnormal numbers share the exponent -1074. *)
Definition quantum (x : Q) : Z := Z.max (Qlog2 x - 52) (-1074).

Definition roundPos (x : Q) : Q :=
  inject_Z (roundHalfEven (x / pow2 (quantum x))) * pow2 (quantum x).

(** The binary64 number nearest to [x], ties to even.  Every number the
    serializers compute is far below the overflow threshold. *)
Definition round64 (x : Q) : Q :=
  match Qcompare x 0 with
  | Eq => 0
  | Gt => roundPos x
  | Lt => - roundPos (- x)
  end.

(** [x] is a binary64 number: rounding leaves it alone. *)
Definition isBinary64 (x : Q) : Prop := (round64 x == x)%Q.

(** A multiple of the quantum of [x]. *)
Definition onGrid (x r : Q) : Prop :=
  exists j, (r == inject_Z j * pow2 (quantum x))%Q.

(** The number a decimal literal [n / d] denotes. *)
Definition num (n : Z) (d : positive) : Q := round64 (n # d).

(** [a / b], [a * b] and [a - b] *)
Definition div64 (a b : Q) : Q := round64 (a / b).
Definition mul64 (a b : Q) : Q := round64 (a * b).
Definition sub64 (a b : Q) : Q := round64 (a - b).

(** *** The functions of [Math] and the remainder *)

(** [Math.floor] of a finite number. *)
Definition Math_floor (x : Q) : Z := Qfloor x.

(** Truncation towards zero, the quotient that [%] uses. *)
Definition Qtrunc (x : Q) : Z := Z.quot (Qnum x) (Zpos (Qden x)).

(** [a % b]: the remainder takes the sign of the dividend, and is exact:
    the remainder of two binary64 numbers is a binary64 number. *)
Definition js_rem (a b : Q) : Q := a - b * inject_Z (Qtrunc (a / b)).

(** [a > b] *)
Definition Qgtb (a b : Q) : bool := negb (Qle_bool a b).

(** *** [Number.prototype.toString] on whole numbers *)

(** Decimal digits of a non-negative integer, most significant first. *)
Fixpoint digits (fuel : nat) (n : Z) (acc : jsstring) : jsstring :=
  match fuel with
  | O => acc
  | S f =>
      let acc' := Z.to_N (48 + n mod 10) :: acc in
      if (n <? 10)%Z then acc' else digits f (n / 10) acc'
  end.

(** All the decimal digits of a non-negative integer. *)
Definition decimal (n : Z) : jsstring :=
  digits (S (Z.to_nat (Z.log2 n))) n [].

(** The decimal [s * 10^e] reads back as the binary64 number [n]. *)
Definition readsBack (n s e : Z) : bool :=
  Qeq_bool (round64 (inject_Z (s * 10 ^ e))) (inject_Z n).

(** The shortest digit string [s], with its exponent [e], that reads back
    as the [D]-digit number [n]: [k] digits are tried before [k + 1]; of
    two candidates the one nearer to [n] wins, the even one when they are
    as near. *)
Fixpoint shortest (fuel : nat) (n D k : Z) : Z * Z :=
  match fuel with
  | O => (n, 0%Z)
  | S f =>
      let e := (D - k)%Z in
      let s0 := (n / 10 ^ e)%Z in
      let ok := fun s =>
        ((10 ^ (k - 1) <=? s)%Z && (s <=? 10 ^ k)%Z && readsBack n s e)%bool in
      match ok s0, ok (s0 + 1)%Z with
      | true, false => (s0, e)
      | false, true => ((s0 + 1)%Z, e)
      | true, true =>
          let below := (n - s0 * 10 ^ e)%Z in
          let above := ((s0 + 1) * 10 ^ e - n)%Z in
          if (below <? above)%Z then (s0, e)
          else if (above <? below)%Z then ((s0 + 1)%Z, e)
          else if Z.even s0 then (s0, e) else ((s0 + 1)%Z, e)
      | false, false => shortest f n D (k + 1)
      end
  end.

(** A digit string without its final zeros. *)
Fixpoint stripZeros (s : jsstring) : jsstring :=
  match s with
  | [] => []
  | c :: r =>
      match stripZeros r with
      | [] => if (c =? 48)%N then [] else [c]
      | r' => c :: r'
      end
  end.

(** The rule of [Number::toString] for a positive whole number: the
    shortest digits, followed by zeros up to 21 digits in all, and in
    exponent notation beyond. *)
Definition shortestForm (n : Z) : jsstring :=
  let D := Z.of_nat (length (decimal n)) in
  let (s, e) := shortest (Nat.min 17 (Z.to_nat D)) n D 1 in
  let ds := decimal s in
  let N := (Z.of_nat (length ds) + e)%Z in
  if (N <=? 21)%Z then ds ++ repeat 48%N (Z.to_nat e)
  else
    match stripZeros ds with
    | [] => []
    | d :: rest =>
        d :: match rest with [] => [] | _ :: _ => 46%N :: rest end ++
        [101%N; 43%N] ++ decimal (N - 1)
    end.

(** Zero is written ["0"]. *)
Definition Z_toString_nonneg (n : Z) : jsstring :=
  if (n =? 0)%Z then [48%N] else shortestForm n.

(** [n.toString()] for an integer-valued number. *)
Definition Z_toString (n : Z) : jsstring :=
  if (n <? 0)%Z then 45%N :: Z_toString_nonneg (- n) else Z_toString_nonneg n.

(* ================================================================== *)
(** ** The serializers' time formats *)
(* ================================================================== *)

(** [formatLrcTime]: seconds to [[mm:ss.xx]]. *)
Definition formatLrcTime (seconds : Q) : jsstring :=
  let mins := Math_floor (div64 seconds 60) in
  let secs := Math_floor (js_rem seconds 60) in
  let ms := Math_floor (mul64 (js_rem seconds 1) 100) in
  js "[" ++ padStart0 2 (Z_toString mins) ++ js ":" ++
  padStart0 2 (Z_toString secs) ++ js "." ++
  padStart0 2 (Z_toString ms) ++ js "]".

(** [formatSrtTime]: seconds to [HH:MM:SS,mmm]. *)
Definition formatSrtTime (seconds : Q) : jsstring :=
  let hrs := Math_floor (div64 seconds 3600) in
  let mins := Math_floor (div64 (js_rem seconds 3600) 60) in
  let secs := Math_floor (js_rem seconds 60) in
  let ms := Math_floor (mul64 (js_rem seconds 1) 1000) in
  padStart0 2 (Z_toString hrs) ++ js ":" ++
  padStart0 2 (Z_toString mins) ++ js ":" ++
  padStart0 2 (Z_toString secs) ++ js "," ++
  padStart0 3 (Z_toString ms).

(* ================================================================== *)
(** ** The data model of [types.ts] *)
(* ================================================================== *)

Record SunoWord : Type := mkWord {
  word : jsstring;
  start : Q;
  end_ : Q;
  score : option Q
}.

Record AlignedLine : Type := mkLine {
  text : jsstring;
  startTime : Q;
  endTime : Q;
  words : list SunoWord
}.

(** [generateLRC] *)
Definition generateLRC (lines : list AlignedLine) : jsstring :=
  join (js (String "010" EmptyString))
       (map (fun line => formatLrcTime (startTime line) ++ text line) lines).

(** [lines.map((line, index) => f line index)] *)
Fixpoint mapi_from (A B : Type) (f : A -> nat -> B) (index : nat) (xs : list A)
  : list B :=
  match xs with
  | [] => []
  | x :: r => f x index :: mapi_from f (S index) r
  end.

Definition srtBlock (line : AlignedLine) (index : nat) : jsstring :=
  Z_toString (Z.of_nat (index + 1)) ++ [10%N] ++
  formatSrtTime (startTime line) ++ js " --> " ++
  formatSrtTime (endTime line) ++ [10%N] ++
  text line ++ [10%N].

(** [generateSRT] *)
Definition generateSRT (lines : list AlignedLine) : jsstring :=
  join [10%N] (mapi_from srtBlock 0 lines).

(* ================================================================== *)
(** ** The error monad of the aligner *)
(* ================================================================== *)

Inductive result (A : Type) : Type :=
| Ok (a : A)
| TypeError.
Arguments TypeError {A}.

Definition bind (A B : Type) (c : result A) (k : A -> result B) : result B :=
  match c with
  | Ok a => k a
  | TypeError => TypeError
  end.

Notation "x <- c ;; k" := (bind c (fun x => k))
  (at level 61, c at next level, right associativity).

(** [xs[i]] followed by a property read: a [TypeError] out of range. *)
Definition read (A : Type) (xs : list A) (i : nat) : result A :=
  match nth_error xs i with
  | Some x => Ok x
  | None => TypeError
  end.

(** The ASCII instance of the runtime's case mapping. *)
Definition ascii_toLowerCase (s : jsstring) : jsstring := map ascii_lower s.

(* ================================================================== *)
(** ** The inputs the specification names *)
(* ================================================================== *)

Definition mkW (w : string) (s e : Q) : SunoWord := mkWord (js w) s e None.

Definition lf : string := String "010" EmptyString.

Definition words_fallback : list SunoWord :=
  [mkW "completely" 0 1; mkW "unmatched" 1 2; mkW "word" 2 3].


Definition words_hello : list SunoWord :=
  [mkW "Hello" 0 (1 # 2); mkW "world" (1 # 2) 1].

Definition text_chorus : jsstring := js ("[Chorus]" ++ lf ++ "Hello world").

Definition text_two_lines : jsstring := js ("Hello" ++ lf ++ "world").

Definition words_two_lines : list SunoWord :=
  [mkW "Hello" 0 (1 # 2); mkW "world" 1 (3 # 2)].

(** Words outside ASCII, as code points: Cyrillic with a comma and an
    exclamation mark, Japanese with an ideographic comma and a fullwidth
    exclamation mark, French with accents, a numero sign and the
    fraction one half, and the Greek word for street in capitals. *)
Definition text_cyrillic : jsstring :=
  [1055; 1088; 1080; 1074; 1077; 1090; 44; 32; 1052; 1080; 1088; 33]%N.

Definition text_japanese : jsstring :=
  [12371; 12435; 12395; 12385; 12399; 12289; 19990; 30028; 65281]%N.

Definition text_french : jsstring :=
  [201; 116; 233; 32; 50; 48; 50; 52; 32; 8470; 53; 32; 189]%N.

Definition text_greek : jsstring := [927; 916; 927; 931]%N.

(** The fraction one half (U+00BD), the Roman numeral eight (U+2167),
    the Arabic-Indic digit three (U+0663) and the capital I with a dot
    above (U+0130). *)
Definition cp_one_half : codepoint := 189%N.
Definition cp_roman_eight : codepoint := 8551%N.
Definition cp_arabic_three : codepoint := 1635%N.
Definition cp_dotted_I : codepoint := 304%N.


(** A line inside the second minute. *)
Definition line_65 : AlignedLine := mkLine (js "la") (num 65256 1000) 70 [].

(** 65.256 and 3661.0005 seconds. *)
Definition t_65_256 : Q := num 65256 1000.

(** 0.35 and 0.009 seconds: the binary64 numbers lie just below the
    decimals. *)
Definition t_0_35 : Q := num 35 100.
Definition t_0_009 : Q := num 9 1000.

(** 59.995 and 59.999 seconds. *)
Definition t_59_995 : Q := num 59995 1000.
Definition t_59_999 : Q := num 59999 1000.

(* ================================================================== *)
(** ** The formats as the specification words them *)
(* ================================================================== *)

(** A field of exactly two, or three, decimal digits. *)
Definition twoDigits (d : Z) : jsstring :=
  [Z.to_N (48 + d / 10); Z.to_N (48 + d mod 10)].

Definition threeDigits (d : Z) : jsstring :=
  [Z.to_N (48 + d / 100); Z.to_N (48 + (d / 10) mod 10); Z.to_N (48 + d mod 10)].

(** A count padded to two digits and never wrapped: longer when it is
    100 or more. *)
Definition zeroPad2 (n : Z) : jsstring :=
  if (n <? 10)%Z then 48%N :: Z_toString n else Z_toString n.

(** The part of a time after its whole seconds, and that part in
    hundredths and in thousandths, truncated. *)
Definition fraction (seconds : Q) : Q := seconds - inject_Z (Qfloor seconds).



(** [[mm:ss.xx]]: minutes padded to two digits, seconds and hundredths
    on two digits each. *)
Definition lrcStamp (mm ss xx : Z) : jsstring :=
  js "[" ++ zeroPad2 mm ++ js ":" ++ twoDigits ss ++ js "." ++
  twoDigits xx ++ js "]".






Definition isDigit (c : codepoint) : bool := ((48 <=? c) && (c <=? 57))%N.

(** Lowercase ASCII letters and digits. *)
Definition isLowerAlnum (c : codepoint) : bool :=
  ((97 <=? c) && (c <=? 122) || (48 <=? c) && (c <=? 57))%N.

(** The padded fields of [k] agree with the fixed-width ones: checked by
    evaluation over the range of a field. *)
Definition small_fields_ok (k : nat) : bool :=
  let d := Z.of_nat k in
  str_eqb (padStart0 3 (Z_toString d)) (threeDigits d) &&
  (if k <? 100 then str_eqb (padStart0 2 (Z_toString d)) (twoDigits d) else true) &&
  (if k <? 10 then str_eqb (padStart0 2 (Z_toString d)) (48%N :: Z_toString d)
   else true).

(** A time the serializers are meant for: a binary64 number, not
    negative, below 2^53 seconds. *)
Definition clockTime (seconds : Q) : Prop :=
  isBinary64 seconds /\ (0 <= seconds)%Q /\ (seconds < pow2 53)%Q.

(** Start times never decrease along the word list. *)
Definition timeOrdered (ws : list SunoWord) : Prop :=
  Sorted (fun a b => (start a <= start b)%Q) ws.

(* ================================================================== *)
(** ** [services/api.ts]: identifiers and request URLs *)
(* ================================================================== *)

(** A character the class [[0-9a-f]] matches under the [i] flag. *)
Definition isHexDigit (c : codepoint) : bool :=
  ((48 <=? c) && (c <=? 57) || (97 <=? c) && (c <=? 102) ||
   (65 <=? c) && (c <=? 70))%N.

(** [[0-9a-f]{n}] at the head of [s]: what is left of [s] after the run. *)
Fixpoint hexRun (n : nat) (s : jsstring) : option jsstring :=
  match n with
  | O => Some s
  | S n' =>
      match s with
      | c :: r => if isHexDigit c then hexRun n' r else None
      | [] => None
      end
  end.

(** [[0-9a-f]{n}-] at the head of [s]. *)
Definition hexRunDash (n : nat) (s : jsstring) : option jsstring :=
  match hexRun n s with
  | Some (c :: r) => if cp_eqb c 45%N then Some r else None
  | _ => None
  end.

(** [isValidUUID]: the anchored pattern of five runs, 8-4-4-4-12. *)
Definition isValidUUID (id : jsstring) : bool :=
  match hexRunDash 8 id with
  | Some r1 =>
      match hexRunDash 4 r1 with
      | Some r2 =>
          match hexRunDash 4 r2 with
          | Some r3 =>
              match hexRunDash 4 r3 with
              | Some r4 =>
                  match hexRun 12 r4 with
                  | Some [] => true
                  | _ => false
                  end
              | None => false
              end
          | None => false
          end
      | None => false
      end
  | None => false
  end.

Definition DEFAULT_BASE_URL : jsstring :=
  js "https://studio-api.prod.suno.com/api".

(** [s.replace(/\/$/, '')] *)
Definition dropTrailingSlash (s : jsstring) : jsstring :=
  match rev s with
  | c :: r => if cp_eqb c 47%N then rev r else s
  | [] => s
  end.

(** [getBaseUrl]: [None] is [undefined]; the empty string is falsy too. *)
Definition getBaseUrl (proxyUrl : option jsstring) : jsstring :=
  match proxyUrl with
  | None => DEFAULT_BASE_URL
  | Some [] => DEFAULT_BASE_URL
  | Some (c :: r) => dropTrailingSlash (c :: r)
  end.

(** The URL [fetchAlignedLyrics] requests. *)
Definition alignedLyricsUrl (songId : jsstring) (proxyUrl : option jsstring)
  : jsstring :=
  getBaseUrl proxyUrl ++ js "/gen/" ++ songId ++ js "/aligned_lyrics/v2".

(** The URL [fetchClipMetadata] requests. *)
Definition clipMetadataUrl (clipId : jsstring) (proxyUrl : option jsstring)
  : jsstring :=
  getBaseUrl proxyUrl ++ js "/clip/" ++ clipId.

(* ================================================================== *)
(** ** [services/api.ts]: from the response body to the word list *)
(* ================================================================== *)

(** A value [response.json()] or [JSON.parse] returns.  The fields of an
    object are its own properties in the order [for ... in] visits them. *)
#[warnings="-register-all"]
Inductive json : Type :=
| JNull
| JBool (b : bool)
| JNum (n : Q)
| JStr (s : jsstring)
| JArr (items : list json)
| JObj (fields : list (jsstring * json)).

(** [fields[key]]; [None] is [undefined]. *)
Fixpoint lookupKey (key : jsstring) (fields : list (jsstring * json))
  : option json :=
  match fields with
  | [] => None
  | (k, v) :: rest => if str_eqb k key then Some v else lookupKey key rest
  end.

(** [w.key] for the property names the code reads ([word], [start],
    [start_s], [end], [end_s], [score], [p_align]): none of them is an
    index or a built-in of arrays, strings, numbers or booleans, and on
    [null] the read raises. *)
Definition getProp (w : json) (key : jsstring) : result (option json) :=
  match w with
  | JNull => TypeError
  | JObj fields => Ok (lookupKey key fields)
  | _ => Ok None
  end.

(** [Array.isArray(v)], with the items. *)
Definition asArray (v : option json) : option (list json) :=
  match v with
  | Some (JArr items) => Some items
  | _ => None
  end.

(** [typeof v === 'number'], with the number. *)
Definition asNumber (v : option json) : option Q :=
  match v with
  | Some (JNum n) => Some n
  | _ => None
  end.

Definition potentialKeys : list jsstring :=
  [js "aligned_words"; js "alligned_words"; js "words"; js "lyrics";
   js "aligned_lyrics"].

(** The loop over [potentialKeys]: the first key that holds an array. *)
Fixpoint firstArrayAt (fields : list (jsstring * json)) (keys : list jsstring)
  : list json :=
  match keys with
  | [] => []
  | key :: rest =>
      match asArray (lookupKey key fields) with
      | Some items => items
      | None => firstArrayAt fields rest
      end
  end.

(** [firstItem && typeof firstItem === 'object' && 'word' in firstItem] *)
Definition looksLikeWord (firstItem : json) : bool :=
  match firstItem with
  | JObj fields =>
      match lookupKey (js "word") fields with
      | Some _ => true
      | None => false
      end
  | _ => false
  end.

(** The fallback loop [for (const key in data)] over the entries still
    to visit. *)
Fixpoint duckScan (fields entries : list (jsstring * json)) : list json :=
  match entries with
  | [] => []
  | (key, _) :: rest =>
      match asArray (lookupKey key fields) with
      | Some (firstItem :: items) =>
          if looksLikeWord firstItem then firstItem :: items
          else duckScan fields rest
      | _ => duckScan fields rest
      end
  end.

(** The object branch shared by [fetchAlignedLyrics] and
    [handleManualProcess]. *)
Definition rawWordsOfObject (fields : list (jsstring * json)) : list json :=
  let rawWords := firstArrayAt fields potentialKeys in
  if length rawWords =? 0 then duckScan fields fields else rawWords.

(** [rawWords] of [fetchAlignedLyrics]. *)
Definition extractRawWords (data : json) : list json :=
  match data with
  | JArr items => items
  | JObj fields => rawWordsOfObject fields
  | _ => []
  end.

(** The object the [map] callback builds from one item. *)
Record WordEntry : Type := mkEntry {
  e_word : option json;
  e_start : option Q;
  e_end : option Q;
  e_score : option json
}.

(** [typeof a === 'number' ? a : (typeof b === 'number' ? b : undefined)] *)
Definition numberOr (a b : option json) : option Q :=
  match asNumber a with
  | Some n => Some n
  | None => asNumber b
  end.

(** [a ?? b] *)
Definition nullish (a b : option json) : option json :=
  match a with
  | None => b
  | Some JNull => b
  | Some _ => a
  end.

Definition normalizeEntry (w : json) : result WordEntry :=
  w_word <- getProp w (js "word") ;;
  w_start <- getProp w (js "start") ;;
  w_start_s <- getProp w (js "start_s") ;;
  w_end <- getProp w (js "end") ;;
  w_end_s <- getProp w (js "end_s") ;;
  w_score <- getProp w (js "score") ;;
  w_p_align <- getProp w (js "p_align") ;;
  Ok (mkEntry w_word (numberOr w_start w_start_s) (numberOr w_end w_end_s)
        (nullish w_score w_p_align)).

(** A word as the fetch layer hands it on: the filter guarantees a string
    and a numeric start, nothing about [end] or [score]. *)
Record FetchedWord : Type := mkFetched {
  f_word : jsstring;
  f_start : Q;
  f_end : option Q;
  f_score : option json
}.

(** The filter: [typeof w.word === 'string' && typeof w.start === 'number']. *)
Definition keepEntry (e : WordEntry) : option FetchedWord :=
  match e_word e, e_start e with
  | Some (JStr s), Some t => Some (mkFetched s t (e_end e) (e_score e))
  | _, _ => None
  end.

Fixpoint keepEntries (es : list WordEntry) : list FetchedWord :=
  match es with
  | [] => []
  | e :: rest =>
      match keepEntry e with
      | Some w => w :: keepEntries rest
      | None => keepEntries rest
      end
  end.

(** [rawWords.map(...)]: the callback may raise. *)
Fixpoint mapEntries (rawWords : list json) : result (list WordEntry) :=
  match rawWords with
  | [] => Ok []
  | w :: rest =>
      e <- normalizeEntry w ;;
      es <- mapEntries rest ;;
      Ok (e :: es)
  end.

(** [normalizedWords] *)
Definition normalizeWords (rawWords : list json) : result (list FetchedWord) :=
  es <- mapEntries rawWords ;;
  Ok (keepEntries es).

(** The fetch layer as its contract words it.  An item gives a word when
    it is an object with a string at [word] and a number at [start] or,
    failing that, at [start_s]; the end is read in the same way and the
    score is the one at [score], or at [p_align] when [score] is absent
    or null.  Every other item is left out. *)
Definition itemWord (w : json) : option FetchedWord :=
  match w with
  | JObj fields =>
      match lookupKey (js "word") fields,
            numberOr (lookupKey (js "start") fields)
                     (lookupKey (js "start_s") fields) with
      | Some (JStr s), Some t =>
          Some (mkFetched s t
                  (numberOr (lookupKey (js "end") fields)
                            (lookupKey (js "end_s") fields))
                  (nullish (lookupKey (js "score") fields)
                           (lookupKey (js "p_align") fields)))
      | _, _ => None
      end
  | _ => None
  end.

Fixpoint keptWords (rawWords : list json) : list FetchedWord :=
  match rawWords with
  | [] => []
  | w :: rest =>
      match itemWord w with
      | Some x => x :: keptWords rest
      | None => keptWords rest
      end
  end.

(** What [fetchAlignedLyrics] returns for the response body [data]. *)
Definition fetchedWords (data : json) : result (list FetchedWord) :=
  normalizeWords (extractRawWords data).




(** A word list written back as JSON, in either key spelling. *)
Definition scoreField (key : string) (w : SunoWord) : list (jsstring * json) :=
  match score w with
  | Some p => [(js key, JNum p)]
  | None => []
  end.

Definition encodeWord (w : SunoWord) : json :=
  JObj ([(js "word", JStr (word w)); (js "start", JNum (start w));
         (js "end", JNum (end_ w))] ++ scoreField "score" w).

Definition encodeWord_s (w : SunoWord) : json :=
  JObj ([(js "word", JStr (word w)); (js "start_s", JNum (start w));
         (js "end_s", JNum (end_ w))] ++ scoreField "p_align" w).

Definition fetchedOf (w : SunoWord) : FetchedWord :=
  mkFetched (word w) (start w) (Some (end_ w))
            (match score w with Some p => Some (JNum p) | None => None end).

(* ================================================================== *)
(** ** The editor's time field *)
(* ================================================================== *)

(** [Math.round]: the nearest integer, halves upwards. *)
Definition Math_round (x : Q) : Z := Qfloor (x + (1 # 2)).

(** [formatTimeForInput]: seconds to [mm:ss.xx] for the editor. *)
Definition formatTimeForInput (seconds : Q) : jsstring :=
  let m := Math_floor (div64 seconds 60) in
  let s := js_rem seconds 60 in
  let sInt := Math_floor s in
  let ms := Math_round (mul64 (sub64 s (inject_Z sInt)) 100) in
  padStart0 2 (Z_toString m) ++ js ":" ++
  padStart0 2 (Z_toString sInt) ++ js "." ++
  padStart0 2 (Z_toString ms).

(* ================================================================== *)
(** ** The application state around the aligner *)
(* ================================================================== *)

Inductive AppState : Type :=
| IDLE
| LOADING
| SUCCESS
| ERROR
| MANUAL_INPUT.

Record GenerationResult : Type := mkResult {
  lines : list AlignedLine;
  lrcContent : jsstring;
  srtContent : jsstring
}.

Record SunoClipMetadata : Type := mkClip {
  clip_id : jsstring;
  prompt : jsstring;
  tags : option jsstring;
  duration : option Q;
  audio_url : option jsstring;
  title : option jsstring
}.

(** The pieces of React state that [processData] and [updateLine] write. *)
Record AppModel : Type := mkApp {
  appState : AppState;
  errorMsg : jsstring;
  result_ : option GenerationResult;
  metadata : option SunoClipMetadata
}.

(** [Partial<AlignedLine>]: [None] is a key that is not given. *)
Record LineChanges : Type := mkChanges {
  c_text : option jsstring;
  c_startTime : option Q;
  c_endTime : option Q;
  c_words : option (list SunoWord)
}.

Definition orElse (A : Type) (o : option A) (d : A) : A :=
  match o with
  | Some a => a
  | None => d
  end.

(** [{ ...line, ...changes }] *)
Definition applyChanges (line : AlignedLine) (changes : LineChanges)
  : AlignedLine :=
  mkLine (orElse (c_text changes) (text line))
         (orElse (c_startTime changes) (startTime line))
         (orElse (c_endTime changes) (endTime line))
         (orElse (c_words changes) (words line)).

(** [updateLine], for an index inside [result.lines], as every caller
    gives it.  Past the end the source stores an object that lacks the
    fields not in [changes], which [AlignedLine] cannot hold: [None]. *)
Definition updateLine (st : AppModel) (index : nat) (changes : LineChanges)
  : option AppModel :=
  match result_ st with
  | None => Some st
  | Some result =>
      match nth_error (lines result) index with
      | None => None
      | Some oldLine =>
          let newLines :=
            firstn index (lines result) ++
            applyChanges oldLine changes :: skipn (S index) (lines result) in
          Some (mkApp (appState st) (errorMsg st)
                  (Some (mkResult newLines (generateLRC newLines)
                           (generateSRT newLines)))
                  (metadata st))
      end
  end.

(** What the preview pane shows agrees with the lines of the result. *)
Definition exportsInSync (st : AppModel) : Prop :=
  match result_ st with
  | Some result =>
      lrcContent result = generateLRC (lines result) /\
      srtContent result = generateSRT (lines result)
  | None => True
  end.

(** [s] is [l] with some elements left out, the others in order. *)
Inductive Subseq (A : Type) : list A -> list A -> Prop :=
| Subseq_nil : Subseq [] []
| Subseq_skip (x : A) (s l : list A) : Subseq s l -> Subseq s (x :: l)
| Subseq_take (x : A) (s l : list A) : Subseq s l -> Subseq (x :: s) (x :: l).

(** One row of the LRC text. *)
Definition lrcRow (line : AlignedLine) : jsstring :=
  formatLrcTime (startTime line) ++ text line.

(** A remainder lies within its field. *)
Ltac mod_bound :=
  match goal with
  | |- (0 <= ?a mod ?b < _)%Z => pose proof (Z.mod_pos_bound a b); lia
  end.

(* ================================================================== *)
(** ** The aligner *)
(* ================================================================== *)

Section Aligner.

(** The runtime's [String.prototype.toLowerCase] and the general
    categories Letter ([\p{L}]) and Number ([\p{N}]). *)
Variable toLowerCase : jsstring -> jsstring.
Variable isLetter : codepoint -> bool.
Variable isNumber : codepoint -> bool.

(** [normalize]: lowercase, then delete what [[^\p{L}\p{N}]] matches. *)
Definition normalize (text : jsstring) : jsstring :=
  filter (fun c => isLetter c || isNumber c) (toLowerCase text).

Definition nonEmpty (s : jsstring) : bool := 0 <? length s.

(** [promptText.split('\n').map(l => l.trim()).filter(l => l.length > 0)] *)
Definition rawLinesOf (promptText : jsstring) : list jsstring :=
  filter nonEmpty (map trim (split_on 10%N promptText)).

(** [lineText.split(/\s+/).map(normalize).filter(t => t.length > 0)] *)
Definition lineTokensOf (lineText : jsstring) : list jsstring :=
  filter nonEmpty (map normalize (split_ws lineText)).

(** The metadata test of the loop body. *)
Definition isTag (lineText : jsstring) : bool :=
  startsWith lineText 91%N && endsWith lineText 93%N.

(** The primary loop [for (w = wordCursor; w < alignedWords.length; w++)];
    [n] is the number of iterations left, [alignedWords.length - w].
    [None] is the [-1] of the source. *)
Fixpoint primaryScan (alignedWords : list SunoWord) (lineTokens : list jsstring)
    (n w : nat) : result (option nat) :=
  match n with
  | O => Ok None
  | S n' =>
      aw <- read alignedWords w ;;
      let audioWord := normalize (word aw) in
      if str_eqb_opt audioWord (nth_error lineTokens 0) then
        if (1 <? length lineTokens) && (w + 1 <? length alignedWords) then
          nw <- read alignedWords (w + 1) ;;
          let nextAudioWord := normalize (word nw) in
          if str_eqb_opt nextAudioWord (nth_error lineTokens 1)
          then Ok (Some w)
          else Ok (Some w)
        else Ok (Some w)
      else primaryScan alignedWords lineTokens n' (w + 1)
  end.

(** The fallback loop over the same range, on the second token. *)
Fixpoint fallbackScan (alignedWords : list SunoWord) (lineTokens : list jsstring)
    (n w : nat) : result (option nat) :=
  match n with
  | O => Ok None
  | S n' =>
      aw <- read alignedWords w ;;
      if str_eqb_opt (normalize (word aw)) (nth_error lineTokens 1)
      then Ok (Some w)
      else fallbackScan alignedWords lineTokens n' (w + 1)
  end.

Definition isNone (A : Type) (o : option A) : bool :=
  match o with
  | None => true
  | Some _ => false
  end.

(** Both searches of one line: the value of [matchIndex] at line 92. *)
Definition findAnchor (alignedWords : list SunoWord) (lineTokens : list jsstring)
    (wordCursor : nat) : result (option nat) :=
  m <- primaryScan alignedWords lineTokens
         (length alignedWords - wordCursor) wordCursor ;;
  if isNone m && (1 <? length lineTokens)
  then fallbackScan alignedWords lineTokens
         (length alignedWords - wordCursor) wordCursor
  else Ok m.

(** The state of the main loop: the lines pushed so far and the cursor. *)
Definition loopState : Type := (list AlignedLine * nat)%type.

(** One iteration of the main loop. *)
Definition alignLine (alignedWords : list SunoWord) (st : loopState)
    (lineText : jsstring) : result loopState :=
  let (lines, wordCursor) := st in
  if isTag lineText then Ok st
  else
    let lineTokens := lineTokensOf lineText in
    if length lineTokens =? 0 then Ok st
    else
      matchIndex <- findAnchor alignedWords lineTokens wordCursor ;;
      match matchIndex with
      | Some mi =>
          aw <- read alignedWords mi ;;
          Ok (lines ++ [mkLine lineText (start aw) 0 []], mi + 1)
      | None => Ok st
      end.

(** The main loop over [rawLines]. *)
Fixpoint alignLoop (alignedWords : list SunoWord) (st : loopState)
    (rawLines : list jsstring) : result loopState :=
  match rawLines with
  | [] => Ok st
  | lineText :: rest =>
      st' <- alignLine alignedWords st lineText ;;
      alignLoop alignedWords st' rest
  end.

(** [alignedWords[alignedWords.length - 1]], [undefined] on the empty list. *)
Definition lastWordOf (alignedWords : list SunoWord) : option SunoWord :=
  match alignedWords with
  | [] => None
  | _ :: _ => nth_error alignedWords (length alignedWords - 1)
  end.

Definition setEndTime (line : AlignedLine) (t : Q) : AlignedLine :=
  mkLine (text line) (startTime line) t (words line).

(** The post-processing loop: only [endTime] is written and only
    [startTime] is read, so each line is resolved from its successor. *)
Fixpoint setEndTimes (alignedWords : list SunoWord) (lines : list AlignedLine)
    : list AlignedLine :=
  match lines with
  | [] => []
  | currentLine :: rest =>
      let t :=
        match rest with
        | nextLine :: _ => startTime nextLine
        | [] =>
            match lastWordOf alignedWords with
            | Some lastWord =>
                if Qgtb (end_ lastWord) (startTime currentLine)
                then end_ lastWord
                else (startTime currentLine + 5)%Q
            | None => (startTime currentLine + 5)%Q
            end
        end in
      setEndTime currentLine t :: setEndTimes alignedWords rest
  end.

(** [alignLyrics] *)
Definition alignLyrics (promptText : jsstring) (alignedWords : list SunoWord)
    : result (list AlignedLine) :=
  st <- alignLoop alignedWords ([], 0) (rawLinesOf promptText) ;;
  Ok (setEndTimes alignedWords (fst st)).

(** [processData] *)
Definition processData (st : AppModel) (promptText : jsstring)
    (ws : list SunoWord) (meta : option SunoClipMetadata) : AppModel :=
  match promptText with
  | [] =>
      mkApp ERROR (js "No lyrics found in metadata.") (result_ st) (metadata st)
  | _ :: _ =>
      match ws with
      | [] =>
          mkApp ERROR
            (js "No aligned lyrics data found. The API response might have been empty or had an unrecognized structure.")
            (result_ st) (metadata st)
      | _ :: _ =>
          match alignLyrics promptText ws with
          | Ok alignedLines =>
              mkApp SUCCESS (errorMsg st)
                (Some (mkResult alignedLines (generateLRC alignedLines)
                         (generateSRT alignedLines)))
                (match meta with
                 | Some m => Some m
                 | None => metadata st
                 end)
          | TypeError =>
              mkApp ERROR
                (js "Error processing lyrics alignment. Check console for details.")
                (result_ st) (metadata st)
          end
      end
  end.

(** *** The searches as the specification words them *)

(** The word at index [w] exists and normalizes to [tok]. *)
Definition wordMatches (alignedWords : list SunoWord) (tok : jsstring)
    (w : nat) : Prop :=
  exists aw, nth_error alignedWords w = Some aw /\ normalize (word aw) = tok.

(** [r] is the first index at or after [cursor] whose word normalizes
    to [tok], or [None] when there is none. *)
Definition firstMatchFrom (alignedWords : list SunoWord) (tok : jsstring)
    (cursor : nat) (r : option nat) : Prop :=
  match r with
  | Some w =>
      cursor <= w /\ wordMatches alignedWords tok w /\
      forall j, cursor <= j -> j < w -> ~ wordMatches alignedWords tok j
  | None => forall j, cursor <= j -> ~ wordMatches alignedWords tok j
  end.

(** Line [l] starts at the word of index [a], which normalizes to the
    first or the second token of the line. *)
Definition anchoredAt (alignedWords : list SunoWord) (l : AlignedLine)
    (a : nat) : Prop :=
  exists aw, nth_error alignedWords a = Some aw /\
             startTime l = start aw /\
             exists k, k < 2 /\
               nth_error (lineTokensOf (text l)) k = Some (normalize (word aw)).

(** What [findAnchor] returns on a line of tokens [t0 :: rest]. *)
Definition anchorOutcome (ws : list SunoWord) (t0 : jsstring)
    (rest : list jsstring) (c : nat) (r : option nat) : Prop :=
  exists p, firstMatchFrom ws t0 c p /\
    match p, rest with
    | Some _, _ => r = p
    | None, t1 :: _ => firstMatchFrom ws t1 c r
    | None, [] => r = None
    end.

(** The runtime tables agree with ASCII on ASCII strings. *)
Definition asciiCompatible : Prop :=
  (forall s, forallb isAscii s = true -> toLowerCase s = map ascii_lower s) /\
  (forall c, isAscii c = true -> isLetter c = ascii_isLetter c) /\
  (forall c, isAscii c = true -> isNumber c = ascii_isNumber c).

(* ---------------------------------------------------------------- *)
(** *** Strings and array reads *)
(* ---------------------------------------------------------------- *)

Lemma str_eqb_eq (a b : jsstring) : str_eqb a b = true <-> a = b.
Proof.
  revert b; induction a as [|x a IH]; intros [|y b]; simpl;
    try (split; [discriminate | discriminate]); try tauto.
  unfold cp_eqb. rewrite andb_true_iff, N.eqb_eq, IH.
  split; [intros [-> ->]; reflexivity | intros E; inversion E; auto].
Qed.

Lemma str_eqb_neq (a b : jsstring) : str_eqb a b = false <-> a <> b.
Proof.
  rewrite <- str_eqb_eq. destruct (str_eqb a b); split; congruence.
Qed.

Lemma read_in_range (A : Type) (xs : list A) (i : nat) :
  i < length xs -> exists x, nth_error xs i = Some x /\ read xs i = Ok x.
Proof.
  intros H. unfold read.
  destruct (nth_error xs i) as [x|] eqn:E.
  - exists x; auto.
  - apply nth_error_None in E. lia.
Qed.

Lemma wordMatches_in_range (ws : list SunoWord) (tok : jsstring) (w : nat) :
  wordMatches ws tok w -> w < length ws.
Proof.
  intros (aw & E & _). apply nth_error_Some. congruence.
Qed.

(* ---------------------------------------------------------------- *)
(** *** The two scans *)
(* ---------------------------------------------------------------- *)

Lemma firstMatchFrom_step (ws : list SunoWord) (tok : jsstring) (w : nat)
      (r : option nat) :
  ~ wordMatches ws tok w ->
  firstMatchFrom ws tok (w + 1) r -> firstMatchFrom ws tok w r.
Proof.
  intros Hw. destruct r as [m|]; simpl.
  - intros (Hle & Hm & Hmin). repeat split; [lia | exact Hm |].
    intros j Hj Hjm. destruct (Nat.eq_dec j w) as [->|Hne]; [exact Hw|].
    apply Hmin; lia.
  - intros Hnone j Hj. destruct (Nat.eq_dec j w) as [->|Hne]; [exact Hw|].
    apply Hnone; lia.
Qed.

Lemma firstMatchFrom_here (ws : list SunoWord) (tok : jsstring) (w : nat) :
  wordMatches ws tok w -> firstMatchFrom ws tok w (Some w).
Proof.
  intros H. simpl. repeat split; [lia | exact H | intros; lia].
Qed.

Lemma firstMatchFrom_end (ws : list SunoWord) (tok : jsstring) (w : nat) :
  length ws - w = 0 -> firstMatchFrom ws tok w None.
Proof.
  intros H j Hj Hm. apply wordMatches_in_range in Hm. lia.
Qed.

Lemma primaryScan_first (ws : list SunoWord) (tokens : list jsstring)
      (tok : jsstring) :
  nth_error tokens 0 = Some tok ->
  forall n w, n = length ws - w ->
    exists r, primaryScan ws tokens n w = Ok r /\ firstMatchFrom ws tok w r.
Proof.
  intros Ht. induction n as [|n IH]; intros w Hn;
    cbn [primaryScan fallbackScan].
  - exists None. split; [reflexivity | apply firstMatchFrom_end; lia].
  - destruct (@read_in_range _ ws w) as (aw & Eaw & ->); [lia|].
    cbn [bind]. rewrite Ht. cbn [str_eqb_opt].
    destruct (str_eqb (normalize (word aw)) tok) eqn:E.
    + apply str_eqb_eq in E.
      assert (Hm : wordMatches ws tok w) by (exists aw; auto).
      exists (Some w). split; [|apply firstMatchFrom_here; exact Hm].
      destruct ((1 <? length tokens) && (w + 1 <? length ws)) eqn:G;
        [|reflexivity].
      apply andb_true_iff in G. destruct G as [_ G].
      apply Nat.ltb_lt in G.
      destruct (@read_in_range _ ws (w + 1) G) as (nw & _ & ->).
      cbn [bind]. destruct (str_eqb_opt _ _); reflexivity.
    + apply str_eqb_neq in E.
      destruct (IH (w + 1)) as (r & Hr & Hf); [lia|].
      exists r. split; [exact Hr|].
      apply firstMatchFrom_step; [|exact Hf].
      intros (aw' & Eaw' & Hn'). congruence.
Qed.

Lemma fallbackScan_first (ws : list SunoWord) (tokens : list jsstring)
      (tok : jsstring) :
  nth_error tokens 1 = Some tok ->
  forall n w, n = length ws - w ->
    exists r, fallbackScan ws tokens n w = Ok r /\ firstMatchFrom ws tok w r.
Proof.
  intros Ht. induction n as [|n IH]; intros w Hn;
    cbn [primaryScan fallbackScan].
  - exists None. split; [reflexivity | apply firstMatchFrom_end; lia].
  - destruct (@read_in_range _ ws w) as (aw & Eaw & ->); [lia|].
    cbn [bind]. rewrite Ht. cbn [str_eqb_opt].
    destruct (str_eqb (normalize (word aw)) tok) eqn:E.
    + apply str_eqb_eq in E.
      exists (Some w). split; [reflexivity|].
      apply firstMatchFrom_here. exists aw; auto.
    + apply str_eqb_neq in E.
      destruct (IH (w + 1)) as (r & Hr & Hf); [lia|].
      exists r. split; [exact Hr|].
      apply firstMatchFrom_step; [|exact Hf].
      intros (aw' & Eaw' & Hn'). congruence.
Qed.

(** The first match is unique: the scans are functions of the cursor. *)
Lemma firstMatchFrom_unique (ws : list SunoWord) (tok : jsstring) (c : nat)
      (r1 r2 : option nat) :
  firstMatchFrom ws tok c r1 -> firstMatchFrom ws tok c r2 -> r1 = r2.
Proof.
  destruct r1 as [a|], r2 as [b|]; simpl; try reflexivity.
  - intros (Ha & Ma & Na) (Hb & Mb & Nb).
    destruct (Nat.lt_trichotomy a b) as [L|[->|L]]; [|reflexivity|].
    + exfalso. apply (Nb a); assumption.
    + exfalso. apply (Na b); assumption.
  - intros (Ha & Ma & _) Hn. exfalso. apply (Hn a); assumption.
  - intros Hn (Hb & Mb & _). exfalso. apply (Hn b); assumption.
Qed.

(* ---------------------------------------------------------------- *)
(** *** The anchor of one line *)
(* ---------------------------------------------------------------- *)

Lemma findAnchor_outcome (ws : list SunoWord) (t0 : jsstring)
      (rest : list jsstring) (c : nat) :
  exists r, findAnchor ws (t0 :: rest) c = Ok r /\ anchorOutcome ws t0 rest c r.
Proof.
  unfold findAnchor.
  destruct (@primaryScan_first ws (t0 :: rest) t0 eq_refl (length ws - c) c eq_refl)
    as (p & -> & Hp).
  cbn [bind]. destruct p as [m|]; cbn [isNone andb].
  - exists (Some m). split; [reflexivity|]. exists (Some m). auto.
  - destruct rest as [|t1 rest'].
    + exists None. split; [reflexivity|]. exists None. auto.
    + change (1 <? length (t0 :: t1 :: rest')) with true. cbn [andb].
      destruct (@fallbackScan_first ws (t0 :: t1 :: rest') t1 eq_refl
                  (length ws - c) c eq_refl) as (r & -> & Hr).
      exists r. split; [reflexivity|]. exists None. auto.
Qed.

Lemma anchorOutcome_some (ws : list SunoWord) (t0 : jsstring)
      (rest : list jsstring) (c mi : nat) :
  anchorOutcome ws t0 rest c (Some mi) ->
  c <= mi /\
  exists aw, nth_error ws mi = Some aw /\
    exists k, k < 2 /\ nth_error (t0 :: rest) k = Some (normalize (word aw)).
Proof.
  intros (p & Hp & Hr). destruct p as [m|].
  - inversion Hr; subst m. destruct Hp as (Hle & (aw & E & Hn) & _).
    split; [exact Hle|]. exists aw. split; [exact E|].
    exists 0. split; [lia|]. simpl. congruence.
  - destruct rest as [|t1 rest']; [discriminate|].
    destruct Hr as (Hle & (aw & E & Hn) & _).
    split; [exact Hle|]. exists aw. split; [exact E|].
    exists 1. split; [lia|]. simpl. congruence.
Qed.

(** One iteration either leaves the state alone or pushes one line
    anchored at an index at or after the cursor, and moves the cursor
    just past it. *)
Lemma alignLine_step (ws : list SunoWord) (lines : list AlignedLine)
      (c : nat) (lineText : jsstring) :
  exists st', alignLine ws (lines, c) lineText = Ok st' /\
    (st' = (lines, c) \/
     exists mi aw, c <= mi /\ nth_error ws mi = Some aw /\
       anchoredAt ws (mkLine lineText (start aw) 0 []) mi /\
       st' = (lines ++ [mkLine lineText (start aw) 0 []], mi + 1)).
Proof.
  unfold alignLine.
  destruct (isTag lineText);
    [eexists; split; [reflexivity | left; reflexivity]|].
  destruct (lineTokensOf lineText) as [|t0 rest] eqn:Et;
    [eexists; split; [reflexivity | left; reflexivity]|].
  change (length (t0 :: rest) =? 0) with false. cbv iota.
  destruct (findAnchor_outcome ws t0 rest c) as (r & -> & Hr). cbn [bind].
  destruct r as [mi|];
    [|eexists; split; [reflexivity | left; reflexivity]].
  destruct (anchorOutcome_some Hr) as (Hle & aw & E & k & Hk & Hn).
  unfold read. rewrite E. cbn [bind].
  eexists. split; [reflexivity|]. right. exists mi, aw.
  repeat split; auto.
  exists aw. repeat split; auto. exists k. split; [exact Hk|].
  cbn [text]. rewrite Et. exact Hn.
Qed.

(* ---------------------------------------------------------------- *)
(** *** The main loop *)
(* ---------------------------------------------------------------- *)

Lemma StronglySorted_snoc (A : Type) (R : A -> A -> Prop) (l : list A) (y : A) :
  StronglySorted R l -> Forall (fun x => R x y) l ->
  StronglySorted R (l ++ [y]).
Proof.
  induction 1 as [|x l Hs IH Hx]; intros Hy; simpl.
  - constructor; constructor.
  - inversion Hy; subst. constructor.
    + apply IH; assumption.
    + apply Forall_app. split; [assumption | constructor; auto].
Qed.

(** The invariant of the main loop: the lines pushed so far are
    anchored at strictly increasing indices, all before the cursor. *)
Lemma alignLoop_invariant (ws : list SunoWord) (rawLines : list jsstring) :
  forall lines c anchors,
    Forall2 (anchoredAt ws) lines anchors ->
    StronglySorted lt anchors ->
    Forall (fun a => a < c) anchors ->
    exists lines' c' anchors',
      alignLoop ws (lines, c) rawLines = Ok (lines', c') /\
      Forall2 (anchoredAt ws) lines' anchors' /\
      StronglySorted lt anchors' /\
      Forall (fun a => a < c') anchors'.
Proof.
  induction rawLines as [|l rest IH]; intros lines c anchors HA HS HC;
    cbn [alignLoop].
  - exists lines, c, anchors. auto.
  - destruct (alignLine_step ws lines c l) as (st' & -> & [->|Hpush]);
      cbn [bind].
    + apply IH with anchors; assumption.
    + destruct Hpush as (mi & aw & Hle & E & Hanch & ->).
      apply IH with (anchors ++ [mi]).
      * apply Forall2_app; [assumption | constructor; [assumption | constructor]].
      * apply StronglySorted_snoc; [assumption|].
        eapply Forall_impl; [|exact HC]. simpl; intros; lia.
      * apply Forall_app. split.
        -- eapply Forall_impl; [|exact HC]. simpl; intros; lia.
        -- constructor; [lia | constructor].
Qed.

(* ---------------------------------------------------------------- *)
(** *** Post-processing *)
(* ---------------------------------------------------------------- *)

(** The end time of a last line that starts at [s]. *)
Lemma Qgtb_lt (a b : Q) : Qgtb a b = true <-> (b < a)%Q.
Proof.
  unfold Qgtb. rewrite negb_true_iff.
  split.
  - intros H. apply Qnot_le_lt. intros L.
    apply Qle_bool_iff in L. congruence.
  - intros H. destruct (Qle_bool a b) eqn:E; [|reflexivity].
    apply Qle_bool_iff in E. exfalso. apply (Qlt_not_le _ _ H E).
Qed.


Lemma setEndTimes_length (ws : list SunoWord) (lines : list AlignedLine) :
  length (setEndTimes ws lines) = length lines.
Proof.
  induction lines as [|l r IH]; simpl; [reflexivity | rewrite IH; reflexivity].
Qed.

Lemma setEndTimes_nth (ws : list SunoWord) (lines : list AlignedLine) :
  forall i l, nth_error (setEndTimes ws lines) i = Some l ->
    exists l0, nth_error lines i = Some l0 /\
               text l = text l0 /\ startTime l = startTime l0 /\
               words l = words l0.
Proof.
  induction lines as [|c r IH]; intros [|i] l; simpl; try discriminate.
  - intros E; inversion E; subst. exists c. auto.
  - apply IH.
Qed.



Lemma setEndTimes_anchored (ws : list SunoWord) (lines : list AlignedLine)
      (anchors : list nat) :
  Forall2 (anchoredAt ws) lines anchors ->
  Forall2 (anchoredAt ws) (setEndTimes ws lines) anchors.
Proof.
  induction 1 as [|l a ls anchors' Hl Hrest IH]; cbn [setEndTimes];
    constructor; assumption.
Qed.

(* ---------------------------------------------------------------- *)
(** *** Order of the anchors and of the times *)
(* ---------------------------------------------------------------- *)

Lemma StronglySorted_nth (A : Type) (R : A -> A -> Prop) (l : list A) :
  StronglySorted R l ->
  forall i j a b, i < j -> nth_error l i = Some a -> nth_error l j = Some b ->
                  R a b.
Proof.
  induction 1 as [|x l Hs IH Hx]; intros i j a b Hij Ha Hb.
  - destruct i; discriminate.
  - destruct j as [|j]; [lia|]. simpl in Hb.
    destruct i as [|i]; simpl in Ha.
    + inversion Ha; subst. rewrite Forall_forall in Hx.
      apply Hx. eapply nth_error_In; eassumption.
    + apply (IH i j); [lia | assumption | assumption].
Qed.

Lemma timeOrdered_nth (ws : list SunoWord) :
  timeOrdered ws ->
  forall i j a b, i < j -> nth_error ws i = Some a -> nth_error ws j = Some b ->
                  (start a <= start b)%Q.
Proof.
  intros H. apply Sorted_StronglySorted in H.
  - intros i j a b. apply (StronglySorted_nth H).
  - intros x y z. apply Qle_trans.
Qed.

Lemma anchored_after (ws : list SunoWord) (l : AlignedLine) (a : nat)
      (ls : list AlignedLine) (anchors : list nat) :
  timeOrdered ws ->
  anchoredAt ws l a ->
  Forall2 (anchoredAt ws) ls anchors ->
  Forall (lt a) anchors ->
  Forall (fun l' => (startTime l <= startTime l')%Q) ls.
Proof.
  intros Hord (aw & Ea & Hs & _). induction 1 as [|l' a' ls' as' Hl' _ IH];
    intros Hlt; constructor.
  - inversion Hlt; subst. destruct Hl' as (aw' & Ea' & Hs' & _).
    rewrite Hs, Hs'. apply (timeOrdered_nth Hord) with a a'; assumption.
  - apply IH. inversion Hlt; assumption.
Qed.

Lemma lines_startTime_sorted (ws : list SunoWord) (lines : list AlignedLine)
      (anchors : list nat) :
  timeOrdered ws ->
  Forall2 (anchoredAt ws) lines anchors ->
  StronglySorted lt anchors ->
  StronglySorted (fun l l' => (startTime l <= startTime l')%Q) lines.
Proof.
  intros Hord. induction 1 as [|l a ls as' Hl Hrest IH]; intros Hs.
  - constructor.
  - inversion Hs; subst. constructor.
    + apply IH; assumption.
    + eapply anchored_after; eassumption.
Qed.

Lemma setEndTimes_le (ws : list SunoWord) (lines : list AlignedLine) :
  StronglySorted (fun l l' => (startTime l <= startTime l')%Q) lines ->
  Forall (fun l => (startTime l <= endTime l)%Q) (setEndTimes ws lines).
Proof.
  induction 1 as [|c r Hs IH Hc]; cbn [setEndTimes]; constructor.
  - cbn [setEndTime startTime endTime]. destruct r as [|c' r'].
    + destruct (lastWordOf ws) as [lw|].
      * destruct (Qgtb (end_ lw) (startTime c)) eqn:G.
        -- apply Qlt_le_weak. apply Qgtb_lt. exact G.
        -- rewrite <- (Qplus_0_r (startTime c)) at 1.
           apply Qplus_le_r. discriminate.
      * rewrite <- (Qplus_0_r (startTime c)) at 1.
        apply Qplus_le_r. discriminate.
    + inversion Hc; assumption.
  - exact IH.
Qed.

(** Strictly increasing indices below [n] are at most [n] many. *)
Lemma increasing_length (anchors : list nat) :
  StronglySorted lt anchors ->
  forall m n, Forall (fun a => m <= a < n) anchors -> length anchors <= n - m.
Proof.
  induction 1 as [|a r Hs IH Ha]; intros m n Hb; simpl; [lia|].
  inversion Hb; subst.
  assert (Hr : Forall (fun b => a + 1 <= b < n) r).
  { rewrite Forall_forall in *. intros b Hin.
    specialize (Ha b Hin). specialize (H2 b Hin). lia. }
  specialize (IH (a + 1) n Hr). lia.
Qed.

Lemma anchored_in_range (ws : list SunoWord) (lines : list AlignedLine)
      (anchors : list nat) :
  Forall2 (anchoredAt ws) lines anchors ->
  Forall (fun a => a < length ws) anchors.
Proof.
  induction 1 as [|l a ls as' Hl _ IH]; constructor; [|exact IH].
  destruct Hl as (aw & E & _). apply nth_error_Some. congruence.
Qed.

(** The aligner returns: the lines the main loop pushed, with their end
    times resolved, and the anchors that witness them. *)
Lemma alignLyrics_returns (promptText : jsstring) (ws : list SunoWord) :
  exists pushed anchors,
    alignLyrics promptText ws = Ok (setEndTimes ws pushed) /\
    Forall2 (anchoredAt ws) pushed anchors /\
    StronglySorted lt anchors.
Proof.
  unfold alignLyrics.
  destruct (@alignLoop_invariant ws (rawLinesOf promptText) [] 0 [])
    as (lines' & c' & anchors' & -> & HA & HS & _);
    [constructor | constructor | constructor |].
  cbn [bind fst]. exists lines', anchors'. auto.
Qed.

(* ---------------------------------------------------------------- *)
(** *** Lines that are skipped *)
(* ---------------------------------------------------------------- *)

Lemma alignLine_tag (ws : list SunoWord) (st : loopState) (l : jsstring) :
  isTag l = true -> alignLine ws st l = Ok st.
Proof.
  intros H. unfold alignLine. destruct st as [lines c]. rewrite H. reflexivity.
Qed.

Lemma alignLine_no_tokens (ws : list SunoWord) (st : loopState) (l : jsstring) :
  lineTokensOf l = [] -> alignLine ws st l = Ok st.
Proof.
  intros H. unfold alignLine. destruct st as [lines c]. rewrite H.
  destruct (isTag l); reflexivity.
Qed.

Lemma alignLoop_skips (ws : list SunoWord) (st : loopState)
      (rawLines : list jsstring) :
  Forall (fun l => isTag l = true \/ lineTokensOf l = []) rawLines ->
  alignLoop ws st rawLines = Ok st.
Proof.
  induction 1 as [|l r Hl _ IH]; cbn [alignLoop]; [reflexivity|].
  destruct Hl as [Hl|Hl];
    [rewrite (alignLine_tag ws st l Hl) | rewrite (alignLine_no_tokens ws st l Hl)];
    cbn [bind]; exact IH.
Qed.

Lemma dropWhile_all (p : codepoint -> bool) (s : jsstring) :
  forallb p s = true -> dropWhile p s = [].
Proof.
  induction s as [|c r IH]; simpl; [reflexivity|].
  intros H. apply andb_true_iff in H. destruct H as [-> H]. auto.
Qed.

Lemma trim_blank (s : jsstring) :
  forallb isWhiteSpace s = true -> trim s = [].
Proof.
  intros H. unfold trim. rewrite (dropWhile_all _ _ H). reflexivity.
Qed.

Lemma split_on_app (sep : codepoint) (a b : jsstring) :
  split_on sep (a ++ sep :: b) = split_on sep a ++ split_on sep b.
Proof.
  induction a as [|c a IH]; simpl.
  - unfold cp_eqb. rewrite N.eqb_refl. reflexivity.
  - destruct (cp_eqb c sep).
    + rewrite IH. reflexivity.
    + rewrite IH. destruct (split_on sep a) as [|h t] eqn:E.
      * destruct a; simpl in E; [discriminate|].
        destruct (cp_eqb c0 sep); [discriminate|].
        destruct (split_on sep a); discriminate.
      * reflexivity.
Qed.

Lemma split_on_pieces (p : codepoint -> bool) (sep : codepoint) (s : jsstring) :
  forallb p s = true ->
  Forall (fun piece => forallb p piece = true) (split_on sep s).
Proof.
  induction s as [|c r IH]; simpl; intros H.
  - constructor; [reflexivity | constructor].
  - apply andb_true_iff in H. destruct H as [Hc Hr].
    specialize (IH Hr). destruct (cp_eqb c sep).
    + constructor; [reflexivity | exact IH].
    + destruct (split_on sep r) as [|h t].
      * constructor; [simpl; rewrite Hc; reflexivity | constructor].
      * inversion IH; subst. constructor; [|assumption].
        simpl. rewrite Hc. assumption.
Qed.

Lemma blank_pieces_dropped (pieces : list jsstring) :
  Forall (fun piece => forallb isWhiteSpace piece = true) pieces ->
  filter nonEmpty (map trim pieces) = [].
Proof.
  induction 1 as [|x r Hx _ IH]; simpl; [reflexivity|].
  rewrite (trim_blank _ Hx). simpl. exact IH.
Qed.

(** A blank line between two line breaks leaves [rawLines] as it is. *)
Lemma rawLinesOf_blank (a blank b : jsstring) :
  forallb isWhiteSpace blank = true ->
  rawLinesOf (a ++ 10%N :: blank ++ 10%N :: b) = rawLinesOf (a ++ 10%N :: b).
Proof.
  intros H. unfold rawLinesOf.
  rewrite !split_on_app, !map_app, !filter_app.
  rewrite (blank_pieces_dropped (split_on_pieces _ _ _ H)). reflexivity.
Qed.

Lemma rawLinesOf_nonblank (promptText l : jsstring) :
  In l (rawLinesOf promptText) -> l <> [].
Proof.
  unfold rawLinesOf. intros H. apply filter_In in H. destruct H as [_ H].
  intros ->. discriminate.
Qed.

End Aligner.

(* ================================================================== *)
(** ** ASCII inputs: the aligner under any compatible runtime *)
(* ================================================================== *)

Section Transfer.

Variables lower lower' : jsstring -> jsstring.
Variables isL isL' isN isN' : codepoint -> bool.

Lemma lineTokensOf_ext (l : jsstring) :
  (forall p, In p (split_ws l) ->
     normalize lower isL isN p = normalize lower' isL' isN' p) ->
  lineTokensOf lower isL isN l = lineTokensOf lower' isL' isN' l.
Proof.
  intros H. unfold lineTokensOf. f_equal. apply map_ext_in. exact H.
Qed.

Variable ws : list SunoWord.
Hypothesis words_agree :
  forall aw, In aw ws ->
    normalize lower isL isN (word aw) = normalize lower' isL' isN' (word aw).

Lemma read_agree (i : nat) :
  read ws i = TypeError \/
  exists aw, read ws i = Ok aw /\
    normalize lower isL isN (word aw) = normalize lower' isL' isN' (word aw).
Proof.
  unfold read.
  destruct (nth_error ws i) as [aw|] eqn:E; [right | left; reflexivity].
  exists aw. split; [reflexivity|]. apply words_agree.
  eapply nth_error_In; eassumption.
Qed.

Lemma primaryScan_ext (tokens : list jsstring) (n : nat) :
  forall w, primaryScan lower isL isN ws tokens n w =
            primaryScan lower' isL' isN' ws tokens n w.
Proof.
  induction n as [|n IH]; intros w; cbn [primaryScan]; [reflexivity|].
  destruct (read_agree w) as [->|(aw & -> & Ea)]; cbn [bind]; [reflexivity|].
  rewrite Ea, IH.
  destruct (read_agree (w + 1)) as [->|(nw & -> & En)]; cbn [bind];
    [reflexivity|].
  rewrite En. reflexivity.
Qed.

Lemma fallbackScan_ext (tokens : list jsstring) (n : nat) :
  forall w, fallbackScan lower isL isN ws tokens n w =
            fallbackScan lower' isL' isN' ws tokens n w.
Proof.
  induction n as [|n IH]; intros w; cbn [fallbackScan]; [reflexivity|].
  destruct (read_agree w) as [->|(aw & -> & Ea)]; cbn [bind]; [reflexivity|].
  rewrite Ea, IH. reflexivity.
Qed.

Lemma alignLine_ext (st : loopState) (l : jsstring) :
  (forall p, In p (split_ws l) ->
     normalize lower isL isN p = normalize lower' isL' isN' p) ->
  alignLine lower isL isN ws st l = alignLine lower' isL' isN' ws st l.
Proof.
  intros H. unfold alignLine, findAnchor. destruct st as [lines c].
  rewrite (lineTokensOf_ext l H), primaryScan_ext, fallbackScan_ext.
  reflexivity.
Qed.

Lemma alignLoop_ext (rawLines : list jsstring) :
  Forall (fun l => forall p, In p (split_ws l) ->
             normalize lower isL isN p = normalize lower' isL' isN' p)
         rawLines ->
  forall st, alignLoop lower isL isN ws st rawLines =
             alignLoop lower' isL' isN' ws st rawLines.
Proof.
  induction 1 as [|l r Hl _ IH]; intros st; cbn [alignLoop]; [reflexivity|].
  rewrite (alignLine_ext st l Hl).
  destruct (alignLine lower' isL' isN' ws st l); cbn [bind]; auto.
Qed.

End Transfer.

Lemma forallb_dropWhile (p q : codepoint -> bool) (s : jsstring) :
  forallb p s = true -> forallb p (dropWhile q s) = true.
Proof.
  induction s as [|c r IH]; simpl; intros H; [reflexivity|].
  destruct (q c); [|exact H].
  apply andb_true_iff in H. destruct H as [_ H]. auto.
Qed.

Lemma forallb_rev_true (p : codepoint -> bool) (s : jsstring) :
  forallb p s = true -> forallb p (rev s) = true.
Proof.
  rewrite !forallb_forall. intros H x Hx. apply H. apply in_rev. exact Hx.
Qed.

Lemma trim_pieces (p : codepoint -> bool) (s : jsstring) :
  forallb p s = true -> forallb p (trim s) = true.
Proof.
  intros H. unfold trim.
  apply forallb_rev_true, forallb_dropWhile, forallb_rev_true, forallb_dropWhile.
  exact H.
Qed.

Lemma split_ws_pieces (p : codepoint -> bool) (s : jsstring) :
  forallb p s = true ->
  Forall (fun piece => forallb p piece = true) (split_ws s).
Proof.
  induction s as [|c r IH]; intros H.
  - constructor; [reflexivity | constructor].
  - cbn [forallb] in H. apply andb_true_iff in H. destruct H as [Hc Hr].
    specialize (IH Hr). cbn [split_ws].
    destruct (isWhiteSpace c).
    + destruct r as [|c' r'].
      * constructor; [reflexivity | exact IH].
      * destruct (isWhiteSpace c'); [exact IH|].
        constructor; [reflexivity | exact IH].
    + destruct (split_ws r) as [|h t].
      * constructor; [simpl; rewrite Hc; reflexivity | constructor].
      * inversion IH; subst. constructor; [|assumption].
        simpl. rewrite Hc. assumption.
Qed.

Lemma rawLinesOf_pieces (p : codepoint -> bool) (promptText : jsstring) :
  forallb p promptText = true ->
  Forall (fun l => forallb p l = true) (rawLinesOf promptText).
Proof.
  intros H. unfold rawLinesOf. apply Forall_forall. intros l Hl.
  apply filter_In in Hl. destruct Hl as [Hl _].
  apply in_map_iff in Hl. destruct Hl as (x & <- & Hx).
  apply trim_pieces.
  pose proof (split_on_pieces p 10%N promptText H) as Hp.
  rewrite Forall_forall in Hp. apply Hp. exact Hx.
Qed.

Lemma ascii_lower_ascii (c : codepoint) :
  isAscii c = true -> isAscii (ascii_lower c) = true.
Proof.
  unfold isAscii, ascii_lower. intros H. apply N.ltb_lt in H.
  destruct ((65 <=? c)%N && (c <=? 90)%N) eqn:E; apply N.ltb_lt; [|exact H].
  apply andb_true_iff in E. destruct E as [_ E]. apply N.leb_le in E. lia.
Qed.

(** On an ASCII string every compatible runtime normalizes alike. *)
Lemma normalize_ascii (lower : jsstring -> jsstring)
      (isL isN : codepoint -> bool) (s : jsstring) :
  asciiCompatible lower isL isN ->
  forallb isAscii s = true ->
  normalize lower isL isN s =
  normalize ascii_toLowerCase ascii_isLetter ascii_isNumber s.
Proof.
  intros (Hlow & HL & HN) Hs. unfold normalize, ascii_toLowerCase.
  rewrite (Hlow s Hs). apply filter_ext_in. intros c Hc.
  apply in_map_iff in Hc. destruct Hc as (x & <- & Hx).
  rewrite forallb_forall in Hs. specialize (Hs x Hx).
  apply ascii_lower_ascii in Hs. rewrite (HL _ Hs), (HN _ Hs). reflexivity.
Qed.

(** On ASCII inputs the aligner under a compatible runtime is the
    aligner under the ASCII tables. *)
Lemma alignLyrics_ascii (lower : jsstring -> jsstring)
      (isL isN : codepoint -> bool) (promptText : jsstring)
      (ws : list SunoWord) :
  asciiCompatible lower isL isN ->
  forallb isAscii promptText = true ->
  forallb (fun aw => forallb isAscii (word aw)) ws = true ->
  alignLyrics lower isL isN promptText ws =
  alignLyrics ascii_toLowerCase ascii_isLetter ascii_isNumber promptText ws.
Proof.
  intros Hc Ht Hw. unfold alignLyrics.
  rewrite (@alignLoop_ext lower ascii_toLowerCase isL ascii_isLetter
             isN ascii_isNumber ws); [reflexivity| |].
  - intros aw Hin. apply normalize_ascii; [exact Hc|].
    rewrite forallb_forall in Hw. apply Hw. exact Hin.
  - pose proof (rawLinesOf_pieces isAscii promptText Ht) as Hl.
    eapply Forall_impl; [|exact Hl]. cbv beta. intros l Hla p Hp.
    apply normalize_ascii; [exact Hc|].
    pose proof (split_ws_pieces isAscii l Hla) as Hs.
    rewrite Forall_forall in Hs. apply Hs. exact Hp.
Qed.

Lemma ascii_tables_compatible :
  asciiCompatible ascii_toLowerCase ascii_isLetter ascii_isNumber.
Proof.
  repeat split; reflexivity.
Qed.

(* ================================================================== *)
(** ** The aligner's searches *)
(* ================================================================== *)

(** A repeated first word whose follower does not confirm it is still
    taken at its first occurrence. *)
Example first_match_not_rejected :
  findAnchor ascii_toLowerCase ascii_isLetter ascii_isNumber
    [mkW "I" 0 1; mkW "x" 1 2; mkW "I" 2 3; mkW "am" 3 4] [js "i"; js "am"] 0
  = Ok (Some 0).
Proof. vm_compute. reflexivity. Qed.

(** Claim C1.  primary search.  For a line with at least one normalized token
    [t0], the primary loop returns the first index at or after the cursor
    whose word normalizes to [t0]; the result does not depend on the other
    tokens of the line (so not on whether the second word confirms), and a
    match found there is the anchor of the line. *)
Theorem C1_primary_accepts_first_match
    (toLowerCase : jsstring -> jsstring) (isLetter isNumber : codepoint -> bool)
    (ws : list SunoWord) (t0 : jsstring) (rest : list jsstring) (cursor : nat) :
  exists r,
    primaryScan toLowerCase isLetter isNumber ws (t0 :: rest)
      (length ws - cursor) cursor = Ok r /\
    firstMatchFrom toLowerCase isLetter isNumber ws t0 cursor r /\
    (forall rest',
        primaryScan toLowerCase isLetter isNumber ws (t0 :: rest')
          (length ws - cursor) cursor = Ok r) /\
    match r with
    | Some w =>
        findAnchor toLowerCase isLetter isNumber ws (t0 :: rest) cursor
        = Ok (Some w)
    | None => True
    end.
Proof.
  destruct (@primaryScan_first toLowerCase isLetter isNumber ws (t0 :: rest) t0
              eq_refl (length ws - cursor) cursor eq_refl) as (r & Hr & Hf).
  exists r. split; [exact Hr|]. split; [exact Hf|]. split.
  - intros rest'.
    destruct (@primaryScan_first toLowerCase isLetter isNumber ws (t0 :: rest') t0
                eq_refl (length ws - cursor) cursor eq_refl) as (r' & Hr' & Hf').
    rewrite Hr'. f_equal. eapply firstMatchFrom_unique; eassumption.
  - destruct r as [w|]; [|exact I].
    unfold findAnchor. rewrite Hr. reflexivity.
Qed.

(** Claim C2.  fallback search.  On a line of two or more tokens the anchor is
    the primary match when there is one; otherwise it is what the
    fallback loop returns, the first index at or after the same cursor
    whose word normalizes to the second token.  A one-token line has no
    fallback.  The text "Zzz unmatched word" over completely / unmatched /
    word gives one line that starts at 1. *)
Theorem C2_fallback_on_second_token
    (toLowerCase : jsstring -> jsstring) (isLetter isNumber : codepoint -> bool) :
  asciiCompatible toLowerCase isLetter isNumber ->
  (forall ws t0 t1 rest cursor,
      exists p r,
        primaryScan toLowerCase isLetter isNumber ws (t0 :: t1 :: rest)
          (length ws - cursor) cursor = Ok p /\
        findAnchor toLowerCase isLetter isNumber ws (t0 :: t1 :: rest) cursor
        = Ok r /\
        match p with
        | Some _ => r = p
        | None =>
            fallbackScan toLowerCase isLetter isNumber ws (t0 :: t1 :: rest)
              (length ws - cursor) cursor = Ok r /\
            firstMatchFrom toLowerCase isLetter isNumber ws t1 cursor r
        end) /\
  (forall ws t0 cursor,
      findAnchor toLowerCase isLetter isNumber ws [t0] cursor =
      primaryScan toLowerCase isLetter isNumber ws [t0]
        (length ws - cursor) cursor) /\
  alignLyrics toLowerCase isLetter isNumber (js "Zzz unmatched word")
    words_fallback
  = Ok [mkLine (js "Zzz unmatched word") 1 3 []].
Proof.
  intros Hc. split; [|split].
  - intros ws t0 t1 rest cursor.
    destruct (@primaryScan_first toLowerCase isLetter isNumber ws
                (t0 :: t1 :: rest) t0 eq_refl (length ws - cursor) cursor eq_refl)
      as (p & Hp & Hf).
    destruct (@fallbackScan_first toLowerCase isLetter isNumber ws
                (t0 :: t1 :: rest) t1 eq_refl (length ws - cursor) cursor eq_refl)
      as (q & Hq & Hg).
    exists p. unfold findAnchor. rewrite Hp. cbn [bind].
    destruct p as [m|]; cbn [isNone andb].
    + exists (Some m). auto.
    + change (1 <? length (t0 :: t1 :: rest)) with true. cbv iota.
      exists q. auto.
  - intros ws t0 cursor. unfold findAnchor.
    destruct (primaryScan toLowerCase isLetter isNumber ws [t0]
                (length ws - cursor) cursor) as [m|]; cbn [bind]; [|reflexivity].
    change (1 <? length [t0]) with false. rewrite andb_false_r. reflexivity.
  - rewrite (@alignLyrics_ascii toLowerCase isLetter isNumber _ _ Hc);
      [vm_compute; reflexivity | reflexivity ..].
Qed.

(** The reads of the scans can fail: run one step past the loop bound and
    the scan raises. *)
Example scan_past_the_bound :
  primaryScan ascii_toLowerCase ascii_isLetter ascii_isNumber
    [mkW "a" 0 1] [js "b"] 2 0 = TypeError.
Proof. vm_compute. reflexivity. Qed.

(** Claim C9.  totality.  On every text and every word list the aligner
    returns a list and raises no [TypeError]; on the empty word list the
    list is empty. *)
Theorem C9_alignLyrics_total
    (toLowerCase : jsstring -> jsstring) (isLetter isNumber : codepoint -> bool) :
  (forall promptText ws,
      exists lines,
        alignLyrics toLowerCase isLetter isNumber promptText ws = Ok lines) /\
  (forall promptText,
      alignLyrics toLowerCase isLetter isNumber promptText [] = Ok []).
Proof.
  split.
  - intros promptText ws.
    destruct (alignLyrics_returns toLowerCase isLetter isNumber promptText ws)
      as (pushed & anchors & E & _).
    eauto.
  - intros promptText.
    destruct (alignLyrics_returns toLowerCase isLetter isNumber promptText [])
      as (pushed & anchors & E & HA & _).
    rewrite E. pose proof (anchored_in_range HA) as Hr.
    destruct HA as [|l a ls r _ _]; [reflexivity|].
    inversion Hr; subst. simpl in *. lia.
Qed.

(* ================================================================== *)
(** ** End times *)
(* ================================================================== *)


(** Claim C4.  when the start times of the word list never decrease, every
    returned line has [startTime <= endTime]. *)
Theorem C4_start_before_end
    (toLowerCase : jsstring -> jsstring) (isLetter isNumber : codepoint -> bool)
    (promptText : jsstring) (ws : list SunoWord) :
  timeOrdered ws ->
  exists lines,
    alignLyrics toLowerCase isLetter isNumber promptText ws = Ok lines /\
    Forall (fun l => (startTime l <= endTime l)%Q) lines.
Proof.
  intros Hord.
  destruct (alignLyrics_returns toLowerCase isLetter isNumber promptText ws)
    as (pushed & anchors & E & HA & HS).
  exists (setEndTimes ws pushed). split; [exact E|].
  apply setEndTimes_le. eapply lines_startTime_sorted; eassumption.
Qed.

(** Claim C10.  anchors.  Every returned line starts at the start time of the
    input word at its anchor index, a word that normalizes to the first or
    second token of the line; the anchors of successive lines strictly
    increase; there are at most as many lines as words.  Nothing is
    assumed of the order of the times. *)
Theorem C10_anchors_increase
    (toLowerCase : jsstring -> jsstring) (isLetter isNumber : codepoint -> bool)
    (promptText : jsstring) (ws : list SunoWord) :
  exists lines anchors,
    alignLyrics toLowerCase isLetter isNumber promptText ws = Ok lines /\
    Forall2 (anchoredAt toLowerCase isLetter isNumber ws) lines anchors /\
    StronglySorted lt anchors /\
    Forall (fun a => a < length ws) anchors /\
    length lines <= length ws.
Proof.
  destruct (alignLyrics_returns toLowerCase isLetter isNumber promptText ws)
    as (pushed & anchors & E & HA & HS).
  exists (setEndTimes ws pushed), anchors. split; [exact E|].
  pose proof (anchored_in_range HA) as Hr.
  split; [apply setEndTimes_anchored; exact HA|].
  split; [exact HS|]. split; [exact Hr|].
  rewrite setEndTimes_length, (Forall2_length HA).
  assert (Hb : Forall (fun a => 0 <= a < length ws) anchors).
  { eapply Forall_impl; [|exact Hr]. simpl; intros; lia. }
  pose proof (increasing_length HS Hb). lia.
Qed.

(* ================================================================== *)
(** ** Skipped lines and the normalizer *)
(* ================================================================== *)

Lemma rawLinesOf_app (a b : jsstring) :
  rawLinesOf (a ++ 10%N :: b) = rawLinesOf a ++ rawLinesOf b.
Proof.
  unfold rawLinesOf. rewrite split_on_app, map_app, filter_app. reflexivity.
Qed.

Lemma rawLinesOf_all_blank (blank : jsstring) :
  forallb isWhiteSpace blank = true -> rawLinesOf blank = [].
Proof.
  intros H. unfold rawLinesOf.
  apply blank_pieces_dropped, split_on_pieces. exact H.
Qed.

(** Claim C5.  skipped lines.  A bracketed line and a line without tokens leave
    the pushed lines and the cursor as they are; a blank line never
    reaches the loop (the raw lines of a text are those of its parts
    around a line break, a part of white space has none, and no raw line
    is empty); when every raw line is bracketed the result is empty; and
    "[Chorus]\nHello world" over Hello / world gives the single line
    "Hello world" starting at 0. *)
Theorem C5_skipped_lines
    (toLowerCase : jsstring -> jsstring) (isLetter isNumber : codepoint -> bool) :
  asciiCompatible toLowerCase isLetter isNumber ->
  (forall ws st l,
      isTag l = true ->
      alignLine toLowerCase isLetter isNumber ws st l = Ok st) /\
  (forall ws st l,
      lineTokensOf toLowerCase isLetter isNumber l = [] ->
      alignLine toLowerCase isLetter isNumber ws st l = Ok st) /\
  (forall a b, rawLinesOf (a ++ 10%N :: b) = rawLinesOf a ++ rawLinesOf b) /\
  (forall blank, forallb isWhiteSpace blank = true -> rawLinesOf blank = []) /\
  (forall promptText l, In l (rawLinesOf promptText) -> l <> []) /\
  (forall promptText ws,
      Forall (fun l => isTag l = true) (rawLinesOf promptText) ->
      alignLyrics toLowerCase isLetter isNumber promptText ws = Ok []) /\
  alignLyrics toLowerCase isLetter isNumber text_chorus words_hello
  = Ok [mkLine (js "Hello world") 0 1 []].
Proof.
  intros Hc. repeat split.
  - intros ws st l. apply alignLine_tag.
  - intros ws st l. apply alignLine_no_tokens.
  - apply rawLinesOf_app.
  - apply rawLinesOf_all_blank.
  - apply rawLinesOf_nonblank.
  - intros promptText ws H. unfold alignLyrics.
    rewrite alignLoop_skips; [reflexivity|].
    eapply Forall_impl; [|exact H]. cbv beta. intros l Hl. left. exact Hl.
  - rewrite (@alignLyrics_ascii toLowerCase isLetter isNumber _ _ Hc);
      [vm_compute; reflexivity | reflexivity ..].
Qed.

Lemma lower_alnum (c : codepoint) :
  ascii_isLetter (ascii_lower c) || ascii_isNumber (ascii_lower c) = true ->
  isLowerAlnum (ascii_lower c) = true.
Proof.
  unfold ascii_isLetter, ascii_isNumber, isLowerAlnum, ascii_lower.
  destruct (N.leb_spec 65 c), (N.leb_spec c 90); cbn [andb];
    repeat match goal with
           | |- context [(?a <=? ?b)%N] => destruct (N.leb_spec a b)
           end; cbn; try reflexivity; try discriminate; lia.
Qed.

(** Without a capital sigma the lowering is the one of the tables. *)
Lemma lowersTo_no_sigma (s : jsstring) (images : list jsstring) :
  Forall2 lowersTo s images -> ~ In 931%N s -> images = map unicode_lower s.
Proof.
  induction 1 as [|c img s' imgs Hc _ IH]; intros Hn; [reflexivity|].
  cbn [map]. f_equal.
  - destruct Hc as [E|[E _]]; [exact E|].
    exfalso. apply Hn. left. exact E.
  - apply IH. intros H. apply Hn. right. exact H.
Qed.

Lemma lowering_no_sigma (toLowerCase : jsstring -> jsstring) :
  unicodeLowering toLowerCase ->
  forall s, ~ In 931%N s -> toLowerCase s = tableLowerCase s.
Proof.
  intros H s Hn. destruct (H s) as (images & F & E).
  rewrite E, (lowersTo_no_sigma F Hn). unfold tableLowerCase.
  rewrite flat_map_concat_map. reflexivity.
Qed.

Lemma filter_flat_map (A B : Type) (p : B -> bool) (f : A -> list B)
    (s : list A) :
  filter p (flat_map f s) = flat_map (fun c => filter p (f c)) s.
Proof.
  induction s as [|c r IH]; cbn [flat_map]; [reflexivity|].
  rewrite filter_app, IH. reflexivity.
Qed.

Lemma table_runtime :
  unicodeRuntime tableLowerCase unicode_isLetter unicode_isNumber.
Proof.
  split; [|split; reflexivity]. intros s. exists (map unicode_lower s). split.
  - induction s as [|c r IH]; constructor; [left; reflexivity | exact IH].
  - unfold tableLowerCase. apply flat_map_concat_map.
Qed.

Lemma ascii_cases (P : codepoint -> bool) :
  forallb P (map N.of_nat (seq 0 128)) = true ->
  forall c, isAscii c = true -> P c = true.
Proof.
  intros H c Hc. rewrite forallb_forall in H. apply H.
  apply in_map_iff. exists (N.to_nat c). split; [apply N2Nat.id|].
  apply in_seq. unfold isAscii in Hc. apply N.ltb_lt in Hc. lia.
Qed.

(** On ASCII the tables of Unicode are the ASCII ones. *)
Lemma unicode_tables_ascii :
  forallb (fun c => str_eqb (unicode_lower c) [ascii_lower c] &&
                    Bool.eqb (unicode_isLetter c) (ascii_isLetter c) &&
                    Bool.eqb (unicode_isNumber c) (ascii_isNumber c))
          (map N.of_nat (seq 0 128)) = true.
Proof. vm_compute. reflexivity. Qed.

(** A runtime with the tables of Unicode is one of the runtimes the
    properties of the aligner are proved for. *)
Lemma unicodeRuntime_asciiCompatible
    (toLowerCase : jsstring -> jsstring) (isLetter isNumber : codepoint -> bool) :
  unicodeRuntime toLowerCase isLetter isNumber ->
  asciiCompatible toLowerCase isLetter isNumber.
Proof.
  intros (Hl & HL & HN).
  pose proof (ascii_cases _ unicode_tables_ascii) as A. cbv beta in A.
  split; [|split].
  - intros s Hs. rewrite (lowering_no_sigma Hl).
    + unfold tableLowerCase.
      induction s as [|c r IH]; [reflexivity|].
      cbn [forallb] in Hs. apply andb_true_iff in Hs. destruct Hs as [Hc Hr].
      cbn [flat_map map]. rewrite (IH Hr).
      specialize (A c Hc). apply andb_true_iff in A. destruct A as [A _].
      apply andb_true_iff in A. destruct A as [A _].
      apply str_eqb_eq in A. rewrite A. reflexivity.
    + intros Hin. rewrite forallb_forall in Hs. specialize (Hs _ Hin).
      discriminate Hs.
  - intros c Hc. rewrite HL. specialize (A c Hc).
    apply andb_true_iff in A. destruct A as [A _].
    apply andb_true_iff in A. destruct A as [_ A].
    apply Bool.eqb_prop in A. exact A.
  - intros c Hc. rewrite HN. specialize (A c Hc).
    apply andb_true_iff in A. destruct A as [_ A].
    apply Bool.eqb_prop in A. exact A.
Qed.

(** With the tables pinned, the normalizer filters by them. *)
Lemma normalize_unicode
    (toLowerCase : jsstring -> jsstring) (isLetter isNumber : codepoint -> bool) :
  unicodeRuntime toLowerCase isLetter isNumber ->
  forall s,
    normalize toLowerCase isLetter isNumber s =
    filter (fun c => unicode_isLetter c || unicode_isNumber c) (toLowerCase s).
Proof.
  intros (_ & HL & HN) s. unfold normalize. apply filter_ext.
  intros c. rewrite HL, HN. reflexivity.
Qed.

Lemma normalize_no_sigma
    (toLowerCase : jsstring -> jsstring) (isLetter isNumber : codepoint -> bool) :
  unicodeRuntime toLowerCase isLetter isNumber ->
  forall s, ~ In 931%N s ->
    normalize toLowerCase isLetter isNumber s =
    flat_map (fun c => filter (fun d => unicode_isLetter d || unicode_isNumber d)
                              (unicode_lower c)) s.
Proof.
  intros H s Hn. rewrite (normalize_unicode H).
  destruct H as (Hl & _). rewrite (@lowering_no_sigma toLowerCase Hl s Hn).
  unfold tableLowerCase. apply filter_flat_map.
Qed.

(** Claim C6.  The normalizer, in a runtime with the tables of Unicode.
    [normalize s] is the lowercased [s] with exactly the characters that
    are neither a letter (general category L) nor a number (general
    category N: decimal digits, letter numbers and other numbers such as
    fractions) deleted, in every script; where [s] has no capital sigma
    this is, character by character, the lowercase mapping of the tables
    with the same deletion.  The empty string normalizes to the empty
    string; on an ASCII string what is left is lowercase letters and
    digits.  Cyrillic, Japanese and accented words keep their letters; a
    capital I with a dot above becomes a plain i; a Roman numeral, an
    Arabic-Indic digit and the fraction one half are kept; a capital
    sigma at the end of a word becomes one of the two small sigmas. *)
Theorem C6_normalize
    (toLowerCase : jsstring -> jsstring) (isLetter isNumber : codepoint -> bool) :
  unicodeRuntime toLowerCase isLetter isNumber ->
  (forall s,
      normalize toLowerCase isLetter isNumber s =
      filter (fun c => unicode_isLetter c || unicode_isNumber c) (toLowerCase s)) /\
  (forall s,
      ~ In 931%N s ->
      normalize toLowerCase isLetter isNumber s =
      flat_map (fun c => filter (fun d => unicode_isLetter d || unicode_isNumber d)
                                (unicode_lower c)) s) /\
  (forall s c,
      In c (normalize toLowerCase isLetter isNumber s) <->
      In c (toLowerCase s) /\
      (unicode_isLetter c = true \/ unicode_isNumber c = true)) /\
  normalize toLowerCase isLetter isNumber [] = [] /\
  (forall s,
      forallb isAscii s = true ->
      forallb isLowerAlnum (normalize toLowerCase isLetter isNumber s) = true) /\
  normalize toLowerCase isLetter isNumber (js "Don't Stop, 2Night!")
  = js "dontstop2night" /\
  normalize toLowerCase isLetter isNumber text_cyrillic
  = [1087; 1088; 1080; 1074; 1077; 1090; 1084; 1080; 1088]%N /\
  normalize toLowerCase isLetter isNumber text_japanese
  = [12371; 12435; 12395; 12385; 12399; 19990; 30028]%N /\
  normalize toLowerCase isLetter isNumber text_french
  = [233; 116; 233; 50; 48; 50; 52; 53; 189]%N /\
  normalize toLowerCase isLetter isNumber [cp_dotted_I] = [105%N] /\
  normalize toLowerCase isLetter isNumber [cp_roman_eight] = [8567%N] /\
  normalize toLowerCase isLetter isNumber [cp_arabic_three] = [cp_arabic_three] /\
  normalize toLowerCase isLetter isNumber [cp_one_half] = [cp_one_half] /\
  (normalize toLowerCase isLetter isNumber text_greek = [959; 948; 959; 963]%N \/
   normalize toLowerCase isLetter isNumber text_greek = [959; 948; 959; 962]%N).
Proof.
  intros H. pose proof (unicodeRuntime_asciiCompatible H) as Hc.
  pose proof (normalize_unicode H) as Hn.
  pose proof (normalize_no_sigma H) as Hs.
  assert (Hx : forall s r,
             forallb (fun c => negb (c =? 931)%N) s = true ->
             flat_map (fun c => filter (fun d => unicode_isLetter d || unicode_isNumber d)
                                       (unicode_lower c)) s = r ->
             normalize toLowerCase isLetter isNumber s = r).
  { intros s r Hf <-. apply Hs. intros Hin.
    rewrite forallb_forall in Hf. specialize (Hf _ Hin). discriminate Hf. }
  split; [exact Hn|]. split; [exact Hs|]. split.
  { intros s c. rewrite Hn, filter_In, orb_true_iff. tauto. }
  split; [apply Hx; reflexivity|]. split.
  { intros s Ha. rewrite (normalize_ascii _ Hc Ha).
    unfold normalize, ascii_toLowerCase. apply forallb_forall. intros c Hin.
    apply filter_In in Hin. destruct Hin as [Hin Hcat].
    apply in_map_iff in Hin. destruct Hin as (x & <- & _).
    apply lower_alnum. exact Hcat. }
  split; [apply Hx; vm_compute; reflexivity|].
  split; [apply Hx; vm_compute; reflexivity|].
  split; [apply Hx; vm_compute; reflexivity|].
  split; [apply Hx; vm_compute; reflexivity|].
  split; [apply Hx; vm_compute; reflexivity|].
  split; [apply Hx; vm_compute; reflexivity|].
  split; [apply Hx; vm_compute; reflexivity|].
  split; [apply Hx; vm_compute; reflexivity|].
  rewrite Hn. destruct H as (Hl & _).
  destruct (Hl text_greek) as (images & F & E). rewrite E.
  unfold text_greek in F.
  inversion F as [|c1 i1 s1 r1 L1 F1]; subst.
  inversion F1 as [|c2 i2 s2 r2 L2 F2]; subst.
  inversion F2 as [|c3 i3 s3 r3 L3 F3]; subst.
  inversion F3 as [|c4 i4 s4 r4 L4 F4]; subst.
  inversion F4; subst.
  destruct L1 as [->|[D _]]; [|discriminate D].
  destruct L2 as [->|[D _]]; [|discriminate D].
  destruct L3 as [->|[D _]]; [|discriminate D].
  destruct L4 as [->|[_ ->]]; [left | right]; vm_compute; reflexivity.
Qed.

(* ================================================================== *)
(** ** Time arithmetic *)
(* ================================================================== *)

Lemma Qfloor_add_Z (x : Q) (k : Z) : Qfloor (x + inject_Z k) = (Qfloor x + k)%Z.
Proof.
  destruct x as [n d]. unfold Qfloor, Qplus, inject_Z. cbn [Qnum Qden].
  rewrite Pos.mul_1_r, Z.mul_1_r. apply Z.div_add. discriminate.
Qed.

Lemma Qfloor_div_pos (x : Q) (p : positive) :
  Qfloor (x / inject_Z (Zpos p)) = (Qfloor x / Zpos p)%Z.
Proof.
  destruct x as [n d]. unfold Qfloor, Qdiv, Qmult, Qinv, inject_Z.
  cbn [Qnum Qden].
  rewrite Z.mul_1_r, Pos2Z.inj_mul. symmetry. apply Z.div_div; lia.
Qed.

(** On a non-negative time the quotient of [%] is a floor. *)
Lemma Qtrunc_div_pos (x : Q) (p : positive) :
  (0 <= x)%Q -> Qtrunc (x / inject_Z (Zpos p)) = (Qfloor x / Zpos p)%Z.
Proof.
  intros H. rewrite <- Qfloor_div_pos.
  destruct x as [n d]. unfold Qle in H. cbn [Qnum Qden] in H.
  unfold Qtrunc, Qfloor, Qdiv, Qmult, Qinv, inject_Z. cbn [Qnum Qden].
  apply Z.quot_div_nonneg; lia.
Qed.

Lemma js_rem_pos (x : Q) (p : positive) :
  (0 <= x)%Q ->
  (js_rem x (inject_Z (Zpos p)) ==
   x + inject_Z (- (Zpos p * (Qfloor x / Zpos p))))%Q.
Proof.
  intros H. unfold js_rem. rewrite (Qtrunc_div_pos p H).
  rewrite inject_Z_opp, inject_Z_mult. reflexivity.
Qed.

(** Whole units of a non-negative time within the next larger unit. *)
Lemma floor_rem_pos (x : Q) (p : positive) :
  (0 <= x)%Q ->
  Math_floor (js_rem x (inject_Z (Zpos p))) = (Qfloor x mod Zpos p)%Z.
Proof.
  intros H. unfold Math_floor. rewrite (js_rem_pos p H), Qfloor_add_Z.
  rewrite Z.mod_eq by discriminate. lia.
Qed.

(** The fraction of a non-negative time, in units of [1/p], truncated. *)
Lemma floor_fraction_pos (x : Q) (p : positive) :
  (0 <= x)%Q ->
  Math_floor (js_rem x 1 * inject_Z (Zpos p)) =
  (Qfloor (x * inject_Z (Zpos p)) mod Zpos p)%Z.
Proof.
  intros H. unfold Math_floor.
  change 1%Q with (inject_Z (Zpos 1)). rewrite (js_rem_pos 1 H).
  rewrite Z.div_1_r, Z.mul_1_l.
  assert (E : ((x + inject_Z (- Qfloor x)) * inject_Z (Zpos p) ==
               x * inject_Z (Zpos p) + inject_Z (- (Zpos p * Qfloor x)))%Q).
  { rewrite !inject_Z_opp, inject_Z_mult. ring. }
  rewrite E, Qfloor_add_Z.
  assert (F : (Qfloor (x * inject_Z (Zpos p)) / Zpos p)%Z = Qfloor x).
  { rewrite <- Qfloor_div_pos. apply Qfloor_comp.
    field. discriminate. }
  rewrite Z.mod_eq by discriminate. rewrite F. lia.
Qed.

Lemma Qfloor_nonneg (x : Q) : (0 <= x)%Q -> (0 <= Qfloor x)%Z.
Proof.
  intros H. change 0%Z with (Qfloor 0). apply Qfloor_resp_le. exact H.
Qed.

(* ================================================================== *)
(** ** Binary64 rounding *)
(* ================================================================== *)

Unset Implicit Arguments.
Local Open Scope Q_scope.

Lemma pow2_pos (e : Z) : 0 < pow2 e.
Proof. apply Qpower_0_lt. reflexivity. Qed.

Lemma pow2_add (a b : Z) : pow2 (a + b) == pow2 a * pow2 b.
Proof. apply Qpower_plus. discriminate. Qed.

Lemma pow2_le (a b : Z) : (a <= b)%Z -> pow2 a <= pow2 b.
Proof. intros H. apply Qpower_le_compat_l; [exact H | discriminate]. Qed.

Lemma pow2_lt (a b : Z) : (a < b)%Z -> pow2 a < pow2 b.
Proof. intros H. apply Qpower_lt_compat_l; [exact H | reflexivity]. Qed.

Lemma pow2_lt_inv (a b : Z) : pow2 a < pow2 b -> (a < b)%Z.
Proof. intros H. apply (Qpower_lt_compat_l_inv 2); [exact H | reflexivity]. Qed.

Lemma pow2_Z (e : Z) : (0 <= e)%Z -> pow2 e == inject_Z (2 ^ e).
Proof. intros H. unfold pow2. rewrite Zpower_Qpower by exact H. reflexivity. Qed.

Lemma pow2_cancel (e : Z) : pow2 e * pow2 (- e) == 1.
Proof. rewrite <- pow2_add, Z.add_opp_diag_r. reflexivity. Qed.

(** [inject_Z n] between two powers of two, from [Z.log2]. *)
Lemma log2_bounds (n : Z) :
  (0 < n)%Z ->
  pow2 (Z.log2 n) <= inject_Z n /\ inject_Z n < pow2 (Z.log2 n + 1).
Proof.
  intros H. destruct (Z.log2_spec n H) as [Hl Hu].
  pose proof (Z.log2_nonneg n) as Hn.
  rewrite !pow2_Z by lia. rewrite <- Zle_Qle, <- Zlt_Qlt.
  replace (Z.log2 n + 1)%Z with (Z.succ (Z.log2 n)) by lia. auto.
Qed.

Lemma Qlog2_spec (x : Q) :
  0 < x -> pow2 (Qlog2 x) <= x /\ x < pow2 (Qlog2 x + 1).
Proof.
  intros Hx. destruct x as [n d].
  assert (Hn : (0 < n)%Z).
  { unfold Qlt in Hx. cbn in Hx. lia. }
  destruct (log2_bounds n Hn) as [Hnl Hnu].
  destruct (log2_bounds (Zpos d) eq_refl) as [Hdl Hdu].
  assert (Hd0 : 0 < inject_Z (Zpos d)) by reflexivity.
  assert (Ex : n # d == inject_Z n / inject_Z (Zpos d)) by apply Qmake_Qdiv.
  unfold Qlog2. cbn [Qnum Qden].
  set (ln := Z.log2 n) in *. set (ld := Z.log2 (Zpos d)) in *.
  destruct (Qle_bool (pow2 (ln - ld)) (n # d)) eqn:E.
  - apply Qle_bool_iff in E. split; [exact E|].
    rewrite Ex. apply Qlt_shift_div_r; [exact Hd0|].
    apply Qlt_le_trans with (pow2 (ln + 1)); [exact Hnu|].
    replace (ln + 1)%Z with ((ln - ld + 1) + ld)%Z by lia.
    rewrite pow2_add. apply Qmult_le_l; [apply pow2_pos | exact Hdl].
  - split.
    + rewrite Ex. apply Qle_shift_div_l; [exact Hd0|].
      apply Qle_trans with (pow2 ln); [|exact Hnl].
      replace ln with ((ln - ld - 1) + (ld + 1))%Z at 2 by lia.
      rewrite pow2_add. apply Qmult_le_l; [apply pow2_pos|].
      apply Qlt_le_weak. exact Hdu.
    + replace (ln - ld - 1 + 1)%Z with (ln - ld)%Z by lia.
      apply Qnot_le_lt. intros H. apply Qle_bool_iff in H. congruence.
Qed.

Lemma Qlog2_unique (x : Q) (e : Z) :
  0 < x -> pow2 e <= x -> x < pow2 (e + 1) -> Qlog2 x = e.
Proof.
  intros Hx Hl Hu. destruct (Qlog2_spec x Hx) as [Sl Su].
  assert (H1 : (e < Qlog2 x + 1)%Z).
  { apply pow2_lt_inv. apply Qle_lt_trans with x; assumption. }
  assert (H2 : (Qlog2 x < e + 1)%Z).
  { apply pow2_lt_inv. apply Qle_lt_trans with x; assumption. }
  lia.
Qed.

Lemma Qlog2_comp (x y : Q) : x == y -> 0 < x -> Qlog2 x = Qlog2 y.
Proof.
  intros E Hx. assert (Hy : 0 < y) by (rewrite <- E; exact Hx).
  destruct (Qlog2_spec y Hy) as [Sl Su].
  apply Qlog2_unique; [exact Hx | rewrite E; exact Sl | rewrite E; exact Su].
Qed.

Lemma Qlog2_lt (x : Q) (b : Z) : 0 < x -> x < pow2 b -> (Qlog2 x < b)%Z.
Proof.
  intros Hx H. destruct (Qlog2_spec x Hx) as [Sl _].
  apply pow2_lt_inv. apply Qle_lt_trans with x; assumption.
Qed.

Lemma Qlog2_ge (x : Q) (b : Z) : 0 < x -> pow2 b <= x -> (b <= Qlog2 x)%Z.
Proof.
  intros Hx H. destruct (Qlog2_spec x Hx) as [_ Su].
  assert (K : (b < Qlog2 x + 1)%Z).
  { apply pow2_lt_inv. apply Qle_lt_trans with x; assumption. }
  lia.
Qed.

Lemma Qlog2_mono (x y : Q) : 0 < x -> x <= y -> (Qlog2 x <= Qlog2 y)%Z.
Proof.
  intros Hx H. assert (Hy : 0 < y) by (apply Qlt_le_trans with x; assumption).
  destruct (Qlog2_spec x Hx) as [Sl _].
  apply Qlog2_ge; [exact Hy|]. apply Qle_trans with x; assumption.
Qed.

Lemma quantum_bound (x : Q) (b : Z) :
  0 < x -> x < pow2 b -> (quantum x <= Z.max (b - 53) (-1074))%Z.
Proof.
  intros Hx H. pose proof (Qlog2_lt x b Hx H). unfold quantum. lia.
Qed.

Lemma quantum_mono (x y : Q) : 0 < x -> x <= y -> (quantum x <= quantum y)%Z.
Proof.
  intros Hx H. pose proof (Qlog2_mono x y Hx H). unfold quantum. lia.
Qed.

Lemma quantum_comp (x y : Q) : x == y -> 0 < x -> quantum x = quantum y.
Proof.
  intros E Hx. unfold quantum. rewrite (Qlog2_comp x y E Hx). reflexivity.
Qed.

(** Below [2 ^ (quantum x + 53)]. *)
Lemma below_quantum (x : Q) : 0 < x -> x < pow2 (quantum x + 53).
Proof.
  intros Hx. destruct (Qlog2_spec x Hx) as [_ Su].
  apply Qlt_le_trans with (pow2 (Qlog2 x + 1)); [exact Su|].
  apply pow2_le. unfold quantum. lia.
Qed.

(* nearest integer *)
Lemma Qfloor_bounds (y : Q) : inject_Z (Qfloor y) <= y /\ y < inject_Z (Qfloor y + 1).
Proof. split; [apply Qfloor_le | apply Qlt_floor]. Qed.

Lemma roundHalfEven_cases (y : Q) :
  roundHalfEven y = Qfloor y /\ y - inject_Z (Qfloor y) <= 1 # 2 \/
  roundHalfEven y = (Qfloor y + 1)%Z /\ (1 # 2) <= y - inject_Z (Qfloor y).
Proof.
  unfold roundHalfEven.
  destruct (Qcompare_spec (y - inject_Z (Qfloor y)) (1 # 2)) as [E|L|G].
  - destruct (Z.even (Qfloor y)).
    + left. split; [reflexivity | rewrite E; apply Qle_refl].
    + right. split; [reflexivity | rewrite E; apply Qle_refl].
  - left. split; [reflexivity | apply Qlt_le_weak; exact L].
  - right. split; [reflexivity | apply Qlt_le_weak; exact G].
Qed.

Lemma roundHalfEven_ge (y : Q) (j : Z) :
  inject_Z j <= y -> (j <= roundHalfEven y)%Z.
Proof.
  intros H. assert (K : (j <= Qfloor y)%Z).
  { rewrite <- (Qfloor_Z j). apply Qfloor_resp_le. exact H. }
  destruct (roundHalfEven_cases y) as [[-> _]|[-> _]]; lia.
Qed.

Lemma roundHalfEven_le (y : Q) (j : Z) :
  y <= inject_Z j -> (roundHalfEven y <= j)%Z.
Proof.
  intros H. destruct (Qfloor_bounds y) as [Fl Fu].
  destruct (roundHalfEven_cases y) as [[-> _]|[-> Hh]].
  - rewrite Zle_Qle. apply Qle_trans with y; assumption.
  - assert (K : inject_Z (Qfloor y) < inject_Z j).
    { apply Qlt_le_trans with y; [|exact H].
      apply Qlt_le_trans with (inject_Z (Qfloor y) + (1 # 2)).
      - rewrite <- (Qplus_0_r (inject_Z (Qfloor y))) at 1.
        apply Qplus_lt_r. reflexivity.
      - apply Qle_trans with ((y - inject_Z (Qfloor y)) + inject_Z (Qfloor y)).
        + rewrite Qplus_comm. apply Qplus_le_l. exact Hh.
        + apply Qle_lteq. right. ring. }
    rewrite <- Zlt_Qlt in K. lia.
Qed.

Lemma roundHalfEven_above (y : Q) : inject_Z (roundHalfEven y) <= y + (1 # 2).
Proof.
  destruct (Qfloor_bounds y) as [Fl Fu].
  destruct (roundHalfEven_cases y) as [[-> _]|[-> Hh]].
  - apply Qle_trans with y; [exact Fl|].
    rewrite <- (Qplus_0_r y) at 1. apply Qplus_le_r. discriminate.
  - rewrite inject_Z_plus.
    apply Qle_trans with (inject_Z (Qfloor y) + (y - inject_Z (Qfloor y)) + (1 # 2)).
    + setoid_replace (inject_Z 1) with ((1 # 2) + (1 # 2)) by reflexivity.
      rewrite Qplus_assoc. apply Qplus_le_l.
      apply Qplus_le_r. exact Hh.
    + apply Qle_lteq. right. ring.
Qed.

Lemma roundHalfEven_comp (x y : Q) : x == y -> roundHalfEven x = roundHalfEven y.
Proof.
  intros E. unfold roundHalfEven. rewrite (Qfloor_comp x y E).
  assert (C : (x - inject_Z (Qfloor y) ?= 1 # 2) = (y - inject_Z (Qfloor y) ?= 1 # 2)).
  { apply Qcompare_comp; [rewrite E; reflexivity | reflexivity]. }
  rewrite C. reflexivity.
Qed.

Lemma scaled (x r : Q) (j : Z) :
  r == inject_Z j * pow2 (quantum x) ->
  r / pow2 (quantum x) == inject_Z j.
Proof.
  intros E. rewrite E. field.
  intros H. pose proof (pow2_pos (quantum x)) as P. rewrite H in P.
  discriminate P.
Qed.

Lemma div_pow2_le (a b : Q) (e : Z) : a <= b -> a / pow2 e <= b / pow2 e.
Proof.
  intros H. apply Qmult_le_compat_r; [exact H|].
  apply Qinv_le_0_compat. apply Qlt_le_weak, pow2_pos.
Qed.

(** Rounding never crosses a point of the grid. *)
Lemma roundPos_grid (x r : Q) :
  onGrid x r ->
  (r <= x -> r <= roundPos x) /\ (x <= r -> roundPos x <= r).
Proof.
  intros (j & E). pose proof (scaled x r j E) as S.
  pose proof (pow2_pos (quantum x)) as P. unfold roundPos. split; intros H.
  - rewrite E. apply Qmult_le_compat_r; [|apply Qlt_le_weak; exact P].
    rewrite <- Zle_Qle. apply roundHalfEven_ge.
    rewrite <- S. apply div_pow2_le. exact H.
  - rewrite E. apply Qmult_le_compat_r; [|apply Qlt_le_weak; exact P].
    rewrite <- Zle_Qle. apply roundHalfEven_le.
    rewrite <- S. apply div_pow2_le. exact H.
Qed.

Lemma onGrid_pow2 (x : Q) (j c : Z) :
  (quantum x <= c)%Z -> onGrid x (inject_Z j * pow2 c).
Proof.
  intros H. exists (j * 2 ^ (c - quantum x))%Z.
  replace c with ((c - quantum x) + quantum x)%Z at 1 by lia.
  rewrite pow2_add, (pow2_Z (c - quantum x)) by lia.
  rewrite inject_Z_mult. ring.
Qed.

Lemma onGrid_Z (x : Q) (j : Z) : (quantum x <= 0)%Z -> onGrid x (inject_Z j).
Proof.
  intros H. destruct (onGrid_pow2 x j 0 H) as (i & E). exists i.
  rewrite <- E. change (pow2 0) with 1. ring.
Qed.

Lemma onGrid_comp (x r r' : Q) : r == r' -> onGrid x r -> onGrid x r'.
Proof. intros E (j & H). exists j. rewrite <- E. exact H. Qed.

(** The result is itself on the grid. *)
Lemma roundPos_onGrid (x : Q) : onGrid x (roundPos x).
Proof. eexists. unfold roundPos. reflexivity. Qed.

(** The relative error of a rounding to a normal number. *)
Lemma roundPos_above (x : Q) :
  pow2 (-1022) <= x -> roundPos x <= x + x * pow2 (-53).
Proof.
  intros Hn. assert (Hx : 0 < x).
  { apply Qlt_le_trans with (pow2 (-1022)); [apply pow2_pos | exact Hn]. }
  pose proof (Qlog2_ge x (-1022) Hx Hn) as Hl.
  assert (Eq : quantum x = (Qlog2 x - 52)%Z) by (unfold quantum; lia).
  pose proof (pow2_pos (quantum x)) as P.
  destruct (Qlog2_spec x Hx) as [Sl _].
  set (g := pow2 (quantum x)) in *.
  assert (Hy : pow2 52 <= x / g).
  { apply Qle_shift_div_l; [exact P|]. unfold g. rewrite <- pow2_add, Eq.
    replace (52 + (Qlog2 x - 52))%Z with (Qlog2 x) by lia. exact Sl. }
  unfold roundPos. fold g.
  apply Qle_trans with ((x / g + (1 # 2)) * g).
  - apply Qmult_le_compat_r; [apply roundHalfEven_above | apply Qlt_le_weak; exact P].
  - assert (Hh : (1 # 2) <= x / g * pow2 (-53)).
    { apply Qle_trans with (pow2 52 * pow2 (-53)).
      - rewrite <- pow2_add. apply Qle_refl.
      - apply Qmult_le_compat_r; [exact Hy | apply Qlt_le_weak, pow2_pos]. }
    apply Qle_trans with ((x / g + x / g * pow2 (-53)) * g).
    + apply Qmult_le_compat_r; [|apply Qlt_le_weak; exact P].
      apply Qplus_le_r. exact Hh.
    + apply Qle_lteq. right. field.
      intros H. rewrite H in P. discriminate P.
Qed.

Lemma roundPos_comp (x y : Q) : x == y -> 0 < x -> roundPos x = roundPos y.
Proof.
  intros E Hx. unfold roundPos. rewrite <- (quantum_comp x y E Hx).
  rewrite (roundHalfEven_comp (x / pow2 (quantum x)) (y / pow2 (quantum x)));
    [reflexivity | unfold Qdiv; apply Qmult_comp; [exact E | reflexivity]].
Qed.

Lemma round64_comp (x y : Q) : x == y -> round64 x = round64 y.
Proof.
  intros E. unfold round64.
  assert (C : (x ?= 0) = (y ?= 0)) by (apply Qcompare_comp; [exact E | reflexivity]).
  rewrite <- C. destruct (Qcompare_spec x 0) as [_|L|G].
  - reflexivity.
  - f_equal. apply roundPos_comp; [rewrite E; reflexivity|].
    rewrite <- (Qopp_involutive x) in L.
    apply Qopp_lt_compat in L. rewrite Qopp_involutive in L. exact L.
  - apply roundPos_comp; assumption.
Qed.

Lemma round64_pos (x : Q) : 0 < x -> round64 x = roundPos x.
Proof.
  intros H. unfold round64.
  destruct (Qcompare_spec x 0) as [E|L|G]; [| |reflexivity].
  - rewrite E in H. discriminate H.
  - exfalso. apply (Qlt_irrefl 0). apply Qlt_trans with x; assumption.
Qed.

Lemma round64_zero (x : Q) : x == 0 -> round64 x = 0.
Proof. intros E. rewrite (round64_comp x 0 E). reflexivity. Qed.

(** Rounding a non-negative number: integers and the like are not crossed. *)
Lemma round64_ge (x : Q) (j c : Z) :
  0 <= x -> x < pow2 (c + 53) -> (-1074 <= c)%Z ->
  inject_Z j * pow2 c <= x -> inject_Z j * pow2 c <= round64 x.
Proof.
  intros Hx Hb Hc H.
  destruct (Qle_lt_or_eq _ _ Hx) as [P|E].
  - rewrite (round64_pos x P).
    apply (roundPos_grid x (inject_Z j * pow2 c)); [|exact H].
    apply onGrid_pow2. pose proof (quantum_bound x (c + 53) P Hb). lia.
  - rewrite (round64_zero x (Qeq_sym _ _ E)). rewrite <- E in H. exact H.
Qed.

Lemma round64_le (x : Q) (j c : Z) :
  0 <= x -> x < pow2 (c + 53) -> (-1074 <= c)%Z ->
  x <= inject_Z j * pow2 c -> round64 x <= inject_Z j * pow2 c.
Proof.
  intros Hx Hb Hc H.
  destruct (Qle_lt_or_eq _ _ Hx) as [P|E].
  - rewrite (round64_pos x P).
    apply (roundPos_grid x (inject_Z j * pow2 c)); [|exact H].
    apply onGrid_pow2. pose proof (quantum_bound x (c + 53) P Hb). lia.
  - rewrite (round64_zero x (Qeq_sym _ _ E)). rewrite <- E in H. exact H.
Qed.

Lemma inject_Z_nonneg (n : Z) : (0 <= n)%Z -> 0 <= inject_Z n.
Proof. intros H. change (inject_Z 0 <= inject_Z n). rewrite <- Zle_Qle. exact H. Qed.

Lemma inject_Z_ge1 (n : Z) : (1 <= n)%Z -> 1 <= inject_Z n.
Proof. intros H. change (inject_Z 1 <= inject_Z n). rewrite <- Zle_Qle. exact H. Qed.

Lemma inject_Z_nonpos (n : Z) : (n <= 0)%Z -> inject_Z n <= 0.
Proof. intros H. change (inject_Z n <= inject_Z 0). rewrite <- Zle_Qle. exact H. Qed.

Lemma Qmult_le_l_nonneg (z x y : Q) : 0 <= z -> x <= y -> z * x <= z * y.
Proof.
  intros Hz H. rewrite (Qmult_comm z x), (Qmult_comm z y).
  apply Qmult_le_compat_r; assumption.
Qed.

Lemma inject_Z_sub (a b : Z) : inject_Z (a - b) == inject_Z a - inject_Z b.
Proof.
  unfold Z.sub. rewrite inject_Z_plus, inject_Z_opp. reflexivity.
Qed.

Lemma Qfloor_unique (r : Q) (k : Z) :
  inject_Z k <= r -> r < inject_Z (k + 1) -> Qfloor r = k.
Proof.
  intros Hl Hu. destruct (Qfloor_bounds r) as [Fl Fu].
  assert (H1 : (k < Qfloor r + 1)%Z).
  { rewrite Zlt_Qlt. apply Qle_lt_trans with r; assumption. }
  assert (H2 : (Qfloor r < k + 1)%Z).
  { rewrite Zlt_Qlt. apply Qle_lt_trans with r; assumption. }
  lia.
Qed.

Lemma round64_ge_Z (x : Q) (j : Z) :
  0 <= x -> x < pow2 53 -> inject_Z j <= x -> inject_Z j <= round64 x.
Proof.
  intros Hx Hb H.
  assert (E : inject_Z j == inject_Z j * pow2 0) by (change (pow2 0) with 1; ring).
  rewrite E. apply round64_ge; [exact Hx | exact Hb | lia | rewrite <- E; exact H].
Qed.

Lemma round64_le_Z (x : Q) (j : Z) :
  0 <= x -> x < pow2 53 -> x <= inject_Z j -> round64 x <= inject_Z j.
Proof.
  intros Hx Hb H.
  assert (E : inject_Z j == inject_Z j * pow2 0) by (change (pow2 0) with 1; ring).
  rewrite E. apply round64_le; [exact Hx | exact Hb | lia | rewrite <- E; exact H].
Qed.

Lemma round64_nonneg (x : Q) : 0 <= x -> 0 <= round64 x.
Proof.
  intros Hx. destruct (Qle_lt_or_eq _ _ Hx) as [P|E].
  - rewrite (round64_pos x P).
    apply (roundPos_grid x 0); [exists 0%Z; ring | exact Hx].
  - rewrite (round64_zero x (Qeq_sym _ _ E)). apply Qle_refl.
Qed.

(** Below one half the rounded value stays below one half. *)
Lemma round64_half (x : Q) : 0 <= x -> x <= 1 # 2 -> round64 x <= 1 # 2.
Proof.
  intros Hx H.
  assert (E : 1 # 2 == inject_Z 1 * pow2 (-1)) by reflexivity.
  rewrite E. apply round64_le; [exact Hx | | lia | rewrite <- E; exact H].
  apply Qle_lt_trans with (1 # 2); [exact H | reflexivity].
Qed.

Lemma isBinary64_comp (x y : Q) : x == y -> isBinary64 x -> isBinary64 y.
Proof.
  unfold isBinary64. intros E H. rewrite <- (round64_comp x y E), H. exact E.
Qed.

(** A multiple of [2^c] below [2^(c+53)] is a binary64 number. *)
Lemma isBinary64_grid (x : Q) (j c : Z) :
  x == inject_Z j * pow2 c -> 0 <= x -> x < pow2 (c + 53) -> (-1074 <= c)%Z ->
  isBinary64 x.
Proof.
  intros E Hx Hb Hc. unfold isBinary64.
  apply Qle_antisym.
  - rewrite E at 2. apply round64_le; [exact Hx | exact Hb | exact Hc|].
    rewrite E. apply Qle_refl.
  - rewrite E at 1. apply round64_ge; [exact Hx | exact Hb | exact Hc|].
    rewrite E. apply Qle_refl.
Qed.

Lemma binary64_grid (x : Q) :
  isBinary64 x -> 0 < x -> exists m, x == inject_Z m * pow2 (quantum x).
Proof.
  unfold isBinary64. intros E Hx. rewrite (round64_pos x Hx) in E.
  eexists. symmetry. exact E.
Qed.

Lemma isBinary64_Z (n : Z) : (0 <= n < 2 ^ 53)%Z -> isBinary64 (inject_Z n).
Proof.
  intros H. apply (isBinary64_grid (inject_Z n) n 0).
  - change (pow2 0) with 1. ring.
  - apply inject_Z_nonneg. lia.
  - change (0 + 53)%Z with 53%Z. rewrite pow2_Z by lia. rewrite <- Zlt_Qlt. lia.
  - lia.
Qed.

(** A positive multiple of a power of two is at least that power. *)
Lemma grid_gap (n q : Z) : 0 < inject_Z n * pow2 q -> pow2 q <= inject_Z n * pow2 q.
Proof.
  intros H. pose proof (pow2_pos q) as P.
  assert (Hn : (1 <= n)%Z).
  { destruct (Z_lt_le_dec 0 n) as [L|G]; [lia|]. exfalso.
    apply (Qlt_irrefl 0). apply Qlt_le_trans with (inject_Z n * pow2 q); [exact H|].
    rewrite <- (Qmult_0_l (pow2 q)).
    apply Qmult_le_compat_r; [|apply Qlt_le_weak; exact P].
    apply inject_Z_nonpos. exact G. }
  rewrite <- (Qmult_1_l (pow2 q)) at 1.
  apply Qmult_le_compat_r; [|apply Qlt_le_weak; exact P].
  apply inject_Z_ge1. exact Hn.
Qed.

(** An integer is a multiple of every power of two with a negative
    exponent. *)
Lemma Z_on_grid (k q : Z) :
  (q <= 0)%Z -> inject_Z k == inject_Z (k * 2 ^ (- q)) * pow2 q.
Proof.
  intros H. rewrite inject_Z_mult, <- pow2_Z by lia.
  rewrite <- Qmult_assoc, (Qmult_comm (pow2 (- q))), pow2_cancel. ring.
Qed.

(** Taking whole units off a binary64 number leaves a binary64 number. *)
Lemma binary64_sub_Z (x : Q) (k : Z) :
  isBinary64 x -> 0 <= x - inject_Z k -> x - inject_Z k <= x ->
  x - inject_Z k < pow2 53 -> isBinary64 (x - inject_Z k).
Proof.
  intros Hb Hl Hu H53.
  assert (Hx : 0 <= x) by (apply Qle_trans with (x - inject_Z k); assumption).
  destruct (Qle_lt_or_eq _ _ Hx) as [P|E].
  - destruct (binary64_grid x Hb P) as (m & Em).
    pose proof (below_quantum x P) as Hq.
    assert (Hq0 : (-1074 <= quantum x)%Z) by (unfold quantum; lia).
    destruct (Z_lt_le_dec (quantum x) 0) as [Neg|Pos].
    + apply (isBinary64_grid (x - inject_Z k) (m - k * 2 ^ (- quantum x)) (quantum x)).
      * rewrite inject_Z_sub.
        rewrite Em at 1. rewrite (Z_on_grid k (quantum x)) at 1 by lia. ring.
      * exact Hl.
      * apply Qle_lt_trans with x; assumption.
      * exact Hq0.
    + apply (isBinary64_grid (x - inject_Z k) (m * 2 ^ quantum x - k) 0).
      * rewrite inject_Z_sub, inject_Z_mult.
        rewrite <- pow2_Z by lia. rewrite Em at 1. change (pow2 0) with 1. ring.
      * exact Hl.
      * exact H53.
      * lia.
  - assert (Z0 : x - inject_Z k == 0).
    { apply Qle_antisym; [|exact Hl]. rewrite E. exact Hu. }
    apply (isBinary64_comp 0 (x - inject_Z k)); [symmetry; exact Z0 | reflexivity].
Qed.

(** The remainder of a non-negative binary64 number is one. *)
Lemma binary64_rem (x : Q) (p : positive) :
  isBinary64 x -> 0 <= x -> (Zpos p < 2 ^ 53)%Z ->
  isBinary64 (js_rem x (inject_Z (Zpos p))) /\
  0 <= js_rem x (inject_Z (Zpos p)) /\
  js_rem x (inject_Z (Zpos p)) < inject_Z (Zpos p).
Proof.
  intros Hb Hx Hp. pose proof (Qfloor_nonneg Hx) as F.
  destruct (Qfloor_bounds x) as [Fl Fu].
  set (k := (Zpos p * (Qfloor x / Zpos p))%Z).
  assert (E : js_rem x (inject_Z (Zpos p)) == x - inject_Z k).
  { rewrite (js_rem_pos p Hx). fold k. rewrite inject_Z_opp. reflexivity. }
  assert (Hk : (0 <= k <= Qfloor x)%Z).
  { unfold k. split; [apply Z.mul_nonneg_nonneg; [lia | apply Z.div_pos; lia]|].
    apply Z.mul_div_le. lia. }
  assert (Hm : (Qfloor x + 1 <= k + Zpos p)%Z).
  { unfold k. pose proof (Z.mod_pos_bound (Qfloor x) (Zpos p) eq_refl).
    rewrite Z.mod_eq in H by discriminate. lia. }
  assert (L : 0 <= x - inject_Z k).
  { apply Qle_trans with (x - inject_Z (Qfloor x)).
    - rewrite <- (Qplus_opp_r (inject_Z (Qfloor x))).
      apply Qplus_le_l. exact Fl.
    - apply Qplus_le_r. apply Qopp_le_compat. rewrite <- Zle_Qle. lia. }
  assert (U : x - inject_Z k < inject_Z (Zpos p)).
  { apply Qlt_le_trans with (inject_Z (Qfloor x + 1) - inject_Z k).
    - apply Qplus_lt_l. exact Fu.
    - rewrite <- inject_Z_sub, <- Zle_Qle. lia. }
  assert (U' : x - inject_Z k <= x).
  { rewrite <- (Qplus_0_r x) at 2. apply Qplus_le_r.
    change 0 with (- 0). apply Qopp_le_compat. apply inject_Z_nonneg. lia. }
  split; [|split].
  - apply (isBinary64_comp (x - inject_Z k)); [symmetry; exact E|].
    apply binary64_sub_Z; [exact Hb | exact L | exact U'|].
    apply Qlt_trans with (inject_Z (Zpos p)); [exact U|].
    rewrite pow2_Z by lia. rewrite <- Zlt_Qlt. exact Hp.
  - rewrite E. exact L.
  - rewrite E. exact U.
Qed.

(** The binary64 quotient by a small whole number has the floor of the
    exact quotient: rounding cannot reach the next whole number. *)
Lemma floor_fl_div (x : Q) (p : positive) :
  isBinary64 x -> 0 <= x -> x < pow2 53 -> (2 <= Zpos p <= 3600)%Z ->
  Qfloor (round64 (x / inject_Z (Zpos p))) = (Qfloor x / Zpos p)%Z.
Proof.
  intros Hb Hx H53 Hp. rewrite <- Qfloor_div_pos.
  set (P := inject_Z (Zpos p)).
  assert (HP : 0 < P) by reflexivity.
  assert (HP2 : 2 <= P).
  { unfold P. change (inject_Z 2 <= inject_Z (Zpos p)). rewrite <- Zle_Qle. lia. }
  set (y := x / P).
  assert (Hy : 0 <= y).
  { unfold y. apply Qle_shift_div_l; [exact HP|]. rewrite Qmult_0_l. exact Hx. }
  assert (Hyx : y <= x).
  { unfold y. apply Qle_shift_div_r; [exact HP|].
    rewrite <- (Qmult_1_r x) at 1. apply Qmult_le_l_nonneg; [exact Hx|].
    apply Qle_trans with 2; [discriminate | exact HP2]. }
  destruct (Qfloor_bounds y) as [Fl Fu].
  set (k := Qfloor y) in *.
  assert (Hk : (0 <= k)%Z) by (apply Qfloor_nonneg; exact Hy).
  apply Qfloor_unique.
  - apply round64_ge_Z; [exact Hy | apply Qle_lt_trans with x; assumption | exact Fl].
  - destruct (Qlt_le_dec x 1) as [Small|Big].
    + apply Qle_lt_trans with (1 # 2).
      * apply round64_half; [exact Hy|].
        unfold y. apply Qle_shift_div_r; [exact HP|].
        apply Qle_trans with 1; [apply Qlt_le_weak; exact Small|].
        apply Qle_trans with ((1 # 2) * 2); [discriminate|].
        apply Qmult_le_l_nonneg; [discriminate | exact HP2].
      * apply Qlt_le_trans with 1; [reflexivity|]. apply inject_Z_ge1. lia.
    + assert (Px : 0 < x) by (apply Qlt_le_trans with 1; [reflexivity | exact Big]).
      assert (Py : 0 < y).
      { unfold y. apply Qlt_shift_div_l; [exact HP|]. rewrite Qmult_0_l. exact Px. }
      destruct (binary64_grid x Hb Px) as (m & Em).
      pose proof (below_quantum x Px) as Hq.
      pose proof (quantum_bound x 53 Px H53) as Hq0.
      assert (Hq1 : (quantum x <= 0)%Z) by lia.
      set (q := quantum x) in *.
      (* the distance from [x] to the next multiple of [p] *)
      assert (Gap : pow2 q <= inject_Z (k + 1) * P - x).
      { assert (G : inject_Z (k + 1) * P - x ==
                    inject_Z ((k + 1) * Zpos p * 2 ^ (- q) - m) * pow2 q).
        { assert (Zg : inject_Z (k + 1) * P ==
                       inject_Z ((k + 1) * Zpos p * 2 ^ (- q)) * pow2 q).
          { rewrite <- (Z_on_grid ((k + 1) * Zpos p) q Hq1).
            rewrite inject_Z_mult. reflexivity. }
          rewrite inject_Z_sub, Zg. rewrite Em at 1. ring. }
        rewrite G. apply grid_gap. rewrite <- G.
        rewrite <- (Qplus_opp_r x). apply Qplus_lt_l.
        unfold y in Fu. apply Qlt_shift_div_l in Fu; [|exact HP].
        exact Fu. }
      assert (Err : x * pow2 (-53) < pow2 q).
      { apply Qlt_le_trans with (pow2 (q + 53) * pow2 (-53)).
        - apply Qmult_lt_compat_r; [apply pow2_pos | exact Hq].
        - rewrite <- pow2_add. replace (q + 53 + -53)%Z with q by lia.
          apply Qle_refl. }
      rewrite (round64_pos y Py).
      apply Qle_lt_trans with (y + y * pow2 (-53)).
      * apply roundPos_above.
        apply Qle_trans with (1 / P).
        -- apply Qle_shift_div_l; [exact HP|].
           apply Qle_trans with (pow2 (-1022) * inject_Z 3600).
           ++ apply Qmult_le_l_nonneg; [apply Qlt_le_weak, pow2_pos|].
              unfold P. rewrite <- Zle_Qle. lia.
           ++ vm_compute. discriminate.
        -- unfold y. apply Qmult_le_compat_r; [exact Big|].
           apply Qinv_le_0_compat. apply Qlt_le_weak. exact HP.
      * assert (S : y + y * pow2 (-53) == (x + x * pow2 (-53)) / P).
        { unfold y. field. intros Z0. rewrite Z0 in HP. discriminate HP. }
        rewrite S. apply Qlt_shift_div_r; [exact HP|].
        apply Qlt_le_trans with (x + pow2 q).
        -- apply Qplus_lt_r. exact Err.
        -- apply Qle_trans with (x + (inject_Z (k + 1) * P - x)).
           ++ apply Qplus_le_r. exact Gap.
           ++ apply Qle_lteq. right. ring.
Qed.

(** A binary64 number below one is at most [1 - 2^-53]. *)
Lemma binary64_below_one (f : Q) :
  isBinary64 f -> 0 <= f -> f < 1 -> f <= 1 - pow2 (-53).
Proof.
  intros Hb Hf H1.
  destruct (Qle_lt_or_eq _ _ Hf) as [P|E].
  - destruct (binary64_grid f Hb P) as (m & Em).
    pose proof (below_quantum f P) as Hq.
    pose proof (quantum_bound f 0 P H1) as Hq0.
    destruct (Z.eq_dec (quantum f) (-53)) as [Eq|Ne].
    + rewrite Eq in Em.
      assert (G : 1 - f == inject_Z (2 ^ 53 - m) * pow2 (-53)).
      { rewrite inject_Z_sub. rewrite Em at 1.
        rewrite <- (pow2_Z 53) by lia.
        assert (C : pow2 53 * pow2 (-53) == 1) by apply (pow2_cancel 53).
        rewrite <- C. ring. }
      assert (Gap : pow2 (-53) <= 1 - f).
      { rewrite G. apply grid_gap. rewrite <- G.
        rewrite <- (Qplus_opp_r f). apply Qplus_lt_l. exact H1. }
      apply Qle_trans with (1 - (1 - f)).
      * apply Qle_lteq. right. ring.
      * apply Qplus_le_r. apply Qopp_le_compat. exact Gap.
    + apply Qle_trans with (1 # 2); [|vm_compute; discriminate].
      apply Qlt_le_weak. apply Qlt_le_trans with (pow2 (quantum f + 53)); [exact Hq|].
      change (1 # 2) with (pow2 (-1)). apply pow2_le. lia.
  - rewrite <- E. vm_compute. discriminate.
Qed.

(** The binary64 product of a fraction and a whole number of units: the
    floor is the exact one, or one more when the product rounds up to a
    whole number, and it stays below the number of units. *)
Lemma floor_fl_scale (f : Q) (p : positive) :
  isBinary64 f -> 0 <= f -> f < 1 -> (Zpos p <= 1000)%Z ->
  let t := Qfloor (f * inject_Z (Zpos p)) in
  let r := Qfloor (round64 (f * inject_Z (Zpos p))) in
  (0 <= t)%Z /\ (r < Zpos p)%Z /\
  (r = t \/ r = (t + 1)%Z /\ round64 (f * inject_Z (Zpos p)) == inject_Z (t + 1)).
Proof.
  intros Hb Hf H1 Hp. cbv zeta.
  set (P := inject_Z (Zpos p)).
  assert (HP : 0 < P) by reflexivity.
  assert (HP3 : P <= 1000).
  { unfold P. change (inject_Z (Zpos p) <= inject_Z 1000). rewrite <- Zle_Qle. exact Hp. }
  set (y := f * P).
  assert (Hy : 0 <= y).
  { unfold y. apply Qmult_le_0_compat; [exact Hf | apply Qlt_le_weak; exact HP]. }
  assert (HyP : y <= (1 - pow2 (-53)) * P).
  { unfold y. apply Qmult_le_compat_r; [|apply Qlt_le_weak; exact HP].
    apply binary64_below_one; assumption. }
  assert (Hy53 : y < pow2 53).
  { apply Qle_lt_trans with ((1 - pow2 (-53)) * P); [exact HyP|].
    apply Qle_lt_trans with (1 * 1000); [|reflexivity].
    apply Qle_trans with (1 * P).
    - apply Qmult_le_compat_r; [vm_compute; discriminate | apply Qlt_le_weak; exact HP].
    - apply Qmult_le_l_nonneg; [discriminate | exact HP3]. }
  destruct (Qfloor_bounds y) as [Fl Fu].
  set (t := Qfloor y) in *.
  assert (Ht : (0 <= t)%Z) by (apply Qfloor_nonneg; exact Hy).
  assert (Rl : inject_Z t <= round64 y).
  { apply round64_ge_Z; [exact Hy | exact Hy53 | exact Fl]. }
  assert (Ru : round64 y <= inject_Z (t + 1)).
  { apply round64_le_Z; [exact Hy | exact Hy53 | apply Qlt_le_weak; exact Fu]. }
  assert (RP : round64 y < P).
  { destruct (Qlt_le_dec y (1 # 2)) as [Small|Big].
    - apply Qle_lt_trans with (1 # 2).
      + apply round64_half; [exact Hy | apply Qlt_le_weak; exact Small].
      + apply Qlt_le_trans with 1; [reflexivity|].
        unfold P. apply inject_Z_ge1. lia.
    - assert (Py : 0 < y) by (apply Qlt_le_trans with (1 # 2); [reflexivity | exact Big]).
      rewrite (round64_pos y Py).
      apply Qle_lt_trans with (y + y * pow2 (-53)).
      + apply roundPos_above. apply Qle_trans with (1 # 2); [|exact Big].
        vm_compute. discriminate.
      + apply Qle_lt_trans with
          ((1 - pow2 (-53)) * P + (1 - pow2 (-53)) * P * pow2 (-53)).
        * apply Qplus_le_compat; [exact HyP|].
          apply Qmult_le_compat_r; [exact HyP | apply Qlt_le_weak, pow2_pos].
        * assert (S : (1 - pow2 (-53)) * P + (1 - pow2 (-53)) * P * pow2 (-53) ==
                      P - P * (pow2 (-53) * pow2 (-53))) by ring.
          rewrite S. set (c := P * (pow2 (-53) * pow2 (-53))).
          assert (Hc : 0 < c).
          { unfold c. apply Qmult_lt_0_compat; [exact HP|].
            apply Qmult_lt_0_compat; apply pow2_pos. }
          apply (proj1 (Qplus_lt_l (P - c) P c)).
          setoid_replace (P - c + c) with (P + 0) by ring.
          apply (proj2 (Qplus_lt_r 0 c P)). exact Hc. }
  destruct (Qfloor_bounds (round64 y)) as [Gl Gu].
  set (r := Qfloor (round64 y)) in *.
  assert (Hr1 : (t <= r)%Z).
  { assert (L : (t < r + 1)%Z); [|lia].
    rewrite Zlt_Qlt. apply Qle_lt_trans with (round64 y); assumption. }
  assert (Hr2 : (r <= t + 1)%Z).
  { rewrite Zle_Qle. apply Qle_trans with (round64 y); assumption. }
  assert (Hr3 : (r < Zpos p)%Z).
  { rewrite Zlt_Qlt. apply Qle_lt_trans with (round64 y); [exact Gl | exact RP]. }
  split; [exact Ht|]. split; [exact Hr3|].
  destruct (Z.eq_dec r t) as [E|N]; [left; exact E|].
  right. assert (E : r = (t + 1)%Z) by lia. split; [exact E|].
  apply Qle_antisym; [exact Ru|]. rewrite <- E. exact Gl.
Qed.

(** The rounding on numbers whose binary64 neighbours are known: decimal
    literals, a tie between two integers above 2^53 in both directions,
    a tie among the subnormal numbers and a number that rounds to zero. *)
Example round64_examples :
  num 1 10 == 3602879701896397 # 36028797018963968 /\
  num 82 10 == 2308094809027379 # 281474976710656 /\
  num 35 100 == 3152519739159347 # 9007199254740992 /\
  num 65256 1000 == 2295991385028821 # 35184372088832 /\
  num 113 100 == 1272266894732165 # 1125899906842624 /\
  round64 (inject_Z (2 ^ 53 + 1)) == inject_Z (2 ^ 53) /\
  round64 (inject_Z (2 ^ 53 + 3)) == inject_Z (2 ^ 53 + 4) /\
  round64 (- (1 # 10)) == - num 1 10 /\
  round64 (3 * pow2 (-1075)) == pow2 (-1073) /\
  round64 (pow2 (-1075)) == 0 /\
  isBinary64 (1 # 2) /\ ~ isBinary64 (1 # 10).
Proof. vm_compute. repeat split; discriminate. Qed.

(** *** The fraction of a time *)

Lemma fraction_bounds (seconds : Q) :
  0 <= fraction seconds /\ fraction seconds < 1.
Proof.
  destruct (Qfloor_bounds seconds) as [Fl Fu]. unfold fraction. split.
  - rewrite <- (Qplus_opp_r (inject_Z (Qfloor seconds))).
    apply Qplus_le_l. exact Fl.
  - apply Qlt_le_trans with
      (inject_Z (Qfloor seconds + 1) - inject_Z (Qfloor seconds)).
    + apply Qplus_lt_l. exact Fu.
    + rewrite <- inject_Z_sub.
      replace (Qfloor seconds + 1 - Qfloor seconds)%Z with 1%Z by lia.
      apply Qle_refl.
Qed.

Lemma fraction_rem (seconds : Q) :
  0 <= seconds -> js_rem seconds 1 == fraction seconds.
Proof.
  intros H. change 1 with (inject_Z (Zpos 1)). rewrite (js_rem_pos 1 H).
  rewrite Z.div_1_r, Z.mul_1_l, inject_Z_opp. reflexivity.
Qed.

(** The fraction of a binary64 time is a binary64 number: the products
    the formats compute have one rounding only. *)
Lemma fraction_binary64 (seconds : Q) :
  isBinary64 seconds -> 0 <= seconds -> isBinary64 (fraction seconds).
Proof.
  intros Hb H.
  destruct (binary64_rem seconds 1 Hb H eq_refl) as (B & _ & _).
  apply (isBinary64_comp (js_rem seconds (inject_Z 1))); [|exact B].
  apply fraction_rem. exact H.
Qed.

(** The fraction that the editor computes, after the whole seconds of
    the remainder by sixty. *)
Lemma fraction_rem60 (seconds : Q) :
  0 <= seconds ->
  js_rem seconds 60 - inject_Z (Math_floor (js_rem seconds 60)) ==
  fraction seconds.
Proof.
  intros H. change 60 with (inject_Z (Zpos 60)).
  rewrite (floor_rem_pos 60 H), (js_rem_pos 60 H).
  rewrite Z.mod_eq by discriminate. unfold fraction.
  rewrite inject_Z_sub, inject_Z_opp. ring.
Qed.

(** The truncated fraction, in units of [1/p], as the stamps show it:
    the exact one, or one more when the binary64 product is the next
    whole number. *)
Lemma scaled_fraction (seconds : Q) (p : positive) :
  isBinary64 seconds -> 0 <= seconds -> (Zpos p <= 1000)%Z ->
  let t := Qfloor (fraction seconds * inject_Z (Zpos p)) in
  let r := Qfloor (mul64 (fraction seconds) (inject_Z (Zpos p))) in
  (0 <= t)%Z /\ (0 <= r < Zpos p)%Z /\
  (r = t \/
   r = (t + 1)%Z /\
   mul64 (fraction seconds) (inject_Z (Zpos p)) == inject_Z (t + 1)).
Proof.
  intros Hb H Hp. cbv zeta. destruct (fraction_bounds seconds) as [F0 F1].
  destruct (floor_fl_scale (fraction seconds) p
              (fraction_binary64 seconds Hb H) F0 F1 Hp) as (Ht & Hr & Hc).
  cbv zeta in Ht, Hr, Hc. unfold mul64.
  split; [exact Ht|]. split; [|exact Hc].
  split; [|exact Hr]. destruct Hc as [E|[E _]]; rewrite E; lia.
Qed.

Lemma Qfloor_below (x : Q) (n : Z) : x < inject_Z n -> (Qfloor x < n)%Z.
Proof.
  intros H. destruct (Qfloor_bounds x) as [Fl _].
  rewrite Zlt_Qlt. apply Qle_lt_trans with x; assumption.
Qed.

Lemma clockTime_whole (seconds : Q) :
  clockTime seconds -> (0 <= Qfloor seconds < 2 ^ 53)%Z.
Proof.
  intros (_ & H & H53). split; [apply Qfloor_nonneg; exact H|].
  apply Qfloor_below. rewrite <- pow2_Z by lia. exact H53.
Qed.

Lemma clockTime_Z (n : Z) : (0 <= n < 2 ^ 53)%Z -> clockTime (inject_Z n).
Proof.
  intros H. split; [apply isBinary64_Z; exact H|]. split.
  - apply inject_Z_nonneg. lia.
  - rewrite pow2_Z by lia. rewrite <- Zlt_Qlt. lia.
Qed.

Local Close Scope Q_scope.
Set Implicit Arguments.

(* ================================================================== *)
(** ** Decimal fields *)
(* ================================================================== *)

Lemma digits_length (fuel : nat) :
  forall n acc, length acc <= length (digits fuel n acc).
Proof.
  induction fuel as [|f IH]; intros n acc; cbn [digits]; [lia|].
  destruct (n <? 10)%Z; cbn [length]; [lia|].
  specialize (IH (n / 10)%Z (Z.to_N (48 + n mod 10) :: acc)).
  cbn [length] in IH. lia.
Qed.

Lemma digits_acc (fuel : nat) :
  forall n acc, digits fuel n acc = digits fuel n [] ++ acc.
Proof.
  induction fuel as [|f IH]; intros n acc; cbn [digits]; [reflexivity|].
  destruct (n <? 10)%Z; [reflexivity|].
  rewrite (IH _ (_ :: acc)), (IH _ [_]), <- app_assoc. reflexivity.
Qed.




Lemma fuel_enough (n : Z) :
  (0 <= n)%Z -> (n < 10 ^ Z.of_nat (S (Z.to_nat (Z.log2 n))))%Z.
Proof.
  intros H. rewrite Nat2Z.inj_succ, Z2Nat.id by apply Z.log2_nonneg.
  destruct (Z.eq_dec n 0) as [->|Hz]; [reflexivity|].
  assert (Hp : (0 < n)%Z) by lia.
  pose proof (Z.log2_spec n Hp) as [_ Hlt].
  pose proof (Z.log2_nonneg n) as Hl.
  assert (Hle : (2 ^ Z.succ (Z.log2 n) <= 10 ^ Z.succ (Z.log2 n))%Z)
    by (apply Z.pow_le_mono_l; lia).
  lia.
Qed.

(** The digits do not depend on the fuel, once it is enough. *)
Lemma digits_fuel (f1 : nat) :
  forall f2 n,
    0 < f1 -> 0 < f2 ->
    (0 <= n < 10 ^ Z.of_nat f1)%Z -> (n < 10 ^ Z.of_nat f2)%Z ->
    digits f1 n [] = digits f2 n [].
Proof.
  induction f1 as [|a IH]; intros f2 n H1 H2 Hn1 Hn2; [lia|].
  destruct f2 as [|b]; [lia|]. cbn [digits].
  destruct (Z.ltb_spec n 10) as [L|G]; [reflexivity|].
  rewrite (@digits_acc a (n / 10)%Z [_]), (@digits_acc b (n / 10)%Z [_]).
  f_equal.
  rewrite Nat2Z.inj_succ, Z.pow_succ_r in Hn1, Hn2 by lia.
  apply IH.
  - destruct a; [simpl in Hn1; lia | lia].
  - destruct b; [simpl in Hn2; lia | lia].
  - split; [apply Z.div_pos; lia | apply Z.div_lt_upper_bound; lia].
  - apply Z.div_lt_upper_bound; lia.
Qed.

Lemma digits_S (f : nat) (n : Z) (acc : jsstring) :
  digits (S f) n acc =
  if (n <? 10)%Z then Z.to_N (48 + n mod 10) :: acc
  else digits f (n / 10) (Z.to_N (48 + n mod 10) :: acc).
Proof. reflexivity. Qed.

Lemma decimal_step (n : Z) :
  (10 <= n)%Z ->
  decimal n = decimal (n / 10) ++ [Z.to_N (48 + n mod 10)].
Proof.
  intros H. unfold decimal. rewrite (digits_S (Z.to_nat (Z.log2 n)) n []).
  destruct (Z.ltb_spec n 10) as [L|_]; [lia|].
  rewrite (@digits_acc (Z.to_nat (Z.log2 n)) (n / 10)%Z [_]). f_equal.
  assert (Hn : (0 <= n)%Z) by lia.
  pose proof (fuel_enough Hn) as F.
  rewrite Nat2Z.inj_succ, Z.pow_succ_r in F by lia.
  assert (Hq : (0 <= n / 10)%Z) by (apply Z.div_pos; lia).
  assert (L3 : (3 <= Z.log2 n)%Z).
  { change 3%Z with (Z.log2 8). apply Z.log2_le_mono. lia. }
  apply digits_fuel.
  - lia.
  - lia.
  - split; [exact Hq | apply Z.div_lt_upper_bound; lia].
  - apply fuel_enough. exact Hq.
Qed.

Lemma decimal_times10 (m : Z) :
  (1 <= m)%Z -> decimal (m * 10) = decimal m ++ [48%N].
Proof.
  intros H. rewrite decimal_step by lia.
  rewrite Z.div_mul, Z.mod_mul by lia. reflexivity.
Qed.

Lemma decimal_scale (m : Z) (e : nat) :
  (1 <= m)%Z -> decimal (m * 10 ^ Z.of_nat e) = decimal m ++ repeat 48%N e.
Proof.
  intros H. induction e as [|e IH].
  - cbn [repeat]. rewrite Z.mul_1_r, app_nil_r. reflexivity.
  - rewrite Nat2Z.inj_succ, Z.pow_succ_r by lia.
    replace (m * (10 * 10 ^ Z.of_nat e))%Z with (m * 10 ^ Z.of_nat e * 10)%Z by lia.
    assert (P : (0 < 10 ^ Z.of_nat e)%Z) by (apply Z.pow_pos_nonneg; lia).
    rewrite decimal_times10 by nia.
    rewrite IH, <- app_assoc. f_equal.
    change (repeat 48%N e ++ [48%N]) with (repeat 48%N e ++ repeat 48%N 1).
    rewrite <- repeat_app. f_equal. lia.
Qed.

(** The number of digits. *)
Lemma decimal_length (f : nat) :
  forall n,
    (1 <= n < 10 ^ Z.of_nat f)%Z ->
    (10 ^ (Z.of_nat (length (decimal n)) - 1) <= n <
     10 ^ Z.of_nat (length (decimal n)))%Z.
Proof.
  induction f as [|f IH]; intros n Hn; [simpl in Hn; lia|].
  destruct (Z.ltb_spec n 10) as [L|G].
  - unfold decimal. cbn [digits].
    destruct (Z.ltb_spec n 10) as [_|G]; [|lia]. cbn. lia.
  - rewrite decimal_step by lia. rewrite length_app. cbn [length].
    rewrite Nat2Z.inj_succ, Z.pow_succ_r in Hn by lia.
    assert (Hq : (1 <= n / 10 < 10 ^ Z.of_nat f)%Z).
    { split; [apply Z.div_le_lower_bound; lia | apply Z.div_lt_upper_bound; lia]. }
    specialize (IH _ Hq). set (L := length (decimal (n / 10))) in *.
    assert (L1 : 1 <= L).
    { destruct L; [|lia]. simpl in IH. lia. }
    replace (Z.of_nat (L + 1) - 1)%Z with (Z.succ (Z.of_nat L - 1)) by lia.
    replace (Z.of_nat (L + 1)) with (Z.succ (Z.of_nat L)) by lia.
    rewrite !Z.pow_succ_r by lia.
    pose proof (Z.div_mod n 10 ltac:(lia)). pose proof (Z.mod_pos_bound n 10 ltac:(lia)).
    lia.
Qed.

Lemma readsBack_exact (n s e : Z) :
  (0 <= s * 10 ^ e < 2 ^ 53)%Z ->
  readsBack n s e = (s * 10 ^ e =? n)%Z.
Proof.
  intros H. unfold readsBack.
  pose proof (isBinary64_Z _ H) as B. unfold isBinary64 in B.
  destruct (Z.eqb_spec (s * 10 ^ e) n) as [E|N].
  - apply Qeq_bool_iff. rewrite B, E. reflexivity.
  - apply not_true_is_false. intros Q. apply Qeq_bool_iff in Q.
    rewrite B in Q. apply N. exact (proj1 (inject_Z_injective _ _) Q).
Qed.

Lemma readsBack_above (n s e : Z) :
  (0 <= n < 2 ^ 53)%Z -> (n < s * 10 ^ e)%Z -> (s * 10 ^ e < 2 ^ 54)%Z ->
  readsBack n s e = false.
Proof.
  intros Hn Ha Hb. unfold readsBack. set (v := (s * 10 ^ e)%Z) in *.
  clearbody v.
  apply not_true_is_false. intros Q. apply Qeq_bool_iff in Q.
  destruct (Z_lt_le_dec v (2 ^ 53)) as [L|G].
  - assert (Hv : (0 <= v < 2 ^ 53)%Z) by lia.
    pose proof (isBinary64_Z _ Hv) as B. unfold isBinary64 in B.
    rewrite B in Q. pose proof (proj1 (inject_Z_injective v n) Q). lia.
  - assert (R : (inject_Z 1 * pow2 53 <= round64 (inject_Z v))%Q).
    { apply round64_ge.
      - change (inject_Z 0 <= inject_Z v)%Q. rewrite <- Zle_Qle. lia.
      - apply Qlt_le_trans with (inject_Z (2 ^ 54)).
        + rewrite <- Zlt_Qlt. exact Hb.
        + vm_compute. discriminate.
      - lia.
      - apply Qle_trans with (inject_Z (2 ^ 53)); [vm_compute; discriminate|].
        rewrite <- Zle_Qle. exact G. }
    rewrite Q in R.
    assert (R' : (inject_Z (2 ^ 53) <= inject_Z n)%Q).
    { apply Qle_trans with (inject_Z 1 * pow2 53)%Q; [vm_compute; discriminate | exact R]. }
    rewrite <- Zle_Qle in R'. lia.
Qed.

Lemma shortest_exact (fuel : nat) :
  forall n D k,
    (1 <= n < 2 ^ 53)%Z -> (10 ^ (D - 1) <= n < 10 ^ D)%Z ->
    (1 <= k <= D)%Z -> Z.of_nat fuel = (D - k + 1)%Z ->
    exists e,
      (0 <= e <= D - k)%Z /\
      shortest fuel n D k = ((n / 10 ^ e)%Z, e) /\
      (n / 10 ^ e * 10 ^ e = n)%Z.
Proof.
  induction fuel as [|f IH]; intros n D k Hn HD Hk Hf; [lia|].
  cbn [shortest]. set (e := (D - k)%Z). set (s0 := (n / 10 ^ e)%Z).
  assert (He : (0 <= e)%Z) by (unfold e; lia).
  assert (Pe : (0 < 10 ^ e)%Z) by (apply Z.pow_pos_nonneg; lia).
  assert (E1 : (10 ^ e * 10 ^ (k - 1) = 10 ^ (D - 1))%Z).
  { rewrite <- Z.pow_add_r by lia. f_equal. unfold e. lia. }
  assert (E2 : (10 ^ e * 10 ^ k = 10 ^ D)%Z).
  { rewrite <- Z.pow_add_r by lia. f_equal. unfold e. lia. }
  assert (S1 : (10 ^ (k - 1) <= s0)%Z).
  { unfold s0. apply Z.div_le_lower_bound; lia. }
  assert (S2 : (s0 < 10 ^ k)%Z).
  { unfold s0. apply Z.div_lt_upper_bound; lia. }
  assert (S3 : (s0 * 10 ^ e <= n)%Z).
  { unfold s0. rewrite Z.mul_comm. apply Z.mul_div_le. lia. }
  assert (S4 : (n < (s0 + 1) * 10 ^ e)%Z).
  { unfold s0. pose proof (Z.div_mod n (10 ^ e) ltac:(lia)).
    pose proof (Z.mod_pos_bound n (10 ^ e) Pe). nia. }
  assert (S5 : (10 ^ e <= n)%Z).
  { apply Z.le_trans with (10 ^ (D - 1))%Z; [|lia].
    apply Z.pow_le_mono_r; unfold e; lia. }
  assert (P1 : (0 < 10 ^ (k - 1))%Z) by (apply Z.pow_pos_nonneg; lia).
  assert (O1 : readsBack n (s0 + 1) e = false).
  { apply readsBack_above; [lia | exact S4|].
    change (2 ^ 54)%Z with (2 * 2 ^ 53)%Z. nia. }
  assert (O0 : readsBack n s0 e = (s0 * 10 ^ e =? n)%Z).
  { apply readsBack_exact. nia. }
  rewrite O1, O0, andb_false_r.
  destruct (Z.leb_spec (10 ^ (k - 1)) s0) as [_|B]; [|lia].
  destruct (Z.leb_spec s0 (10 ^ k)) as [_|B]; [|lia].
  cbn [andb].
  destruct (Z.eqb_spec (s0 * 10 ^ e) n) as [Q|N].
  - exists e. split; [lia|]. split; [reflexivity | exact Q].
  - assert (e1 : (1 <= e)%Z).
    { destruct (Z.eq_dec e 0) as [Z0|]; [|lia]. exfalso. apply N.
      unfold s0. rewrite Z0. simpl. rewrite Z.div_1_r. lia. }
    destruct (IH n D (k + 1)%Z Hn HD) as (e' & B' & R' & Q').
    + unfold e in e1. lia.
    + lia.
    + exists e'. split; [lia|]. split; [exact R' | exact Q'].
Qed.

(** Below 2^53 the shortest digits that read back are all the digits. *)
Lemma shortestForm_decimal (n : Z) :
  (1 <= n < 2 ^ 53)%Z -> shortestForm n = decimal n.
Proof.
  intros Hn. unfold shortestForm.
  assert (F : (1 <= n < 10 ^ Z.of_nat 16)%Z) by (simpl; lia).
  pose proof (decimal_length 16 F) as HD.
  set (D := Z.of_nat (length (decimal n))) in *.
  assert (D16 : (1 <= D <= 16)%Z).
  { split.
    - unfold D. destruct (length (decimal n)); [simpl in HD; lia | lia].
    - destruct (Z_le_gt_dec D 16) as [L|G]; [exact L|]. exfalso.
      assert (M : (10 ^ 16 <= 10 ^ (D - 1))%Z) by (apply Z.pow_le_mono_r; lia).
      simpl in F. lia. }
  replace (Nat.min 17 (Z.to_nat D)) with (Z.to_nat D) by lia.
  destruct (@shortest_exact (Z.to_nat D) n D 1 Hn HD ltac:(lia) ltac:(lia))
    as (e & He & R & Q).
  rewrite R.
  assert (Pe : (0 < 10 ^ e)%Z) by (apply Z.pow_pos_nonneg; lia).
  assert (S1 : (1 <= n / 10 ^ e)%Z) by nia.
  assert (Sc : decimal n = decimal (n / 10 ^ e) ++ repeat 48%N (Z.to_nat e)).
  { pose proof (@decimal_scale (n / 10 ^ e)%Z (Z.to_nat e) S1) as Sc.
    rewrite Z2Nat.id, Q in Sc by lia. exact Sc. }
  assert (LN : (Z.of_nat (length (decimal (n / 10 ^ e))) + e = D)%Z).
  { unfold D. rewrite Sc, length_app, repeat_length. lia. }
  rewrite LN. destruct (Z.leb_spec D 21) as [_|B]; [|lia].
  symmetry. exact Sc.
Qed.

(** Below 2^53 [toString] writes all the digits. *)
Lemma Z_toString_decimal (n : Z) :
  (0 <= n < 2 ^ 53)%Z -> Z_toString n = decimal n.
Proof.
  intros H. unfold Z_toString, Z_toString_nonneg.
  destruct (Z.ltb_spec n 0) as [L|_]; [lia|].
  destruct (Z.eqb_spec n 0) as [->|N]; [reflexivity|].
  apply shortestForm_decimal. lia.
Qed.


(** From 2^53 on the digits are the shortest that read back, and from
    1e21 on the notation has an exponent: 2^60, 1e21 - 2^17, 1e21, the
    binary64 number nearest to 1e23, 1.5e22 and 2^80. *)
Example Z_toString_examples :
  Z_toString 0 = js "0" /\ Z_toString 3661 = js "3661" /\
  Z_toString (-50) = js "-50" /\ Z_toString 1000000 = js "1000000" /\
  Z_toString 9007199254740991 = js "9007199254740991" /\
  Z_toString 1152921504606846976 = js "1152921504606847000" /\
  Z_toString 999999999999999868928 = js "999999999999999900000" /\
  Z_toString 1000000000000000000000 = js "1e+21" /\
  Z_toString 99999999999999991611392 = js "1e+23" /\
  Z_toString 15000000000000000000000 = js "1.5e+22" /\
  Z_toString 1208925819614629174706176 = js "1.2089258196146292e+24" /\
  Z_toString (-1000000000000000000000) = js "-1e+21".
Proof. vm_compute. repeat split. Qed.

Lemma Z_toString_long (n : Z) :
  (10 <= n < 2 ^ 53)%Z -> 2 <= length (Z_toString n).
Proof.
  intros H. rewrite Z_toString_decimal by lia. unfold decimal.
  assert (L : (3 <= Z.log2 n)%Z).
  { change 3%Z with (Z.log2 8). apply Z.log2_le_mono. lia. }
  destruct (Z.to_nat (Z.log2 n)) as [|f] eqn:F; [lia|].
  cbn [digits]. destruct (n <? 10)%Z eqn:G; [apply Z.ltb_lt in G; lia|].
  destruct (n / 10 <? 10)%Z; cbn [length].
  - lia.
  - match goal with |- _ <= length (digits ?f ?m ?acc) =>
      pose proof (digits_length f m acc) as D end.
    cbn [length] in D. lia.
Qed.

Lemma small_fields_all : forallb small_fields_ok (seq 0 1000) = true.
Proof. vm_compute. reflexivity. Qed.

Lemma small_field (d : Z) :
  (0 <= d < 1000)%Z -> small_fields_ok (Z.to_nat d) = true.
Proof.
  intros H. pose proof small_fields_all as A. rewrite forallb_forall in A.
  apply A. apply in_seq. lia.
Qed.


Lemma pad2_small (d : Z) :
  (0 <= d < 100)%Z -> padStart0 2 (Z_toString d) = twoDigits d.
Proof.
  intros H. assert (H' : (0 <= d < 1000)%Z) by lia.
  pose proof (small_field H') as A. unfold small_fields_ok in A.
  rewrite Z2Nat.id in A by lia.
  apply andb_true_iff in A. destruct A as [A _].
  apply andb_true_iff in A. destruct A as [_ A].
  destruct (Nat.ltb_spec (Z.to_nat d) 100) as [_|L]; [|lia].
  apply str_eqb_eq. exact A.
Qed.

Lemma pad2_count (n : Z) :
  (0 <= n < 2 ^ 53)%Z -> padStart0 2 (Z_toString n) = zeroPad2 n.
Proof.
  intros H. unfold zeroPad2. destruct (Z.ltb_spec n 10) as [L|L].
  - assert (H' : (0 <= n < 1000)%Z) by lia.
    pose proof (small_field H') as A. unfold small_fields_ok in A.
    rewrite Z2Nat.id in A by lia.
    apply andb_true_iff in A. destruct A as [_ A].
    destruct (Nat.ltb_spec (Z.to_nat n) 10) as [_|G]; [|lia].
    apply str_eqb_eq. exact A.
  - assert (L' : (10 <= n < 2 ^ 53)%Z) by lia.
    pose proof (Z_toString_long L') as G. unfold padStart0.
    replace (2 - length (Z_toString n)) with 0 by lia. reflexivity.
Qed.



(** The fields of the two stamps of a binary64 time that is not
    negative and lies below 2^53 seconds. *)
Lemma formatLrcTime_fields (seconds : Q) :
  clockTime seconds ->
  formatLrcTime seconds =
  lrcStamp (Qfloor seconds / 60) (Qfloor seconds mod 60)
           (Qfloor (mul64 (fraction seconds) 100)).
Proof.
  intros C. pose proof (clockTime_whole seconds C) as F.
  destruct C as (Hb & H & H53).
  assert (E : mul64 (js_rem seconds 1) 100 = mul64 (fraction seconds) 100).
  { unfold mul64. apply round64_comp. rewrite (fraction_rem seconds H).
    reflexivity. }
  destruct (scaled_fraction seconds 100 Hb H ltac:(lia)) as (_ & Hr & _).
  cbv zeta in Hr. change (inject_Z 100) with 100%Q in Hr.
  unfold formatLrcTime, lrcStamp, div64. rewrite E.
  change 60%Q with (inject_Z (Zpos 60)).
  rewrite (floor_rem_pos 60 H).
  unfold Math_floor. rewrite (floor_fl_div seconds 60 Hb H H53) by lia.
  rewrite pad2_count
    by (split; [apply Z.div_pos; lia | apply Z.div_lt_upper_bound; lia]).
  rewrite pad2_small by mod_bound.
  rewrite pad2_small by lia.
  reflexivity.
Qed.


(* ================================================================== *)
(** ** The serializers *)
(* ================================================================== *)


Lemma mapi_from_length (A B : Type) (f : A -> nat -> B) (xs : list A) :
  forall i, length (mapi_from f i xs) = length xs.
Proof.
  induction xs as [|x r IH]; intros i; simpl; [reflexivity | rewrite IH; reflexivity].
Qed.

(** The block count and the numbering do not depend on the times. *)
Lemma generateSRT_block_count (lines : list AlignedLine) :
  generateSRT lines = join [10%N] (mapi_from srtBlock 0 lines) /\
  length (mapi_from srtBlock 0 lines) = length lines.
Proof.
  split; [reflexivity | apply mapi_from_length].
Qed.





Example generateLRC_two_lines :
  generateLRC [mkLine (js "Hello") 0 1 []; mkLine (js "world") 1 (3 # 2) []]
  = js ("[00:00.00]Hello" ++ lf ++ "[00:01.00]world").
Proof. vm_compute. reflexivity. Qed.

Example generateSRT_two_lines :
  generateSRT [mkLine (js "Hello") 0 1 []; mkLine (js "world") 1 (3 # 2) []]
  = js ("1" ++ lf ++ "00:00:00,000 --> 00:00:01,000" ++ lf ++ "Hello" ++ lf ++
        lf ++
        "2" ++ lf ++ "00:00:01,000 --> 00:00:01,500" ++ lf ++ "world" ++ lf).
Proof. vm_compute. reflexivity. Qed.

(** The stamps of the decimal literals, as the code prints them: the
    binary64 number of 8.2 lies below 8.2 and shows 19 hundredths; that
    of 0.35 lies below 0.35 and shows 35; 1.13 shows 129 milliseconds;
    60 000 000 000 000 000 000 000 seconds are 1e+21 minutes. *)
Example stamps_of_literals :
  formatLrcTime (num 82 10) = js "[00:08.19]" /\
  formatLrcTime t_0_35 = js "[00:00.35]" /\
  formatSrtTime (num 113 100) = js "00:00:01,129" /\
  formatSrtTime t_0_009 = js "00:00:00,009" /\
  formatLrcTime 60000000000000000000000 = js "[1e+21:00.00]".
Proof. vm_compute. repeat split. Qed.



(* ================================================================== *)
(** ** Instances *)
(* ================================================================== *)

Lemma C2_fallback_witness :
  asciiCompatible ascii_toLowerCase ascii_isLetter ascii_isNumber /\
  alignLyrics ascii_toLowerCase ascii_isLetter ascii_isNumber
    (js "Zzz unmatched word") words_fallback
  = Ok [mkLine (js "Zzz unmatched word") 1 3 []].
Proof.
  split; [repeat split; reflexivity|].
  apply (@C2_fallback_on_second_token
           ascii_toLowerCase ascii_isLetter ascii_isNumber).
  repeat split; reflexivity.
Defined.


Lemma C4_start_before_end_witness :
  timeOrdered words_two_lines /\
  exists lines,
    alignLyrics ascii_toLowerCase ascii_isLetter ascii_isNumber
      text_two_lines words_two_lines = Ok lines /\
    Forall (fun l => (startTime l <= endTime l)%Q) lines.
Proof.
  assert (H : timeOrdered words_two_lines).
  { unfold timeOrdered, words_two_lines.
    repeat constructor; unfold Qle; simpl; lia. }
  split; [exact H|].
  apply (@C4_start_before_end ascii_toLowerCase ascii_isLetter ascii_isNumber
           text_two_lines words_two_lines H).
Defined.

Lemma C5_skipped_lines_witness :
  asciiCompatible ascii_toLowerCase ascii_isLetter ascii_isNumber /\
  alignLyrics ascii_toLowerCase ascii_isLetter ascii_isNumber
    text_chorus words_hello
  = Ok [mkLine (js "Hello world") 0 1 []].
Proof.
  split; [repeat split; reflexivity|].
  apply (@C5_skipped_lines ascii_toLowerCase ascii_isLetter ascii_isNumber).
  repeat split; reflexivity.
Defined.

Lemma C6_normalize_witness :
  unicodeRuntime tableLowerCase unicode_isLetter unicode_isNumber /\
  normalize tableLowerCase unicode_isLetter unicode_isNumber [] = [] /\
  normalize tableLowerCase unicode_isLetter unicode_isNumber text_cyrillic
  = [1087; 1088; 1080; 1074; 1077; 1090; 1084; 1080; 1088]%N.
Proof.
  split; [exact table_runtime|].
  destruct (@C6_normalize tableLowerCase unicode_isLetter unicode_isNumber
              table_runtime)
    as (_ & _ & _ & Hempty & _ & _ & Hexample & _).
  split; [exact Hempty | exact Hexample].
Defined.

(** The fraction one half is neither a letter nor a decimal digit, and
    the normalizer keeps it: what it keeps besides the letters is the
    whole category N, not the digits only. *)
Lemma C6_counterexample_one_half :
  unicode_isLetter cp_one_half = false /\
  unicode_isDecimalDigit cp_one_half = false /\
  unicode_isNumber cp_one_half = true /\
  normalize tableLowerCase unicode_isLetter unicode_isNumber [cp_one_half]
  = [cp_one_half] /\
  filter (fun c => unicode_isLetter c || unicode_isDecimalDigit c)
         (tableLowerCase [cp_one_half]) = [].
Proof. vm_compute. repeat split. Qed.

Lemma clockTime_65_256 : clockTime t_65_256.
Proof.
  split; [vm_compute; reflexivity|].
  split; [vm_compute; discriminate | vm_compute; reflexivity].
Qed.





(* ================================================================== *)
(** ** Song identifiers *)
(* ================================================================== *)

Lemma hexRun_split (n : nat) :
  forall s r,
    hexRun n s = Some r <->
    exists h, s = h ++ r /\ length h = n /\ forallb isHexDigit h = true.
Proof.
  induction n as [|n IH]; intros s r; cbn [hexRun].
  - split.
    + intros E. inversion E; subst. exists []. auto.
    + intros (h & -> & Hl & _). destruct h; [reflexivity | discriminate].
  - destruct s as [|c s'].
    + split; [discriminate|].
      intros (h & E & Hl & _). destruct h; discriminate.
    + destruct (isHexDigit c) eqn:Hc.
      * rewrite IH. split.
        -- intros (h & -> & Hl & Hh). exists (c :: h). cbn.
           rewrite Hc, Hh, Hl. auto.
        -- intros (h & E & Hl & Hh). destruct h as [|c' h]; [discriminate|].
           cbn in E, Hl, Hh. inversion E; subst.
           apply andb_true_iff in Hh. destruct Hh as [_ Hh].
           exists h. repeat split; [lia | exact Hh].
      * split; [discriminate|].
        intros (h & E & Hl & Hh). destruct h as [|c' h]; [discriminate|].
        cbn in E, Hh. inversion E; subst. rewrite Hc in Hh. discriminate.
Qed.

Lemma hexRunDash_split (n : nat) (s r : jsstring) :
  hexRunDash n s = Some r <->
  exists h, s = h ++ 45%N :: r /\ length h = n /\ forallb isHexDigit h = true.
Proof.
  unfold hexRunDash. destruct (hexRun n s) as [rest|] eqn:E.
  - apply hexRun_split in E. destruct E as (h & -> & Hl & Hh).
    split.
    + destruct rest as [|c rest']; [discriminate|].
      destruct (cp_eqb c 45%N) eqn:Ec; [|discriminate].
      apply N.eqb_eq in Ec. subst c. intros E; inversion E; subst.
      exists h. auto.
    + intros (h' & E & Hl' & Hh').
      assert (Hfirst : firstn n (h ++ rest) = firstn n (h' ++ 45%N :: r))
        by (rewrite E; reflexivity).
      assert (Hrest : skipn n (h ++ rest) = skipn n (h' ++ 45%N :: r))
        by (rewrite E; reflexivity).
      rewrite <- Hl in Hrest at 1. rewrite <- Hl' in Hrest at 1.
      rewrite !skipn_app, !skipn_all, !Nat.sub_diag in Hrest.
      cbn in Hrest. subst rest.
      unfold cp_eqb. rewrite N.eqb_refl. reflexivity.
  - split; [discriminate|].
    intros (h & -> & Hl & Hh).
    assert (X : hexRun n (h ++ 45%N :: r) = Some (45%N :: r))
      by (apply hexRun_split; exists h; auto).
    congruence.
Qed.

(** X1.  An identifier is accepted exactly when it is five runs of hex
    digits (either case) of lengths 8, 4, 4, 4 and 12 with one hyphen
    between two runs and nothing before or after; so it has 36
    characters. *)
Theorem X1_isValidUUID_shape (id : jsstring) :
  (isValidUUID id = true <->
   exists a b c d e,
     id = a ++ js "-" ++ b ++ js "-" ++ c ++ js "-" ++ d ++ js "-" ++ e /\
     length a = 8 /\ length b = 4 /\ length c = 4 /\ length d = 4 /\
     length e = 12 /\
     forallb isHexDigit (a ++ b ++ c ++ d ++ e) = true) /\
  (isValidUUID id = true -> length id = 36).
Proof.
  assert (Hiff :
    isValidUUID id = true <->
    exists a b c d e,
      id = a ++ js "-" ++ b ++ js "-" ++ c ++ js "-" ++ d ++ js "-" ++ e /\
      length a = 8 /\ length b = 4 /\ length c = 4 /\ length d = 4 /\
      length e = 12 /\
      forallb isHexDigit (a ++ b ++ c ++ d ++ e) = true).
  { change (js "-") with [45%N]. cbn [app]. unfold isValidUUID. split.
    - destruct (hexRunDash 8 id) as [r1|] eqn:E1; [|discriminate].
      destruct (hexRunDash 4 r1) as [r2|] eqn:E2; [|discriminate].
      destruct (hexRunDash 4 r2) as [r3|] eqn:E3; [|discriminate].
      destruct (hexRunDash 4 r3) as [r4|] eqn:E4; [|discriminate].
      destruct (hexRun 12 r4) as [[|x r5]|] eqn:E5; try discriminate.
      intros _.
      apply hexRunDash_split in E1, E2, E3, E4. apply hexRun_split in E5.
      destruct E1 as (a & -> & La & Ha). destruct E2 as (b & -> & Lb & Hb).
      destruct E3 as (c & -> & Lc & Hc). destruct E4 as (d & -> & Ld & Hd).
      destruct E5 as (e & -> & Le & He). rewrite app_nil_r.
      exists a, b, c, d, e. repeat split; try assumption.
      rewrite !forallb_app, Ha, Hb, Hc, Hd, He. reflexivity.
    - intros (a & b & c & d & e & -> & La & Lb & Lc & Ld & Le & Hh).
      rewrite !forallb_app in Hh.
      repeat (apply andb_true_iff in Hh; destruct Hh as [? Hh]).
      rewrite (proj2 (hexRunDash_split 8 _ _)) by (exists a; auto).
      rewrite (proj2 (hexRunDash_split 4 _ _)) by (exists b; auto).
      rewrite (proj2 (hexRunDash_split 4 _ _)) by (exists c; auto).
      rewrite (proj2 (hexRunDash_split 4 _ _)) by (exists d; auto).
      rewrite (proj2 (hexRun_split 12 e [])); [reflexivity|].
      exists e. rewrite app_nil_r. auto. }
  split; [exact Hiff|]. intros E.
  destruct (proj1 Hiff E)
    as (a & b & c & d & e & -> & La & Lb & Lc & Ld & Le & _).
  change (js "-") with [45%N]. rewrite !length_app. cbn [length]. lia.
Qed.

Lemma isValidUUID_length (id : jsstring) :
  isValidUUID id = true -> length id = 36.
Proof.
  intros H. unfold isValidUUID in H.
  destruct (hexRunDash 8 id) as [r1|] eqn:E1; [|discriminate].
  destruct (hexRunDash 4 r1) as [r2|] eqn:E2; [|discriminate].
  destruct (hexRunDash 4 r2) as [r3|] eqn:E3; [|discriminate].
  destruct (hexRunDash 4 r3) as [r4|] eqn:E4; [|discriminate].
  destruct (hexRun 12 r4) as [[|x r5]|] eqn:E5; try discriminate.
  apply hexRunDash_split in E1, E2, E3, E4. apply hexRun_split in E5.
  destruct E1 as (a & -> & La & _). destruct E2 as (b & -> & Lb & _).
  destruct E3 as (c & -> & Lc & _). destruct E4 as (d & -> & Ld & _).
  destruct E5 as (e & -> & Le & _).
  repeat first [rewrite length_app | progress cbn [length]]. lia.
Qed.

(** X2.  The check does not trim: one more character before or after an
    accepted identifier, a space or a line break from a paste included,
    makes it rejected. *)
Theorem X2_isValidUUID_no_padding (id : jsstring) (c : codepoint) :
  isValidUUID id = true ->
  isValidUUID (c :: id) = false /\ isValidUUID (id ++ [c]) = false.
Proof.
  intros H. apply isValidUUID_length in H. split.
  - destruct (isValidUUID (c :: id)) eqn:E; [|reflexivity].
    apply isValidUUID_length in E. cbn [length] in E. lia.
  - destruct (isValidUUID (id ++ [c])) eqn:E; [|reflexivity].
    apply isValidUUID_length in E. rewrite length_app in E. cbn [length] in E.
    lia.
Qed.

Lemma hexRun_map (f : codepoint -> codepoint) :
  (forall c, isHexDigit (f c) = isHexDigit c) ->
  forall n s, hexRun n (map f s) = option_map (map f) (hexRun n s).
Proof.
  intros Hf. induction n as [|n IH]; intros s; cbn [hexRun]; [reflexivity|].
  destruct s as [|c s']; cbn [map]; [reflexivity|].
  rewrite Hf. destruct (isHexDigit c); [apply IH | reflexivity].
Qed.

Lemma hexRunDash_map (f : codepoint -> codepoint) :
  (forall c, isHexDigit (f c) = isHexDigit c) ->
  (forall c, cp_eqb (f c) 45%N = cp_eqb c 45%N) ->
  forall n s, hexRunDash n (map f s) = option_map (map f) (hexRunDash n s).
Proof.
  intros Hf Hd n s. unfold hexRunDash. rewrite (hexRun_map f Hf).
  destruct (hexRun n s) as [[|c r]|]; cbn [option_map map]; try reflexivity.
  rewrite Hd. destruct (cp_eqb c 45%N); reflexivity.
Qed.

Lemma ascii_lower_hex (c : codepoint) :
  isHexDigit (ascii_lower c) = isHexDigit c.
Proof.
  unfold isHexDigit, ascii_lower.
  destruct (N.leb_spec 65 c), (N.leb_spec c 90); cbn [andb];
    repeat match goal with
           | |- context [(?a <=? ?b)%N] => destruct (N.leb_spec a b)
           end; cbn; try reflexivity; lia.
Qed.

Lemma ascii_lower_dash (c : codepoint) :
  cp_eqb (ascii_lower c) 45%N = cp_eqb c 45%N.
Proof.
  unfold cp_eqb, ascii_lower.
  destruct (N.leb_spec 65 c), (N.leb_spec c 90); cbn [andb]; try reflexivity.
  destruct (N.eqb_spec (c + 32) 45), (N.eqb_spec c 45); try reflexivity; lia.
Qed.

(** X3.  The check ignores the case of the letters: an identifier is
    accepted exactly when its lowercase form is. *)
Theorem X3_isValidUUID_case_insensitive (id : jsstring) :
  isValidUUID (map ascii_lower id) = isValidUUID id.
Proof.
  unfold isValidUUID.
  rewrite (hexRunDash_map ascii_lower ascii_lower_hex ascii_lower_dash).
  destruct (hexRunDash 8 id) as [r1|]; cbn [option_map]; [|reflexivity].
  rewrite (hexRunDash_map ascii_lower ascii_lower_hex ascii_lower_dash).
  destruct (hexRunDash 4 r1) as [r2|]; cbn [option_map]; [|reflexivity].
  rewrite (hexRunDash_map ascii_lower ascii_lower_hex ascii_lower_dash).
  destruct (hexRunDash 4 r2) as [r3|]; cbn [option_map]; [|reflexivity].
  rewrite (hexRunDash_map ascii_lower ascii_lower_hex ascii_lower_dash).
  destruct (hexRunDash 4 r3) as [r4|]; cbn [option_map]; [|reflexivity].
  rewrite (hexRun_map ascii_lower ascii_lower_hex).
  destruct (hexRun 12 r4) as [[|x r5]|]; reflexivity.
Qed.

Example isValidUUID_examples :
  isValidUUID (js "3F2504E0-4f89-11d3-9a0c-0305e82c3301") = true /\
  isValidUUID (js "3f2504e0-4f89-11d3-9a0c-0305e82c3301 ") = false /\
  isValidUUID (js "3f2504e04f8911d39a0c0305e82c3301") = false /\
  isValidUUID (js "") = false.
Proof. vm_compute. repeat split. Qed.

(* ================================================================== *)
(** ** Request URLs *)
(* ================================================================== *)

Lemma getBaseUrl_strips_one (p : jsstring) :
  getBaseUrl (Some (p ++ js "/")) = p.
Proof.
  change (js "/") with [47%N].
  assert (H : dropTrailingSlash (p ++ [47%N]) = p).
  { unfold dropTrailingSlash. rewrite rev_app_distr. cbn [rev app].
    change (cp_eqb 47%N 47%N) with true. cbv iota. apply rev_involutive. }
  destruct p as [|c r]; [reflexivity|]. exact H.
Qed.

Lemma getBaseUrl_keeps (p : jsstring) :
  p <> [] -> endsWith p 47%N = false -> getBaseUrl (Some p) = p.
Proof.
  intros Hp He. destruct p as [|c r]; [contradiction|].
  cbn [getBaseUrl]. unfold dropTrailingSlash.
  unfold endsWith, startsWith in He.
  destruct (rev (c :: r)) as [|x t]; [reflexivity|].
  rewrite He. reflexivity.
Qed.

(** X4.  Exactly one trailing slash is removed from a proxy URL: a URL
    that ends in two slashes keeps one, and the proxy URL "/" gives the
    empty base, not the default one. *)
Theorem X4_getBaseUrl_strips_one_slash :
  (forall p, getBaseUrl (Some (p ++ js "/")) = p) /\
  (forall p, getBaseUrl (Some (p ++ js "//")) = p ++ js "/") /\
  getBaseUrl (Some (js "/")) = [] /\
  getBaseUrl (Some []) = DEFAULT_BASE_URL.
Proof.
  split; [exact getBaseUrl_strips_one|]. split; [|split; reflexivity].
  intros p. change (js "//") with (js "/" ++ js "/").
  rewrite app_assoc. apply getBaseUrl_strips_one.
Qed.

(** X5.  For a non-empty proxy URL that does not end in a slash, writing
    it with a trailing slash changes neither request URL. *)
Theorem X5_trailing_slash_is_irrelevant (p songId : jsstring) :
  p <> [] -> endsWith p 47%N = false ->
  alignedLyricsUrl songId (Some (p ++ js "/")) =
  alignedLyricsUrl songId (Some p) /\
  clipMetadataUrl songId (Some (p ++ js "/")) =
  clipMetadataUrl songId (Some p) /\
  alignedLyricsUrl songId (Some p) =
  p ++ js "/gen/" ++ songId ++ js "/aligned_lyrics/v2".
Proof.
  intros Hp He. unfold alignedLyricsUrl, clipMetadataUrl.
  rewrite getBaseUrl_strips_one, (getBaseUrl_keeps Hp He). auto.
Qed.

(* ================================================================== *)
(** ** From the response body to the word list *)
(* ================================================================== *)

Lemma normalizeEntry_throws (w : json) :
  normalizeEntry w = TypeError <-> w = JNull.
Proof.
  destruct w; cbn; split; try discriminate; try reflexivity.
Qed.

Lemma mapEntries_throws (rawWords : list json) :
  mapEntries rawWords = TypeError <-> In JNull rawWords.
Proof.
  induction rawWords as [|w rest IH]; cbn [mapEntries In].
  - split; [discriminate | contradiction].
  - destruct (normalizeEntry w) as [e|] eqn:E; cbn [bind].
    + assert (Hw : w <> JNull).
      { intros ->. cbn in E. discriminate. }
      destruct (mapEntries rest) as [es|]; cbn [bind].
      * split; [discriminate|]. intros [H|H]; [congruence|].
        apply IH in H. discriminate.
      * split; [intros _; right; apply IH; reflexivity | reflexivity].
    + apply normalizeEntry_throws in E. split; [auto | reflexivity].
Qed.

(** An item that is not [null] is kept or left out as the contract
    says. *)
Lemma normalizeEntry_item (w : json) :
  w <> JNull ->
  exists e, normalizeEntry w = Ok e /\ keepEntry e = itemWord w.
Proof.
  intros Hw. destruct w as [|b|n|t|items|fields]; [contradiction | ..];
    eexists; (split; [reflexivity|]); reflexivity.
Qed.

Lemma normalizeWords_kept (rawWords : list json) :
  ~ In JNull rawWords -> normalizeWords rawWords = Ok (keptWords rawWords).
Proof.
  intros Hn.
  assert (M : exists es, mapEntries rawWords = Ok es /\
                         keepEntries es = keptWords rawWords).
  { induction rawWords as [|w rest IH]; [exists []; split; reflexivity|].
    destruct (@normalizeEntry_item w) as (e & Ee & Ke).
    { intros ->. apply Hn. left. reflexivity. }
    destruct IH as (es & Em & Ks).
    { intros H. apply Hn. right. exact H. }
    exists (e :: es). cbn [mapEntries]. rewrite Ee, Em. cbn [bind].
    split; [reflexivity|]. cbn [keepEntries keptWords].
    rewrite Ke, Ks. reflexivity. }
  destruct M as (es & Em & Ks). unfold normalizeWords.
  rewrite Em. cbn [bind]. rewrite Ks. reflexivity.
Qed.

Lemma numberOr_cases (a b : option json) (t : Q) :
  numberOr a b = Some t <->
  a = Some (JNum t) \/ ((forall n, a <> Some (JNum n)) /\ b = Some (JNum t)).
Proof.
  unfold numberOr, asNumber. split.
  - destruct a as [[| |n| | |]|];
      try (intros H; right; split; [intros n0; discriminate|];
           destruct b as [[| |m| | |]|]; try discriminate H;
           inversion H; reflexivity).
    intros H. inversion H. left. reflexivity.
  - intros [->|[Ha ->]]; [reflexivity|].
    destruct a as [[| |n| | |]|]; try reflexivity.
    exfalso. exact (Ha n eq_refl).
Qed.

(** X6.  A [null] among the items makes the whole normalization raise.
    Without one it returns the words of the items, in order, that are
    objects with a string [word] and a number at [start] or, failing
    that, at [start_s], each with that text and that start; every other
    item is left out, so there are never more words than items. *)
Theorem X6_normalizeWords_null_item (rawWords : list json) :
  (normalizeWords rawWords = TypeError <-> In JNull rawWords) /\
  (fetchedWords (JArr rawWords) = TypeError <-> In JNull rawWords) /\
  (~ In JNull rawWords -> normalizeWords rawWords = Ok (keptWords rawWords)) /\
  (forall w x,
      itemWord w = Some x <->
      exists fields,
        w = JObj fields /\
        lookupKey (js "word") fields = Some (JStr (f_word x)) /\
        (lookupKey (js "start") fields = Some (JNum (f_start x)) \/
         (forall n, lookupKey (js "start") fields <> Some (JNum n)) /\
         lookupKey (js "start_s") fields = Some (JNum (f_start x))) /\
        f_end x = numberOr (lookupKey (js "end") fields)
                           (lookupKey (js "end_s") fields) /\
        f_score x = nullish (lookupKey (js "score") fields)
                            (lookupKey (js "p_align") fields)) /\
  (forall ws, normalizeWords rawWords = Ok ws -> length ws <= length rawWords).
Proof.
  assert (H : normalizeWords rawWords = TypeError <-> In JNull rawWords).
  { unfold normalizeWords. rewrite <- mapEntries_throws.
    destruct (mapEntries rawWords); cbn [bind]; split;
      try discriminate; reflexivity. }
  split; [exact H|]. split; [exact H|].
  split; [apply normalizeWords_kept|]. split.
  - intros w x. split.
    + destruct w as [|b|n|t|items|fields]; try discriminate.
      cbn [itemWord].
      destruct (lookupKey (js "word") fields) as [[| | |t| |]|] eqn:Ew;
        try discriminate.
      destruct (numberOr (lookupKey (js "start") fields)
                         (lookupKey (js "start_s") fields)) as [t0|] eqn:Es;
        [|discriminate].
      intros E. inversion E; subst. cbn [f_word f_start f_end f_score].
      exists fields. split; [reflexivity|]. split; [exact Ew|].
      split; [apply numberOr_cases; exact Es|]. split; reflexivity.
    + intros (fields & -> & Ew & Es & Ee & Ec). cbn [itemWord].
      apply numberOr_cases in Es. rewrite Ew, Es.
      destruct x as [xw xs xe xc]. cbn [f_word f_start f_end f_score] in *.
      subst. reflexivity.
  - unfold normalizeWords. revert rawWords H.
    assert (K : forall es, length (keepEntries es) <= length es).
    { induction es as [|e es IH]; cbn [keepEntries length]; [lia|].
      destruct (keepEntry e); cbn [length]; lia. }
    assert (L : forall raw es, mapEntries raw = Ok es -> length es = length raw).
    { induction raw as [|w rest IH]; cbn [mapEntries]; intros es E.
      - inversion E; reflexivity.
      - destruct (normalizeEntry w); cbn [bind] in E; [|discriminate].
        destruct (mapEntries rest) as [es'|]; cbn [bind] in E; [|discriminate].
        inversion E; subst. cbn [length]. rewrite (IH es' eq_refl). reflexivity. }
    intros rawWords _ ws E.
    destruct (mapEntries rawWords) as [es|] eqn:M; cbn [bind] in E; [|discriminate].
    inversion E; subst. rewrite <- (L _ _ M). apply K.
Qed.

Lemma normalizeEntry_encodeWord (w : SunoWord) :
  normalizeEntry (encodeWord w) =
  Ok (mkEntry (Some (JStr (word w))) (Some (start w)) (Some (end_ w))
        (f_score (fetchedOf w))).
Proof.
  unfold encodeWord, fetchedOf, scoreField. destruct (score w); reflexivity.
Qed.

Lemma normalizeEntry_encodeWord_s (w : SunoWord) :
  normalizeEntry (encodeWord_s w) =
  Ok (mkEntry (Some (JStr (word w))) (Some (start w)) (Some (end_ w))
        (f_score (fetchedOf w))).
Proof.
  unfold encodeWord_s, fetchedOf, scoreField. destruct (score w); reflexivity.
Qed.

Lemma normalizeWords_of_entries (enc : SunoWord -> json) :
  (forall w, normalizeEntry (enc w) =
             Ok (mkEntry (Some (JStr (word w))) (Some (start w))
                   (Some (end_ w)) (f_score (fetchedOf w)))) ->
  forall ws, normalizeWords (map enc ws) = Ok (map fetchedOf ws).
Proof.
  intros H ws. unfold normalizeWords.
  assert (M : mapEntries (map enc ws) =
              Ok (map (fun w => mkEntry (Some (JStr (word w))) (Some (start w))
                                  (Some (end_ w)) (f_score (fetchedOf w))) ws)).
  { induction ws as [|w r IH]; cbn [map mapEntries]; [reflexivity|].
    rewrite H, IH. reflexivity. }
  rewrite M. cbn [bind]. f_equal. clear M.
  induction ws as [|w r IH]; cbn [map keepEntries]; [reflexivity|].
  unfold keepEntry at 1. cbn [e_word e_start e_end e_score].
  rewrite IH. reflexivity.
Qed.

(** X7.  Round trip.  A word list written as objects with [word], [start],
    [end] and, when there is one, [score] comes back as it was; written
    with [start_s], [end_s] and [p_align] it comes back the same. *)
Theorem X7_normalizeWords_round_trip (ws : list SunoWord) :
  fetchedWords (JArr (map encodeWord ws)) = Ok (map fetchedOf ws) /\
  fetchedWords (JArr (map encodeWord_s ws)) = Ok (map fetchedOf ws).
Proof.
  unfold fetchedWords. cbn [extractRawWords]. split.
  - apply normalizeWords_of_entries. exact normalizeEntry_encodeWord.
  - apply normalizeWords_of_entries. exact normalizeEntry_encodeWord_s.
Qed.

Lemma str_eqb_refl (a : jsstring) : str_eqb a a = true.
Proof. apply str_eqb_eq. reflexivity. Qed.

Lemma firstArrayAt_single (k : jsstring) (items : list json)
      (keys : list jsstring) :
  (In k keys -> firstArrayAt [(k, JArr items)] keys = items) /\
  (firstArrayAt [(k, JArr items)] keys = items \/
   firstArrayAt [(k, JArr items)] keys = []).
Proof.
  induction keys as [|key rest [IHin IHor]]; cbn [firstArrayAt In].
  - split; [contradiction | right; reflexivity].
  - cbn [lookupKey]. destruct (str_eqb k key) eqn:E; cbn [asArray].
    + split; [reflexivity | left; reflexivity].
    + split; [|exact IHor]. intros [->|H]; [|exact (IHin H)].
      rewrite str_eqb_refl in E. discriminate.
Qed.

(** X8.  An object with a single key that holds the item array yields
    that array when the key is one of the five known names, and also
    under any other name when the array's first item is an object with a
    [word] property. *)
Theorem X8_extract_from_single_key (k : jsstring) (items : list json) :
  In k potentialKeys \/
  (exists first rest, items = first :: rest /\ looksLikeWord first = true) ->
  extractRawWords (JObj [(k, JArr items)]) = items.
Proof.
  intros H. cbn [extractRawWords]. unfold rawWordsOfObject.
  destruct (firstArrayAt_single k items potentialKeys) as [Hin Hor].
  assert (Hduck : forall first rest,
             items = first :: rest -> looksLikeWord first = true ->
             duckScan [(k, JArr items)] [(k, JArr items)] = items).
  { intros first rest -> Hl. cbn [duckScan lookupKey].
    rewrite str_eqb_refl. cbn [asArray]. rewrite Hl. reflexivity. }
  destruct H as [H|(first & rest & E & Hl)].
  - rewrite (Hin H). destruct items as [|x r]; [|reflexivity].
    cbn [length Nat.eqb duckScan lookupKey]. rewrite str_eqb_refl. reflexivity.
  - destruct Hor as [->| ->].
    + rewrite E. cbn [length Nat.eqb]. reflexivity.
    + cbn [length Nat.eqb]. apply (Hduck first rest E Hl).
Qed.


(* ================================================================== *)
(** ** The application state *)
(* ================================================================== *)

(** X10.  [processData] ends in SUCCESS exactly when the prompt and the
    word list are both non-empty, and then the result holds the aligned
    lines with the LRC and SRT text generated from them, also when no line
    could be aligned; its alignment-error branch is never taken.  In the
    other cases the previous result and metadata are left as they were. *)
Theorem X10_processData_outcome
    (toLowerCase : jsstring -> jsstring) (isLetter isNumber : codepoint -> bool)
    (st : AppModel) (promptText : jsstring) (ws : list SunoWord)
    (meta : option SunoClipMetadata) :
  let st' := processData toLowerCase isLetter isNumber st promptText ws meta in
  (appState st' = SUCCESS <-> promptText <> [] /\ ws <> []) /\
  (appState st' = SUCCESS ->
   exists alignedLines,
     alignLyrics toLowerCase isLetter isNumber promptText ws = Ok alignedLines /\
     result_ st' =
     Some (mkResult alignedLines (generateLRC alignedLines)
             (generateSRT alignedLines)) /\
     errorMsg st' = errorMsg st) /\
  (appState st' <> SUCCESS ->
   appState st' = ERROR /\ result_ st' = result_ st /\
   metadata st' = metadata st /\
   errorMsg st' <>
   js "Error processing lyrics alignment. Check console for details.").
Proof.
  cbv zeta. unfold processData.
  destruct promptText as [|c p].
  - cbn. split; [|split].
    + split; [discriminate | intros [H _]; contradiction].
    + discriminate.
    + intros _. repeat split. vm_compute. discriminate.
  - destruct ws as [|w r].
    + cbn. split; [|split].
      * split; [discriminate | intros [_ H]; contradiction].
      * discriminate.
      * intros _. repeat split. vm_compute. discriminate.
    + destruct (alignLyrics_returns toLowerCase isLetter isNumber
                  (c :: p) (w :: r)) as (pushed & anchors & -> & _).
      cbn. split; [|split].
      * split; [intros _; split; discriminate | reflexivity].
      * intros _. eexists. repeat split.
      * intros H. contradiction.
Qed.

Lemma updated_lines (ls : list AlignedLine) (index : nat)
      (old new : AlignedLine) :
  nth_error ls index = Some old ->
  let ls' := firstn index ls ++ new :: skipn (S index) ls in
  length ls' = length ls /\
  nth_error ls' index = Some new /\
  (forall j, j <> index -> nth_error ls' j = nth_error ls j).
Proof.
  intros H. cbv zeta.
  assert (Hlt : index < length ls) by (apply nth_error_Some; congruence).
  assert (Hf : length (firstn index ls) = index)
    by (rewrite length_firstn; lia).
  split; [|split].
  - rewrite length_app, Hf. cbn [length]. rewrite length_skipn. lia.
  - rewrite nth_error_app2 by lia. rewrite Hf, Nat.sub_diag. reflexivity.
  - intros j Hj. destruct (Nat.lt_ge_cases j index) as [L|G].
    + rewrite nth_error_app1 by lia. rewrite nth_error_firstn.
      destruct (Nat.ltb_spec j index); [reflexivity | lia].
    + rewrite nth_error_app2 by lia. rewrite Hf.
      destruct (j - index) as [|k] eqn:E; [lia|]. cbn [nth_error].
      rewrite nth_error_skipn. f_equal. lia.
Qed.

(** X11.  [updateLine] at an index of the list replaces that line by the
    line with the given fields overwritten, leaves every other line and
    the number of lines as they were (so a new start time does not move
    the end time of the line before), and regenerates the LRC and SRT text
    from the new list; the state and the error message are not touched. *)
Theorem X11_updateLine_in_range (st : AppModel) (r : GenerationResult)
    (index : nat) (oldLine : AlignedLine) (changes : LineChanges) :
  result_ st = Some r ->
  nth_error (lines r) index = Some oldLine ->
  exists r',
    updateLine st index changes =
    Some (mkApp (appState st) (errorMsg st) (Some r') (metadata st)) /\
    length (lines r') = length (lines r) /\
    nth_error (lines r') index = Some (applyChanges oldLine changes) /\
    (forall j, j <> index -> nth_error (lines r') j = nth_error (lines r) j) /\
    lrcContent r' = generateLRC (lines r') /\
    srtContent r' = generateSRT (lines r').
Proof.
  intros Hr Hn. unfold updateLine. rewrite Hr, Hn.
  eexists. split; [reflexivity|]. cbn [lines lrcContent srtContent].
  destruct (updated_lines (lines r) index (applyChanges oldLine changes) Hn)
    as (Hl & Hi & Hj).
  repeat split; assumption.
Qed.

(** X12.  The LRC and SRT text of the result always match its lines:
    [processData] and [updateLine] keep that agreement, whatever branch
    they take. *)
Theorem X12_exports_stay_in_sync
    (toLowerCase : jsstring -> jsstring) (isLetter isNumber : codepoint -> bool)
    (st : AppModel) :
  exportsInSync st ->
  (forall promptText ws meta,
      exportsInSync
        (processData toLowerCase isLetter isNumber st promptText ws meta)) /\
  (forall index changes st',
      updateLine st index changes = Some st' -> exportsInSync st').
Proof.
  intros H. split.
  - intros promptText ws meta. unfold processData.
    destruct promptText as [|c p]; [exact H|].
    destruct ws as [|w r]; [exact H|].
    destruct (alignLyrics toLowerCase isLetter isNumber (c :: p) (w :: r));
      [|exact H].
    unfold exportsInSync. cbn. auto.
  - intros index changes st'. unfold updateLine.
    destruct (result_ st) as [r|] eqn:Er.
    + destruct (nth_error (lines r) index); [|discriminate].
      intros E. inversion E; subst. unfold exportsInSync. cbn. auto.
    + intros E. inversion E; subst. exact H.
Qed.

(* ================================================================== *)
(** ** The editor's time field *)
(* ================================================================== *)

Lemma Qfloor_half (x : Q) :
  (Qfloor x <= Qfloor (x + (1 # 2)) <= Qfloor x + 1)%Z.
Proof.
  split.
  - apply Qfloor_resp_le. rewrite <- (Qplus_0_r x) at 1.
    apply Qplus_le_r. discriminate.
  - rewrite <- Qfloor_add_Z. apply Qfloor_resp_le.
    apply Qplus_le_r. discriminate.
Qed.

(** The editor takes the fraction by a subtraction, which is exact, and
    so multiplies the same two numbers as the LRC stamp. *)
Lemma editor_product (seconds : Q) :
  isBinary64 seconds -> (0 <= seconds)%Q ->
  mul64 (sub64 (js_rem seconds 60)
               (inject_Z (Math_floor (js_rem seconds 60)))) 100
  = mul64 (fraction seconds) 100.
Proof.
  intros Hb H. unfold mul64, sub64. apply round64_comp.
  rewrite (round64_comp _ _ (fraction_rem60 seconds H)).
  pose proof (fraction_binary64 seconds Hb H) as B. unfold isBinary64 in B.
  rewrite B. reflexivity.
Qed.

(** The fields of the editor's time. *)
Lemma formatTimeForInput_fields (seconds : Q) :
  clockTime seconds ->
  let r := Math_round (mul64 (fraction seconds) 100) in
  formatTimeForInput seconds =
  zeroPad2 (Qfloor seconds / 60) ++ js ":" ++
  twoDigits (Qfloor seconds mod 60) ++ js "." ++
  (if (r <? 100)%Z then twoDigits r else js "100") /\
  (Qfloor (mul64 (fraction seconds) 100) <= r <=
   Qfloor (mul64 (fraction seconds) 100) + 1)%Z /\
  (0 <= r <= 100)%Z.
Proof.
  intros C. cbv zeta. pose proof (clockTime_whole seconds C) as F.
  destruct C as (Hb & H & H53).
  destruct (scaled_fraction seconds 100 Hb H ltac:(lia)) as (_ & Hr & _).
  cbv zeta in Hr. change (inject_Z 100) with 100%Q in Hr.
  pose proof (Qfloor_half (mul64 (fraction seconds) 100)) as Hh.
  fold (Math_round (mul64 (fraction seconds) 100)) in Hh.
  split; [|split; [exact Hh | lia]].
  unfold formatTimeForInput, div64. rewrite (editor_product Hb H).
  change 60%Q with (inject_Z (Zpos 60)).
  rewrite (floor_rem_pos 60 H).
  unfold Math_floor. rewrite (floor_fl_div seconds 60 Hb H H53) by lia.
  rewrite pad2_count
    by (split; [apply Z.div_pos; lia | apply Z.div_lt_upper_bound; lia]).
  rewrite pad2_small by mod_bound.
  destruct (Z.ltb_spec (Math_round (mul64 (fraction seconds) 100)) 100) as [L|G].
  - rewrite pad2_small by lia. reflexivity.
  - replace (Math_round (mul64 (fraction seconds) 100)) with 100%Z by lia.
    reflexivity.
Qed.

(** X13.  For a binary64 time that is not negative and below 2^53 seconds
    the editor shows the same minutes and seconds as the LRC stamp, and
    rounds the binary64 product of the fraction and 100 that the stamp
    truncates: the editor's hundredths are the stamp's or one more, and
    at 100 they are written with three digits instead of carrying. *)
Theorem X13_formatTimeForInput_rounds (seconds : Q) :
  clockTime seconds ->
  let whole := Qfloor seconds in
  let product := mul64 (fraction seconds) 100 in
  let t := Qfloor product in
  let r := Math_round product in
  formatTimeForInput seconds =
  zeroPad2 (whole / 60) ++ js ":" ++ twoDigits (whole mod 60) ++ js "." ++
  (if (r <? 100)%Z then twoDigits r else js "100") /\
  formatLrcTime seconds = lrcStamp (whole / 60) (whole mod 60) t /\
  (r = t \/ r = t + 1)%Z.
Proof.
  intros C. cbv zeta.
  destruct (formatTimeForInput_fields C) as (E & Hh & _). cbv zeta in E, Hh.
  split; [exact E|]. split; [apply formatLrcTime_fields; exact C | lia].
Qed.

(** X14.  No carry.  When the fraction of a binary64 time (not negative,
    below 2^53 seconds) is 0.995 or more, the editor shows the
    hundredths as ".100" and leaves the seconds as they are. *)
Theorem X14_formatTimeForInput_no_carry (seconds : Q) :
  clockTime seconds ->
  (199 # 200 <= fraction seconds)%Q ->
  formatTimeForInput seconds =
  zeroPad2 (Qfloor seconds / 60) ++ js ":" ++
  twoDigits (Qfloor seconds mod 60) ++ js ".100".
Proof.
  intros C Hfrac.
  destruct (formatTimeForInput_fields C) as (E & _ & Hr). cbv zeta in E, Hr.
  destruct (fraction_bounds seconds) as [F0 F1].
  assert (Hy : (inject_Z 199 * pow2 (-1) <= mul64 (fraction seconds) 100)%Q).
  { unfold mul64. apply round64_ge.
    - apply Qmult_le_0_compat; [exact F0 | discriminate].
    - apply Qlt_trans with (1 * 100)%Q; [|reflexivity].
      apply Qmult_lt_compat_r; [reflexivity | exact F1].
    - lia.
    - apply Qle_trans with ((199 # 200) * 100)%Q; [discriminate|].
      apply Qmult_le_compat_r; [exact Hfrac | discriminate]. }
  assert (Hlow : (100 <= Math_round (mul64 (fraction seconds) 100))%Z).
  { unfold Math_round. rewrite <- (Qfloor_Z 100). apply Qfloor_resp_le.
    apply Qle_trans with (inject_Z 199 * pow2 (-1) + (1 # 2))%Q;
      [discriminate|].
    apply Qplus_le_l. exact Hy. }
  rewrite E.
  replace (Math_round (mul64 (fraction seconds) 100)) with 100%Z by lia.
  reflexivity.
Qed.

(** The editor's field for decimal literals, as the code prints it.  The
    binary64 number of 59.995 lies below 59.995 and its product with 100
    is 99.49...: no ".100".  That of 0.015 lies above 0.015 and its
    product is 1.5 exactly, rounded up; that of 0.145 gives 14.49... *)
Example formatTimeForInput_examples :
  formatTimeForInput t_65_256 = js "01:05.26" /\
  formatTimeForInput t_59_999 = js "00:59.100" /\
  formatTimeForInput t_59_995 = js "00:59.99" /\
  (t_59_995 < 59995 # 1000)%Q /\
  formatTimeForInput (num 15 1000) = js "00:00.02" /\
  formatTimeForInput (num 145 1000) = js "00:00.14" /\
  formatTimeForInput 0 = js "00:00.00".
Proof. vm_compute. repeat split. Qed.

(* ================================================================== *)
(** ** The texts of the aligned lines *)
(* ================================================================== *)

Lemma Subseq_refl_nil (A : Type) (l : list A) : Subseq [] l.
Proof.
  induction l as [|x l IH]; [constructor | constructor; exact IH].
Qed.

Lemma Subseq_In (A : Type) (s l : list A) :
  Subseq s l -> forall x, In x s -> In x l.
Proof.
  induction 1 as [|y s l _ IH|y s l _ IH]; intros x Hx.
  - contradiction.
  - right. apply IH. exact Hx.
  - destruct Hx as [->|Hx]; [left; reflexivity | right; apply IH; exact Hx].
Qed.

(** What the main loop adds to the lines it was given. *)
Lemma alignLoop_texts
      (toLowerCase : jsstring -> jsstring) (isLetter isNumber : codepoint -> bool)
      (ws : list SunoWord) (rawLines : list jsstring) :
  forall pushed c pushed' c',
    alignLoop toLowerCase isLetter isNumber ws (pushed, c) rawLines
    = Ok (pushed', c') ->
    exists added,
      pushed' = pushed ++ added /\
      Subseq (map text added) rawLines /\
      Forall (fun l => words l = [] /\ isTag (text l) = false) added.
Proof.
  induction rawLines as [|l rest IH]; intros pushed c pushed' c' E;
    cbn [alignLoop] in E.
  - inversion E; subst. exists []. rewrite app_nil_r.
    repeat split; constructor.
  - destruct (alignLine_step toLowerCase isLetter isNumber ws pushed c l)
      as (st' & Est & Hcase).
    rewrite Est in E. cbn [bind] in E.
    destruct Hcase as [->|(mi & aw & _ & _ & _ & ->)].
    + destruct (IH _ _ _ _ E) as (added & -> & Hs & Hf).
      exists added. repeat split; [apply Subseq_skip; exact Hs | exact Hf].
    + assert (Htag : isTag l = false).
      { destruct (isTag l) eqn:T; [|reflexivity].
        rewrite (alignLine_tag toLowerCase isLetter isNumber ws (pushed, c) l T)
          in Est.
        inversion Est as [[Hp Hc]].
        apply (f_equal (@length _)) in Hp. rewrite length_app in Hp.
        cbn [length] in Hp. lia. }
      destruct (IH _ _ _ _ E) as (added & -> & Hs & Hf).
      exists (mkLine l (start aw) 0 [] :: added).
      rewrite <- app_assoc. repeat split.
      * cbn [map text]. apply Subseq_take. exact Hs.
      * constructor; [split; [reflexivity | exact Htag] | exact Hf].
Qed.

Lemma setEndTimes_texts (ws : list SunoWord) (ls : list AlignedLine) :
  map text (setEndTimes ws ls) = map text ls /\
  map (@words) (setEndTimes ws ls) = map (@words) ls.
Proof.
  induction ls as [|l r [IHt IHw]]; cbn [setEndTimes map]; [auto|].
  rewrite IHt, IHw. auto.
Qed.

Lemma In_dropWhile (p : codepoint -> bool) (s : jsstring) (c : codepoint) :
  In c (dropWhile p s) -> In c s.
Proof.
  induction s as [|x r IH]; cbn [dropWhile]; [auto|].
  destruct (p x); [intros H; right; apply IH; exact H | auto].
Qed.

Lemma In_trim (s : jsstring) (c : codepoint) : In c (trim s) -> In c s.
Proof.
  unfold trim. intros H. apply in_rev in H. apply In_dropWhile in H.
  apply in_rev in H. apply In_dropWhile in H. exact H.
Qed.

Lemma split_on_no_sep (sep : codepoint) (s : jsstring) :
  Forall (fun piece => ~ In sep piece) (split_on sep s).
Proof.
  induction s as [|c r IH]; cbn [split_on].
  - constructor; [intros [] | constructor].
  - destruct (cp_eqb c sep) eqn:E.
    + constructor; [intros [] | exact IH].
    + destruct (split_on sep r) as [|h t].
      * constructor; [|constructor]. intros [->|[]].
        unfold cp_eqb in E. rewrite N.eqb_refl in E. discriminate.
      * inversion IH; subst. constructor; [|assumption].
        intros [->|H]; [|contradiction].
        unfold cp_eqb in E. rewrite N.eqb_refl in E. discriminate.
Qed.

Lemma rawLinesOf_one_line (promptText l : jsstring) :
  In l (rawLinesOf promptText) -> ~ In 10%N l.
Proof.
  unfold rawLinesOf. intros H. apply filter_In in H. destruct H as [H _].
  apply in_map_iff in H. destruct H as (piece & <- & Hp).
  intros Hin. apply In_trim in Hin.
  pose proof (split_on_no_sep 10%N promptText) as F.
  rewrite Forall_forall in F. exact (F piece Hp Hin).
Qed.

(** X15.  The texts of the returned lines are raw lines of the prompt
    (trimmed, non-blank), in the order of the prompt and each used at most
    once; none is a bracketed tag or holds a line break; and every
    returned line has an empty [words] list. *)
Theorem X15_aligned_texts_come_from_prompt
    (toLowerCase : jsstring -> jsstring) (isLetter isNumber : codepoint -> bool)
    (promptText : jsstring) (ws : list SunoWord) :
  exists alignedLines,
    alignLyrics toLowerCase isLetter isNumber promptText ws = Ok alignedLines /\
    Subseq (map text alignedLines) (rawLinesOf promptText) /\
    Forall (fun l => words l = [] /\ isTag (text l) = false /\
                     text l <> [] /\ ~ In 10%N (text l)) alignedLines.
Proof.
  unfold alignLyrics.
  destruct (@alignLoop_invariant toLowerCase isLetter isNumber ws
              (rawLinesOf promptText) [] 0 [])
    as (pushed & c' & anchors & E & _); [constructor | constructor | constructor |].
  rewrite E. cbn [bind fst]. exists (setEndTimes ws pushed).
  split; [reflexivity|].
  destruct (@alignLoop_texts toLowerCase isLetter isNumber ws
              (rawLinesOf promptText) [] 0 pushed c' E)
    as (added & Hp & Hs & Hf).
  cbn [app] in Hp. subst added.
  destruct (setEndTimes_texts ws pushed) as [Ht Hw].
  split; [rewrite Ht; exact Hs|].
  apply Forall_forall. intros l Hl.
  destruct (In_nth_error _ _ Hl) as (i & Hi).
  destruct (setEndTimes_nth ws pushed i Hi) as (l0 & Hi0 & Et & _ & Ew).
  apply nth_error_In in Hi0.
  rewrite Forall_forall in Hf. destruct (Hf l0 Hi0) as [Hw0 Htag].
  assert (Hraw : In (text l0) (rawLinesOf promptText)).
  { apply (Subseq_In Hs). apply in_map. exact Hi0. }
  rewrite Et, Ew. repeat split.
  - exact Hw0.
  - exact Htag.
  - exact (@rawLinesOf_nonblank promptText (text l0) Hraw).
  - exact (@rawLinesOf_one_line promptText (text l0) Hraw).
Qed.

(* ================================================================== *)
(** ** The rows of the LRC text *)
(* ================================================================== *)

(** Whatever the fuel and the number, [digits] writes digits only. *)
Lemma digits_chars (fuel : nat) :
  forall n acc,
    forallb isDigit acc = true -> forallb isDigit (digits fuel n acc) = true.
Proof.
  induction fuel as [|f IH]; intros n acc Hacc; cbn [digits]; [exact Hacc|].
  assert (Hd : isDigit (Z.to_N (48 + n mod 10)) = true).
  { pose proof (Z.mod_pos_bound n 10). unfold isDigit.
    apply andb_true_iff. split; apply N.leb_le; lia. }
  destruct (n <? 10)%Z.
  - cbn [forallb]. rewrite Hd. exact Hacc.
  - apply IH. cbn [forallb]. rewrite Hd. exact Hacc.
Qed.

Lemma decimal_no_line_feed (n : Z) : ~ In 10%N (decimal n).
Proof.
  intros H. pose proof (@digits_chars (S (Z.to_nat (Z.log2 n))) n [] eq_refl) as D.
  rewrite forallb_forall in D. specialize (D _ H). discriminate.
Qed.

Lemma stripZeros_In (c : codepoint) (s : jsstring) :
  In c (stripZeros s) -> In c s.
Proof.
  induction s as [|x r IH]; cbn [stripZeros]; [tauto|].
  destruct (stripZeros r) as [|y r'] eqn:E.
  - destruct (x =? 48)%N; [intros [] | intros [H|[]]; left; exact H].
  - intros [H|H]; [left; exact H | right; apply IH; exact H].
Qed.

Lemma not_in_app (c : codepoint) (a b : jsstring) :
  ~ In c a -> ~ In c b -> ~ In c (a ++ b).
Proof.
  intros Ha Hb H. apply in_app_or in H. tauto.
Qed.

Lemma shortestForm_no_line_feed (n : Z) : ~ In 10%N (shortestForm n).
Proof.
  unfold shortestForm.
  destruct (shortest _ n _ 1) as [s e].
  destruct (Z.of_nat (length (decimal s)) + e <=? 21)%Z.
  - apply not_in_app; [apply decimal_no_line_feed|].
    intros H. apply repeat_spec in H. discriminate.
  - destruct (stripZeros (decimal s)) as [|d rest] eqn:E; [intros []|].
    assert (S : forall c, In c (d :: rest) -> c <> 10%N).
    { intros c Hc ->. rewrite <- E in Hc. apply stripZeros_In in Hc.
      exact (decimal_no_line_feed s Hc). }
    intros [H|H]; [exact (S d (or_introl eq_refl) H)|].
    apply in_app_or in H. destruct H as [H|H].
    + destruct rest as [|x r]; [exact H|].
      destruct H as [H|H]; [discriminate|].
      exact (S 10%N (or_intror H) eq_refl).
    + destruct H as [H|[H|H]]; [discriminate | discriminate|].
      exact (decimal_no_line_feed _ H).
Qed.

Lemma Z_toString_no_line_feed (n : Z) : ~ In 10%N (Z_toString n).
Proof.
  assert (P : forall m, ~ In 10%N (Z_toString_nonneg m)).
  { intros m. unfold Z_toString_nonneg. destruct (m =? 0)%Z.
    - intros [H|[]]. discriminate H.
    - apply shortestForm_no_line_feed. }
  unfold Z_toString. destruct (n <? 0)%Z.
  - intros [H|H]; [discriminate | exact (P _ H)].
  - apply P.
Qed.

Lemma padStart0_no_line_feed (k : nat) (n : Z) :
  ~ In 10%N (padStart0 k (Z_toString n)).
Proof.
  unfold padStart0. intros H. apply in_app_or in H. destruct H as [H|H].
  - apply repeat_spec in H. discriminate.
  - exact (Z_toString_no_line_feed n H).
Qed.

Lemma formatLrcTime_no_line_feed (seconds : Q) :
  ~ In 10%N (formatLrcTime seconds).
Proof.
  unfold formatLrcTime.
  repeat first
    [ apply padStart0_no_line_feed
    | apply not_in_app
    | (intros [H|[]]; discriminate H) ].
Qed.

Lemma split_on_whole (sep : codepoint) (s : jsstring) :
  ~ In sep s -> split_on sep s = [s].
Proof.
  induction s as [|c r IH]; intros H; cbn [split_on]; [reflexivity|].
  destruct (cp_eqb c sep) eqn:E.
  - apply N.eqb_eq in E. subst. exfalso. apply H. left. reflexivity.
  - rewrite IH; [reflexivity|]. intros Hin. apply H. right. exact Hin.
Qed.

Lemma split_on_join (sep : codepoint) (rows : list jsstring) :
  rows <> [] ->
  Forall (fun row => ~ In sep row) rows ->
  split_on sep (join [sep] rows) = rows.
Proof.
  induction rows as [|row rest IH]; intros Hne Hf; [contradiction|].
  inversion Hf as [|? ? Hrow Hrest]; subst.
  destruct rest as [|row' rest'].
  - cbn [join]. apply split_on_whole. exact Hrow.
  - change (join [sep] (row :: row' :: rest'))
      with (row ++ sep :: join [sep] (row' :: rest')).
    rewrite split_on_app, (@split_on_whole sep row Hrow), IH; [reflexivity | | exact Hrest].
    discriminate.
Qed.

(** X16.  One row per line.  When no text holds a line break, cutting the
    LRC text of a non-empty list at its line feeds gives back exactly the
    rows, stamp and text, one for each line in order. *)
Theorem X16_generateLRC_rows (ls : list AlignedLine) :
  ls <> [] ->
  Forall (fun l => ~ In 10%N (text l)) ls ->
  split_on 10%N (generateLRC ls) = map lrcRow ls.
Proof.
  intros Hne Hf. unfold generateLRC. change (js lf) with [10%N].
  change (fun line => formatLrcTime (startTime line) ++ text line) with lrcRow.
  apply split_on_join.
  - destruct ls; [contradiction | discriminate].
  - apply Forall_forall. intros row Hrow.
    apply in_map_iff in Hrow. destruct Hrow as (l & <- & Hl).
    rewrite Forall_forall in Hf. unfold lrcRow. intros Hin.
    apply in_app_or in Hin. destruct Hin as [Hin|Hin].
    + exact (@formatLrcTime_no_line_feed (startTime l) Hin).
    + exact (Hf l Hl Hin).
Qed.

(* ================================================================== *)
(** ** Instances of the conditional properties *)
(* ================================================================== *)

Lemma X2_isValidUUID_no_padding_witness :
  isValidUUID (js "3f2504e0-4f89-11d3-9a0c-0305e82c3301") = true /\
  isValidUUID (32%N :: js "3f2504e0-4f89-11d3-9a0c-0305e82c3301") = false /\
  isValidUUID (js "3f2504e0-4f89-11d3-9a0c-0305e82c3301" ++ [32%N]) = false.
Proof.
  split; [reflexivity|].
  apply (@X2_isValidUUID_no_padding
           (js "3f2504e0-4f89-11d3-9a0c-0305e82c3301") 32%N).
  reflexivity.
Defined.

Lemma X5_trailing_slash_witness :
  js "https://proxy.example" <> [] /\
  endsWith (js "https://proxy.example") 47%N = false /\
  alignedLyricsUrl (js "abc") (Some (js "https://proxy.example" ++ js "/")) =
  alignedLyricsUrl (js "abc") (Some (js "https://proxy.example")).
Proof.
  assert (H1 : js "https://proxy.example" <> []) by discriminate.
  assert (H2 : endsWith (js "https://proxy.example") 47%N = false)
    by reflexivity.
  split; [exact H1|]. split; [exact H2|].
  apply (@X5_trailing_slash_is_irrelevant
           (js "https://proxy.example") (js "abc") H1 H2).
Defined.

Lemma X8_extract_from_single_key_witness :
  extractRawWords
    (JObj [(js "payload", JArr [JObj [(js "word", JStr (js "la"))]])])
  = [JObj [(js "word", JStr (js "la"))]].
Proof.
  apply (@X8_extract_from_single_key (js "payload")
           [JObj [(js "word", JStr (js "la"))]]).
  right. exists (JObj [(js "word", JStr (js "la"))]), [].
  split; reflexivity.
Defined.

Lemma X11_updateLine_witness :
  exists r',
    updateLine
      (mkApp SUCCESS []
         (Some (mkResult [line_65] (generateLRC [line_65])
                  (generateSRT [line_65]))) None)
      0 (mkChanges None (Some 1%Q) None None)
    = Some (mkApp SUCCESS [] (Some r') None) /\
    nth_error (lines r') 0 =
    Some (applyChanges line_65 (mkChanges None (Some 1%Q) None None)).
Proof.
  destruct (@X11_updateLine_in_range
              (mkApp SUCCESS []
                 (Some (mkResult [line_65] (generateLRC [line_65])
                          (generateSRT [line_65]))) None)
              (mkResult [line_65] (generateLRC [line_65]) (generateSRT [line_65]))
              0 line_65 (mkChanges None (Some 1%Q) None None)
              eq_refl eq_refl)
    as (r' & Hu & _ & Hn & _).
  exists r'. split; [exact Hu | exact Hn].
Defined.

Lemma X12_exports_stay_in_sync_witness :
  exportsInSync
    (mkApp SUCCESS []
       (Some (mkResult [line_65] (generateLRC [line_65])
                (generateSRT [line_65]))) None) /\
  exportsInSync
    (processData ascii_toLowerCase ascii_isLetter ascii_isNumber
       (mkApp SUCCESS []
          (Some (mkResult [line_65] (generateLRC [line_65])
                   (generateSRT [line_65]))) None)
       text_two_lines words_two_lines None).
Proof.
  assert (H : exportsInSync
                (mkApp SUCCESS []
                   (Some (mkResult [line_65] (generateLRC [line_65])
                            (generateSRT [line_65]))) None))
    by (split; reflexivity).
  split; [exact H|].
  apply (@X12_exports_stay_in_sync
           ascii_toLowerCase ascii_isLetter ascii_isNumber _ H).
Defined.

Lemma X13_formatTimeForInput_witness :
  clockTime t_65_256 /\
  formatTimeForInput t_65_256 = js "01:05.26" /\
  formatLrcTime t_65_256 = js "[01:05.25]".
Proof.
  split; [exact clockTime_65_256|].
  destruct (@X13_formatTimeForInput_rounds t_65_256 clockTime_65_256)
    as (He & Hl & _).
  split; [exact He | exact Hl].
Defined.

Lemma X14_formatTimeForInput_no_carry_witness :
  clockTime t_59_999 /\
  (199 # 200 <= fraction t_59_999)%Q /\
  formatTimeForInput t_59_999 = js "00:59.100".
Proof.
  assert (H1 : clockTime t_59_999).
  { split; [vm_compute; reflexivity|].
    split; [vm_compute; discriminate | vm_compute; reflexivity]. }
  assert (H2 : (199 # 200 <= fraction t_59_999)%Q)
    by (vm_compute; discriminate).
  split; [exact H1|]. split; [exact H2|].
  apply (@X14_formatTimeForInput_no_carry t_59_999 H1 H2).
Defined.

Lemma X16_generateLRC_rows_witness :
  [line_65; line_65] <> [] /\
  split_on 10%N (generateLRC [line_65; line_65]) = [lrcRow line_65; lrcRow line_65].
Proof.
  assert (H1 : [line_65; line_65] <> []) by discriminate.
  assert (H2 : Forall (fun l => ~ In 10%N (text l)) [line_65; line_65]).
  { repeat constructor; intros [H|[H|[]]]; discriminate H. }
  split; [exact H1|].
  apply (@X16_generateLRC_rows [line_65; line_65] H1 H2).
Defined.
